(** * Firestore remote serializer: FieldValue and DocumentKey wire codec

    A shallow embedding of
    [Firestore/core/src/firebase/firestore/remote/serializer.cc]
    together with the properties of its encoder, decoder and key codec.

    Conventions of the embedding.
    - Unsigned machine integers ([uint64_t], [uint32_t], [size_t]) are [N];
      the places where the C code truncates are written out with [mod].
      Signed ones ([int64_t], [int32_t]) are [Z].
    - A byte ([uint8_t], [pb_byte_t], [char]) is [Byte.byte]; a byte buffer
      and a [std::string] are [list byte].
    - Counts of bytes ([size_t]) are [N] on the output side and [nat] on
      the input side, without wrap-around: they count bytes that are in
      memory.
    - A C++ function that can fail a [FIREBASE_ASSERT] or call [abort()]
      returns in [Run]: [Ret] is a normal return, [Abort] the process
      abort.  [OutOfFuel] belongs to the model only: the decoder recurses
      on a count of rounds, and [DecodeFieldValueImpl_total] shows that
      the count it is given is never used up.
    - [Writer] and [Reader] are passed and returned explicitly: a method
      [void Writer::M(args)] becomes [M args : Writer.t -> Run Writer.t].
    - nanopb is a library outside of this repository.  Its primitives are
      modelled from the contracts of sections 4.1 and 4.2 of the
      specification and from what the source says of the version it is
      built against; each of them says so. *)

From Stdlib Require Import List NArith ZArith Lia Bool Arith.
From Stdlib Require Import Init.Byte Strings.Byte.
From Stdlib Require String.
Import String.StringSyntax.
Import ListNotations.

Delimit Scope string_scope with string.

Set Warnings "-register-all".

(** ** Outcomes of a call *)

Inductive Run (A : Type) : Type :=
| Ret (a : A)
| Abort
| OutOfFuel.

Arguments Ret {A} a.
Arguments Abort {A}.
Arguments OutOfFuel {A}.

Definition bind {A B : Type} (c : Run A) (k : A -> Run B) : Run B :=
  match c with
  | Ret a => k a
  | Abort => Abort
  | OutOfFuel => OutOfFuel
  end.

Notation "x <- c ;; k" := (bind c (fun x => k))
  (at level 61, c at next level, right associativity).
Notation "' p <- c ;; k" := (bind c (fun x => let p := x in k))
  (at level 61, p pattern, c at next level, right associativity).

(** Modelled from the spec: [FIREBASE_ASSERT] comes from
    [firebase_assert.h], which is not among the sources.  Section 7: a
    fatal programmer error asserts and aborts. *)
Definition FIREBASE_ASSERT (cond : bool) : Run unit :=
  if cond then Ret tt else Abort.

(** Modelled from the spec: [util::Status] is not among the sources.
    Section 7: the status is OK or the recoverable DATA_LOSS; the source
    builds no other ([Status::OK()] and
    [Status(FirestoreErrorCode::DataLoss, msg)]); the message is dropped. *)
Inductive Status : Type := OK | DataLoss.

Definition ok (s : Status) : bool :=
  match s with OK => true | DataLoss => false end.

(** [util::StatusOr<T>] *)
Inductive StatusOr (T : Type) : Type :=
| ValueOf (v : T)
| StatusOf (s : Status).

Arguments ValueOf {T} v.
Arguments StatusOf {T} s.

(** ** Bytes and fixed-width integers *)

(** The cast [(pb_byte_t)n]: keeps the low eight bits. *)
Definition to_byte (n : N) : byte :=
  match Byte.of_N (n mod 256) with
  | Some b => b
  | None => x00
  end.

(** The cast [(uint64_t)z] of a signed value. *)
Definition to_uint64 (z : Z) : N := Z.to_N (z mod 18446744073709551616).

(** The cast [(int64_t)n] of a [uint64_t]. *)
Definition to_int64 (n : N) : Z :=
  let u := (n mod 18446744073709551616)%N in
  if (u <? 9223372036854775808)%N then Z.of_N u
  else (Z.of_N u - 18446744073709551616)%Z.

(** The cast [(int32_t)z] of a wider integer. *)
Definition to_int32 (z : Z) : Z :=
  let u := (z mod 4294967296)%Z in
  if (u <? 2147483648)%Z then u else (u - 4294967296)%Z.

(** ** Wire types, tags and the schema's field numbers *)

Definition pb_wire_type_t : Type := N.
Definition PB_WT_VARINT : pb_wire_type_t := 0%N.
Definition PB_WT_64BIT : pb_wire_type_t := 1%N.
Definition PB_WT_STRING : pb_wire_type_t := 2%N.
Definition PB_WT_32BIT : pb_wire_type_t := 5%N.

Record Tag : Type := mkTag { wire_type : pb_wire_type_t; field_number : N }.

(** Modelled from the spec: the field numbers are generated into
    [document.pb.h], which is not among the sources; the values are
    those of the table in section 3 and of the wire format in section 6. *)
Definition google_firestore_v1beta1_Value_null_value_tag : N := 11.
Definition google_firestore_v1beta1_Value_boolean_value_tag : N := 1.
Definition google_firestore_v1beta1_Value_integer_value_tag : N := 2.
Definition google_firestore_v1beta1_Value_string_value_tag : N := 17.
Definition google_firestore_v1beta1_Value_timestamp_value_tag : N := 10.
Definition google_firestore_v1beta1_Value_map_value_tag : N := 6.
Definition google_firestore_v1beta1_MapValue_fields_tag : N := 1.
Definition google_firestore_v1beta1_MapValue_FieldsEntry_key_tag : N := 1.
Definition google_firestore_v1beta1_MapValue_FieldsEntry_value_tag : N := 2.
Definition google_protobuf_NullValue_NULL_VALUE : N := 0.
Definition google_protobuf_Timestamp_seconds_tag : N := 1.
Definition google_protobuf_Timestamp_nanos_tag : N := 2.

(** ** The domain values *)

(** Modelled from the spec: [firebase::Timestamp] comes from
    [timestamp.h], which is not among the sources.  Section 3:
    [(seconds: i64, nanos: i32)]. *)
Record Timestamp : Type := mkTimestamp { seconds : Z; nanoseconds : Z }.

(** Modelled from the spec: [model::FieldValue] and [ObjectValue::Map]
    come from [field_value.h], which is not among the sources.  Section 3:
    a tagged variant of Null, Boolean, Integer, String, Timestamp and
    Object, the last an ordered mapping from strings to [FieldValue] with
    unique keys.  The source includes [<map>] and uses [find], [emplace]
    and the iteration of the map: it is a [std::map], here an association
    list in strictly increasing key order.  The constructors have the
    names of the factory functions that the source calls.
    [UnimplementedValue] stands for the members of [FieldValue::Type] that
    [EncodeFieldValueImpl] has no case for. *)
Inductive FieldValue : Type :=
| NullValue
| BooleanValue (boolean_value : bool)
| IntegerValue (integer_value : Z)
| StringValue (string_value : list byte)
| TimestampValue (timestamp_value : Timestamp)
| ObjectValueFromMap (object_value : list (list byte * FieldValue))
| UnimplementedValue.

Definition ObjectValue_Map : Type := list (list byte * FieldValue).

(** [std::string::operator<]: lexicographic on unsigned bytes. *)
Fixpoint string_lt (a b : list byte) : bool :=
  match a, b with
  | _, [] => false
  | [], _ :: _ => true
  | x :: a', y :: b' =>
      if (Byte.to_N x <? Byte.to_N y)%N then true
      else if (Byte.to_N y <? Byte.to_N x)%N then false
      else string_lt a' b'
  end.

(** [std::map::find(key) != end()] *)
Fixpoint Map_contains (key : list byte) (m : ObjectValue_Map) : bool :=
  match m with
  | [] => false
  | (k, _) :: m' =>
      if string_lt key k then false
      else if string_lt k key then Map_contains key m'
      else true
  end.

(** [std::map::emplace]: inserts at the key's place in the order, and
    leaves the map alone when the key is present. *)
Fixpoint Map_emplace (kv : list byte * FieldValue) (m : ObjectValue_Map)
  : ObjectValue_Map :=
  match m with
  | [] => [kv]
  | (k, v) :: m' =>
      if string_lt (fst kv) k then kv :: m
      else if string_lt k (fst kv) then (k, v) :: Map_emplace kv m'
      else m
  end.

(** ** nanopb output streams *)

(** [pb_ostream_t].  [callback] is [false] for the null callback of
    [PB_OSTREAM_SIZING]; [state] is the vector the callback of
    [Writer::Wrap] appends to. *)
Record pb_ostream_t : Type := mk_ostream {
  callback : bool;
  state : list byte;
  max_size : N;
  bytes_written : N
}.

Definition PB_OSTREAM_SIZING : pb_ostream_t :=
  {| callback := false; state := []; max_size := 0; bytes_written := 0 |}.

(** Modelled from the spec: nanopb's [pb_write] is not among the
    sources.  Section 4.1: [append] copies the bytes and tracks the count;
    in size-only mode it only counts; beyond the size ceiling it fails.
    The copy is the callback installed by [Writer::Wrap]
    ([out_bytes->insert(out_bytes->end(), buf, buf + count)]). *)
Definition pb_write (stream : pb_ostream_t) (buf : list byte) (count : N)
  : bool * pb_ostream_t :=
  if callback stream then
    if (max_size stream <? bytes_written stream + count)%N then (false, stream)
    else (true, {| callback := true;
                   state := state stream ++ buf;
                   max_size := max_size stream;
                   bytes_written := (bytes_written stream + count)%N |})
  else (true, {| callback := false;
                 state := state stream;
                 max_size := max_size stream;
                 bytes_written := (bytes_written stream + count)%N |}).

(** The loop [while (value) { buffer[i] = (value & 0x7F) | 0x80;
    value >>= 7; i++; }] of [pb_encode_varint]; the buffer has ten
    bytes, which is what a [uint64_t] needs. *)
Fixpoint varint_buffer (n : nat) (value : N) : list byte :=
  match n with
  | O => []
  | S n' =>
      if (value =? 0)%N then []
      else to_byte (N.lor (N.land value 127) 128)
             :: varint_buffer n' (N.shiftr value 7)
  end.

(** [buffer[i-1] &= 0x7F] *)
Fixpoint unset_top_bit_of_last (buffer : list byte) : list byte :=
  match buffer with
  | [] => []
  | [b] => [to_byte (N.land (Byte.to_N b) 127)]
  | b :: rest => b :: unset_top_bit_of_last rest
  end.

(** The bytes [pb_encode_varint] hands to [pb_write]. *)
Definition varint_bytes (value : N) : list byte :=
  if (value <=? 127)%N then [to_byte value]
  else unset_top_bit_of_last (varint_buffer 10 value).

(** Modelled from the spec: nanopb's [pb_encode_varint] is not among the
    sources.  Section 4.2: unsigned LEB128. *)
Definition pb_encode_varint (stream : pb_ostream_t) (value : N)
  : bool * pb_ostream_t :=
  let buffer := varint_bytes value in
  pb_write stream buffer (N.of_nat (length buffer)).

(** Modelled from the spec: nanopb's [pb_encode_tag] is not among the
    sources.  Section 4.2: [(field_number << 3) | wire_type], written as a
    varint. *)
Definition pb_encode_tag (stream : pb_ostream_t) (wiretype : pb_wire_type_t)
  (field_number : N) : bool * pb_ostream_t :=
  pb_encode_varint stream (N.lor (N.shiftl field_number 3) wiretype).

(** Modelled from the spec: nanopb's [pb_encode_string] is not among the
    sources.  Section 4.2: varint length prefix followed by that many
    payload bytes. *)
Definition pb_encode_string (stream : pb_ostream_t) (buffer : list byte)
  : bool * pb_ostream_t :=
  let size := N.of_nat (length buffer) in
  match pb_encode_varint stream size with
  | (false, stream') => (false, stream')
  | (true, stream') => pb_write stream' buffer size
  end.

(** [google_protobuf_Timestamp]: the nanopb struct of the message. *)
Record google_protobuf_Timestamp : Type := mk_pb_Timestamp {
  pb_seconds : Z;
  pb_nanos : Z
}.

Definition google_protobuf_Timestamp_init_zero : google_protobuf_Timestamp :=
  {| pb_seconds := 0; pb_nanos := 0 |}.

(** Modelled from the spec: nanopb's [pb_encode] and the generated
    descriptor [google_protobuf_Timestamp_fields] are not among the
    sources.  Sections 4.3 and 4.5: the message is emitted field by field,
    field 1 (VARINT seconds) then field 2 (VARINT nanos), both always
    present; section 4.2: a signed integer is its two's-complement 64-bit
    pattern in the varint. *)
Definition pb_encode_Timestamp (stream : pb_ostream_t)
  (src_struct : google_protobuf_Timestamp) : bool * pb_ostream_t :=
  match pb_encode_tag stream PB_WT_VARINT google_protobuf_Timestamp_seconds_tag with
  | (false, s1) => (false, s1)
  | (true, s1) =>
      match pb_encode_varint s1 (to_uint64 (pb_seconds src_struct)) with
      | (false, s2) => (false, s2)
      | (true, s2) =>
          match pb_encode_tag s2 PB_WT_VARINT google_protobuf_Timestamp_nanos_tag with
          | (false, s3) => (false, s3)
          | (true, s3) => pb_encode_varint s3 (to_uint64 (pb_nanos src_struct))
          end
      end
  end.

(** ** [class Writer] *)

Module Writer.

Record t : Type := mk { status_ : Status; stream_ : pb_ostream_t }.

Definition status (w : t) : Status := status_ w.

(** A primitive that returned [false] fails
    [FIREBASE_ASSERT_MESSAGE(false, PB_GET_ERROR(&stream_))]. *)
Definition checked (w : t) (r : bool * pb_ostream_t) : Run t :=
  match r with
  | (true, stream') => Ret {| status_ := status_ w; stream_ := stream' |}
  | (false, _) => Abort
  end.

Definition kMaxDocumentSize : N := 1 * 1024 * 1024 - 4.

Definition Wrap (out_bytes : list byte) : t :=
  {| status_ := OK;
     stream_ := {| callback := true; state := out_bytes;
                   max_size := kMaxDocumentSize; bytes_written := 0 |} |}.

Definition Sizing : t := {| status_ := OK; stream_ := PB_OSTREAM_SIZING |}.

Definition WriteTag (tag : Tag) (w : t) : Run t :=
  if negb (ok (status_ w)) then Ret w
  else checked w (pb_encode_tag (stream_ w) (wire_type tag) (field_number tag)).

Definition WriteNanopbMessage (src_struct : google_protobuf_Timestamp) (w : t)
  : Run t :=
  if negb (ok (status_ w)) then Ret w
  else checked w (pb_encode_Timestamp (stream_ w) src_struct).

Definition WriteVarint (value : N) (w : t) : Run t :=
  if negb (ok (status_ w)) then Ret w
  else checked w (pb_encode_varint (stream_ w) value).

Definition WriteSize (size : N) (w : t) : Run t := WriteVarint size w.

Definition WriteNull (w : t) : Run t :=
  WriteVarint google_protobuf_NullValue_NULL_VALUE w.

Definition WriteBool (bool_value : bool) (w : t) : Run t :=
  WriteVarint (if bool_value then 1 else 0)%N w.

Definition WriteInteger (integer_value : Z) (w : t) : Run t :=
  WriteVarint (to_uint64 integer_value) w.

Definition WriteString (string_value : list byte) (w : t) : Run t :=
  if negb (ok (status_ w)) then Ret w
  else checked w (pb_encode_string (stream_ w) string_value).

Definition set_status (s : Status) (w : t) : t :=
  {| status_ := s; stream_ := stream_ w |}.

Definition WriteNestedMessage (write_message_fn : t -> Run t) (w : t) : Run t :=
  if negb (ok (status_ w)) then Ret w
  else
    (* First calculate the message size using a non-writing substream. *)
    sizer <- write_message_fn Sizing ;;
    let w := set_status (status sizer) w in
    if negb (ok (status_ w)) then Ret w
    else
      let size := bytes_written (stream_ sizer) in
      (* Write out the size to the output writer. *)
      w <- WriteSize size w ;;
      if negb (ok (status_ w)) then Ret w
      else if negb (callback (stream_ w)) then
        (* A sizing stream: only advance bytes_written. *)
        checked w (pb_write (stream_ w) [] size)
      else
        (* Ensure the output stream has enough space. *)
        _ <- FIREBASE_ASSERT
               (negb (max_size (stream_ w) <? bytes_written (stream_ w) + size)%N) ;;
        let writer :=
          {| status_ := OK;
             stream_ := {| callback := callback (stream_ w);
                           state := state (stream_ w);
                           max_size := size;
                           bytes_written := 0 |} |} in
        writer <- write_message_fn writer ;;
        let w := set_status (status writer) w in
        if negb (ok (status_ w)) then Ret w
        else
          let w :=
            {| status_ := status_ w;
               stream_ := {| callback := callback (stream_ w);
                             state := state (stream_ writer);
                             max_size := max_size (stream_ w);
                             bytes_written :=
                               (bytes_written (stream_ w)
                                + bytes_written (stream_ writer))%N |} |} in
          _ <- FIREBASE_ASSERT (bytes_written (stream_ writer) =? size)%N ;;
          Ret w.

Definition bytes_written (w : t) : N := bytes_written (stream_ w).

End Writer.

(** ** Encoding a [FieldValue] *)

Definition EncodeTimestamp (timestamp_value : Timestamp) (writer : Writer.t)
  : Run Writer.t :=
  let timestamp_proto :=
    {| pb_seconds := seconds timestamp_value;
       pb_nanos := nanoseconds timestamp_value |} in
  Writer.WriteNanopbMessage timestamp_proto writer.

Section EncodeObject.

(** The encoder of the values of the map, [EncodeFieldValueImpl] below. *)
Variable EncodeFieldValueImpl : FieldValue -> Writer.t -> Run Writer.t.

Definition EncodeFieldsEntry (kv : list byte * FieldValue) (writer : Writer.t)
  : Run Writer.t :=
  let (key, value) := kv in
  (* Write the key (string) *)
  writer <- Writer.WriteTag
              (mkTag PB_WT_STRING google_firestore_v1beta1_MapValue_FieldsEntry_key_tag)
              writer ;;
  writer <- Writer.WriteString key writer ;;
  (* Write the value (FieldValue) *)
  writer <- Writer.WriteTag
              (mkTag PB_WT_STRING google_firestore_v1beta1_MapValue_FieldsEntry_value_tag)
              writer ;;
  Writer.WriteNestedMessage (fun writer => EncodeFieldValueImpl value writer) writer.

(** The [for (const auto& kv : object_value.internal_value)] loop. *)
Fixpoint EncodeObject_entries (internal_value : ObjectValue_Map) (writer : Writer.t)
  : Run Writer.t :=
  match internal_value with
  | [] => Ret writer
  | kv :: rest =>
      writer <- Writer.WriteTag
                  (mkTag PB_WT_STRING google_firestore_v1beta1_MapValue_FieldsEntry_key_tag)
                  writer ;;
      writer <- Writer.WriteNestedMessage
                  (fun writer => EncodeFieldsEntry kv writer) writer ;;
      EncodeObject_entries rest writer
  end.

Definition EncodeObject (object_value : ObjectValue_Map) (writer : Writer.t)
  : Run Writer.t :=
  Writer.WriteNestedMessage
    (fun writer => EncodeObject_entries object_value writer) writer.

End EncodeObject.

Fixpoint EncodeFieldValueImpl (field_value : FieldValue) (writer : Writer.t)
  {struct field_value} : Run Writer.t :=
  match field_value with
  | NullValue =>
      writer <- Writer.WriteTag
                  (mkTag PB_WT_VARINT google_firestore_v1beta1_Value_null_value_tag)
                  writer ;;
      Writer.WriteNull writer
  | BooleanValue boolean_value =>
      writer <- Writer.WriteTag
                  (mkTag PB_WT_VARINT google_firestore_v1beta1_Value_boolean_value_tag)
                  writer ;;
      Writer.WriteBool boolean_value writer
  | IntegerValue integer_value =>
      writer <- Writer.WriteTag
                  (mkTag PB_WT_VARINT google_firestore_v1beta1_Value_integer_value_tag)
                  writer ;;
      Writer.WriteInteger integer_value writer
  | StringValue string_value =>
      writer <- Writer.WriteTag
                  (mkTag PB_WT_STRING google_firestore_v1beta1_Value_string_value_tag)
                  writer ;;
      Writer.WriteString string_value writer
  | TimestampValue timestamp_value =>
      writer <- Writer.WriteTag
                  (mkTag PB_WT_STRING google_firestore_v1beta1_Value_timestamp_value_tag)
                  writer ;;
      Writer.WriteNestedMessage
        (fun writer => EncodeTimestamp timestamp_value writer) writer
  | ObjectValueFromMap object_value =>
      writer <- Writer.WriteTag
                  (mkTag PB_WT_STRING google_firestore_v1beta1_Value_map_value_tag)
                  writer ;;
      EncodeObject EncodeFieldValueImpl object_value writer
  | UnimplementedValue => Abort
  end.

(** [Serializer::EncodeFieldValue]: the status and the vector afterwards. *)
Definition Serializer_EncodeFieldValue (field_value : FieldValue)
  (out_bytes : list byte) : Run (Status * list byte) :=
  writer <- EncodeFieldValueImpl field_value (Writer.Wrap out_bytes) ;;
  Ret (Writer.status writer, state (Writer.stream_ writer)).

(** ** nanopb input streams *)

(** [pb_istream_t] over a buffer: [istate] is what lies at and after the
    read pointer, [bytes_left] the number of bytes this stream may still
    consume.  A substream shares the pointer and has a smaller
    [bytes_left]. *)
Record pb_istream_t : Type := mk_istream {
  istate : list byte;
  bytes_left : nat
}.

Definition pb_istream_from_buffer (bytes : list byte) : pb_istream_t :=
  {| istate := bytes; bytes_left := length bytes |}.

(** Modelled from the spec: nanopb's [pb_read] is not among the sources.
    Section 4.1: [read(n)] consumes exactly [n] bytes or fails. *)
Definition pb_read (stream : pb_istream_t) (count : nat)
  : option (list byte) * pb_istream_t :=
  if (bytes_left stream <? count)%nat then (None, stream)
  else if (length (istate stream) <? count)%nat then (None, stream)
  else (Some (firstn count (istate stream)),
        {| istate := skipn count (istate stream);
           bytes_left := bytes_left stream - count |}).

Definition pb_readbyte (stream : pb_istream_t) : option byte * pb_istream_t :=
  match bytes_left stream, istate stream with
  | S n, b :: rest => (Some b, {| istate := rest; bytes_left := n |})
  | _, _ => (None, stream)
  end.

(** The loop of [pb_decode_varint] and [pb_decode_varint32]:
    [result |= (byte & 0x7F) << bitpos; bitpos += 7] while the byte has
    its top bit set; it fails at the end of the stream and when [bitpos]
    reaches the [width] of the result. *)
Fixpoint pb_decode_varint_loop (width : N) (n : nat) (bitpos result : N)
  (stream : pb_istream_t) : option N * pb_istream_t :=
  match n with
  | O => (None, stream)
  | S n' =>
      if (width <=? bitpos)%N then (None, stream)
      else
        match pb_readbyte stream with
        | (None, stream') => (None, stream')
        | (Some b, stream') =>
            let result' :=
              N.lor result
                (N.shiftl (N.land (Byte.to_N b) 127) bitpos mod 2 ^ width)%N in
            if N.testbit (Byte.to_N b) 7
            then pb_decode_varint_loop width n' (bitpos + 7)%N result' stream'
            else (Some result', stream')
        end
  end.

(** Modelled from the spec: nanopb's [pb_decode_varint] is not among the
    sources.  Section 4.2: unsigned LEB128; fails on a truncated varint and
    on a varint of more than 10 bytes. *)
Definition pb_decode_varint (stream : pb_istream_t) : option N * pb_istream_t :=
  pb_decode_varint_loop 64 11 0 0 stream.

(** Modelled from the spec: nanopb's [pb_decode_varint32], which reads
    tags and length prefixes into a [uint32_t], is not among the sources;
    it is the same loop at width 32. *)
Definition pb_decode_varint32 (stream : pb_istream_t) : option N * pb_istream_t :=
  pb_decode_varint_loop 32 6 0 0 stream.

(** Modelled from the spec: nanopb's [pb_decode_tag] is not among the
    sources.  Section 4.2: the tag is the varint
    [(field_number << 3) | wire_type]; section 4.4: it fails at the end of
    the input and on a malformed varint.  A zero tag ends a message and is
    reported as end of input.  The result is [(ok, tag, eof)]. *)
Definition pb_decode_tag (stream : pb_istream_t)
  : (bool * Tag * bool) * pb_istream_t :=
  match pb_decode_varint32 stream with
  | (None, stream') =>
      ((false, mkTag 0%N 0%N, (bytes_left stream' =? 0)%nat), stream')
  | (Some temp, stream') =>
      if (temp =? 0)%N then ((false, mkTag 0%N 0%N, true), stream')
      else ((true, mkTag (N.land temp 7) (N.shiftr temp 3), false), stream')
  end.

(** Modelled from the spec: nanopb's [pb_make_string_substream] is not
    among the sources.  Section 4.1: [open_bounded_region(length)] carves a
    sub-source of the prefixed length from the current position; section
    4.2: it fails when the length prefix exceeds the remaining bytes. *)
Definition pb_make_string_substream (stream : pb_istream_t)
  : option pb_istream_t * pb_istream_t :=
  match pb_decode_varint32 stream with
  | (None, stream') => (None, stream')
  | (Some size, stream') =>
      if (N.of_nat (bytes_left stream') <? size)%N then (None, stream')
      else (Some {| istate := istate stream'; bytes_left := N.to_nat size |},
            {| istate := istate stream';
               bytes_left := bytes_left stream' - N.to_nat size |})
  end.

(** nanopb's [pb_close_string_substream], as the source describes the
    version it is built against: the parent takes over the read pointer
    of the substream, and nothing is checked. *)
Definition pb_close_string_substream (stream substream : pb_istream_t)
  : pb_istream_t :=
  {| istate := istate substream; bytes_left := bytes_left stream |}.

(** [pb_skip_varint]: reads bytes up to one without the top bit. *)
Fixpoint pb_skip_varint (n : nat) (stream : pb_istream_t) : bool * pb_istream_t :=
  match n with
  | O => (false, stream)
  | S n' =>
      match pb_readbyte stream with
      | (None, stream') => (false, stream')
      | (Some b, stream') =>
          if N.testbit (Byte.to_N b) 7 then pb_skip_varint n' stream'
          else (true, stream')
      end
  end.

Definition read_ok (r : option (list byte) * pb_istream_t) : bool * pb_istream_t :=
  match r with
  | (Some _, stream') => (true, stream')
  | (None, stream') => (false, stream')
  end.

(** [pb_skip_field]: passes over a field the message does not know. *)
Definition pb_skip_field (stream : pb_istream_t) (wt : pb_wire_type_t)
  : bool * pb_istream_t :=
  if (wt =? PB_WT_VARINT)%N then pb_skip_varint (S (bytes_left stream)) stream
  else if (wt =? PB_WT_64BIT)%N then read_ok (pb_read stream 8)
  else if (wt =? PB_WT_STRING)%N then
    match pb_decode_varint32 stream with
    | (None, stream') => (false, stream')
    | (Some len, stream') => read_ok (pb_read stream' (N.to_nat len))
    end
  else if (wt =? PB_WT_32BIT)%N then read_ok (pb_read stream 4)
  else (false, stream).

(** The field loop [while (stream->bytes_left)] of [pb_decode] at the
    descriptor of [google.protobuf.Timestamp]. *)
Fixpoint pb_decode_Timestamp_fields (n : nat) (stream : pb_istream_t)
  (dest : google_protobuf_Timestamp)
  : bool * google_protobuf_Timestamp * pb_istream_t :=
  if (bytes_left stream =? 0)%nat then (true, dest, stream)
  else
    match n with
    | O => (false, dest, stream)
    | S n' =>
        match pb_decode_tag stream with
        | ((false, _, eof), stream') => (eof, dest, stream')
        | ((true, tag, _), stream') =>
            if (field_number tag =? google_protobuf_Timestamp_seconds_tag)%N then
              match pb_decode_varint stream' with
              | (None, stream'') => (false, dest, stream'')
              | (Some value, stream'') =>
                  pb_decode_Timestamp_fields n' stream''
                    {| pb_seconds := to_int64 value; pb_nanos := pb_nanos dest |}
              end
            else if (field_number tag =? google_protobuf_Timestamp_nanos_tag)%N then
              match pb_decode_varint stream' with
              | (None, stream'') => (false, dest, stream'')
              | (Some value, stream'') =>
                  pb_decode_Timestamp_fields n' stream''
                    {| pb_seconds := pb_seconds dest;
                       pb_nanos := to_int32 (Z.of_N value) |}
              end
            else
              match pb_skip_field stream' (wire_type tag) with
              | (false, stream'') => (false, dest, stream'')
              | (true, stream'') => pb_decode_Timestamp_fields n' stream'' dest
              end
        end
    end.

(** Modelled from the spec: nanopb's [pb_decode] and the generated
    descriptor [google_protobuf_Timestamp_fields] are not among the
    sources.  Section 6: [Timestamp] is [int64 seconds = 1; int32 nanos = 2];
    the message is read as protobuf messages are: the fields come in any
    order up to the end of the region, a field that is absent keeps its
    zero, a field the message does not have is skipped. *)
Definition pb_decode_Timestamp (stream : pb_istream_t)
  : bool * google_protobuf_Timestamp * pb_istream_t :=
  pb_decode_Timestamp_fields (bytes_left stream) stream
    google_protobuf_Timestamp_init_zero.

(** ** [class Reader] *)

Module Reader.

Record t : Type := mk { status_ : Status; stream_ : pb_istream_t }.

Definition status (r : t) : Status := status_ r.

Definition set_status (s : Status) (r : t) : t :=
  {| status_ := s; stream_ := stream_ r |}.

Definition with_stream (r : t) (stream : pb_istream_t) : t :=
  {| status_ := status_ r; stream_ := stream |}.

Definition Wrap (bytes : list byte) : t :=
  {| status_ := OK; stream_ := pb_istream_from_buffer bytes |}.

Definition ReadTag (r : t) : Run (Tag * t) :=
  let tag := mkTag 0%N 0%N in
  if negb (ok (status_ r)) then Ret (tag, r)
  else
    match pb_decode_tag (stream_ r) with
    | ((false, tag, _), stream') =>
        Ret (tag, {| status_ := DataLoss; stream_ := stream' |})
    | ((true, tag, eof), stream') =>
        (* nanopb code always returns a false status when setting eof. *)
        _ <- FIREBASE_ASSERT (negb eof) ;;
        Ret (tag, with_stream r stream')
    end.

Definition ReadNanopbMessage (dest_struct : google_protobuf_Timestamp) (r : t)
  : Run (google_protobuf_Timestamp * t) :=
  if negb (ok (status_ r)) then Ret (dest_struct, r)
  else
    match pb_decode_Timestamp (stream_ r) with
    | ((false, dest, stream')) =>
        Ret (dest, {| status_ := DataLoss; stream_ := stream' |})
    | ((true, dest, stream')) => Ret (dest, with_stream r stream')
    end.

Definition ReadVarint (r : t) : Run (N * t) :=
  if negb (ok (status_ r)) then Ret (0%N, r)
  else
    match pb_decode_varint (stream_ r) with
    | (None, stream') => Ret (0%N, {| status_ := DataLoss; stream_ := stream' |})
    | (Some varint_value, stream') => Ret (varint_value, with_stream r stream')
    end.

Definition ReadNull (r : t) : Run t :=
  '(varint, r) <- ReadVarint r ;;
  if negb (ok (status_ r)) then Ret r
  else if negb (varint =? google_protobuf_NullValue_NULL_VALUE)%N
       then Ret (set_status DataLoss r)
       else Ret r.

Definition ReadBool (r : t) : Run (bool * t) :=
  '(varint, r) <- ReadVarint r ;;
  if negb (ok (status_ r)) then Ret (false, r)
  else if (varint =? 0)%N then Ret (false, r)
  else if (varint =? 1)%N then Ret (true, r)
  else Ret (false, set_status DataLoss r).

Definition ReadInteger (r : t) : Run (Z * t) :=
  '(varint, r) <- ReadVarint r ;;
  Ret (to_int64 varint, r).

Definition ReadString (r : t) : Run (list byte * t) :=
  if negb (ok (status_ r)) then Ret ([], r)
  else
    match pb_make_string_substream (stream_ r) with
    | (None, stream') => Ret ([], {| status_ := DataLoss; stream_ := stream' |})
    | (Some substream, stream') =>
        match pb_read substream (bytes_left substream) with
        | (None, substream') =>
            Ret ([], {| status_ := DataLoss;
                        stream_ := pb_close_string_substream stream' substream' |})
        | (Some result, substream') =>
            _ <- FIREBASE_ASSERT (bytes_left substream' =? 0)%nat ;;
            Ret (result, with_stream r (pb_close_string_substream stream' substream'))
        end
    end.

(** [default] is the [T()] that the template returns on failure.  When
    [pb_make_string_substream] fails, the substream that the source
    closes has no defined read pointer; the status is DATA_LOSS then and
    nothing is read any more, and the model leaves the pointer where the
    failed read stopped. *)
Definition ReadNestedMessage {T : Type} (default : T)
  (read_message_fn : t -> Run (T * t)) (r : t) : Run (T * t) :=
  if negb (ok (status_ r)) then Ret (default, r)
  else
    match pb_make_string_substream (stream_ r) with
    | (None, stream') =>
        Ret (default, {| status_ := DataLoss; stream_ := stream' |})
    | (Some raw_substream, stream') =>
        let substream := {| status_ := OK; stream_ := raw_substream |} in
        '(message, substream) <- read_message_fn substream ;;
        _ <- FIREBASE_ASSERT (bytes_left (stream_ substream) =? 0)%nat ;;
        Ret (message,
             {| status_ := status substream;
                stream_ := pb_close_string_substream stream' (stream_ substream) |})
    end.

Definition bytes_left (r : t) : nat := bytes_left (stream_ r).

End Reader.

(** ** Decoding a [FieldValue] *)

Section Decode.

(** Modelled from the spec: [TimestampInternal::Min().seconds()] and
    [TimestampInternal::Max().seconds()] come from [timestamp_internal.h],
    which is not among the sources; section 3 calls them [MIN_SECONDS] and
    [MAX_SECONDS] and leaves their values to the domain type. *)
Variable MIN_SECONDS MAX_SECONDS : Z.

(** [Timestamp()], returned as [{}] on the failure paths. *)
Definition Timestamp_default : Timestamp := {| seconds := 0; nanoseconds := 0 |}.

Definition DecodeTimestamp (reader : Reader.t) : Run (Timestamp * Reader.t) :=
  '(timestamp_proto, reader) <-
     Reader.ReadNanopbMessage google_protobuf_Timestamp_init_zero reader ;;
  if (pb_seconds timestamp_proto <? MIN_SECONDS)%Z then
    Ret (Timestamp_default, Reader.set_status DataLoss reader)
  else if (MAX_SECONDS <? pb_seconds timestamp_proto)%Z then
    Ret (Timestamp_default, Reader.set_status DataLoss reader)
  else if (pb_nanos timestamp_proto <? 0)%Z || (999999999 <? pb_nanos timestamp_proto)%Z then
    Ret (Timestamp_default, Reader.set_status DataLoss reader)
  else
    Ret ({| seconds := pb_seconds timestamp_proto;
            nanoseconds := pb_nanos timestamp_proto |}, reader).

(** [ObjectValue::Map::value_type{}] *)
Definition value_type_default : list byte * FieldValue := ([], NullValue).

Section DecodeObject.

(** The decoder of the values of the map, [DecodeFieldValueImpl] below. *)
Variable DecodeFieldValueImpl : Reader.t -> Run (FieldValue * Reader.t).

Definition DecodeFieldsEntry (reader : Reader.t)
  : Run ((list byte * FieldValue) * Reader.t) :=
  '(tag, reader) <- Reader.ReadTag reader ;;
  if negb (ok (Reader.status reader)) then Ret (value_type_default, reader)
  else
    _ <- FIREBASE_ASSERT
           (field_number tag =? google_firestore_v1beta1_MapValue_FieldsEntry_key_tag)%N ;;
    _ <- FIREBASE_ASSERT (wire_type tag =? PB_WT_STRING)%N ;;
    '(key, reader) <- Reader.ReadString reader ;;
    '(tag, reader) <- Reader.ReadTag reader ;;
    if negb (ok (Reader.status reader)) then Ret (value_type_default, reader)
    else
      _ <- FIREBASE_ASSERT
             (field_number tag =? google_firestore_v1beta1_MapValue_FieldsEntry_value_tag)%N ;;
      _ <- FIREBASE_ASSERT (wire_type tag =? PB_WT_STRING)%N ;;
      '(value, reader) <-
         Reader.ReadNestedMessage NullValue DecodeFieldValueImpl reader ;;
      Ret ((key, value), reader).

(** The loop [while (reader->bytes_left())]; every round that goes on
    consumes at least the byte of its tag, so [n] rounds suffice for [n]
    bytes. *)
Fixpoint DecodeObject_loop (n : nat) (reader : Reader.t) (result : ObjectValue_Map)
  : Run (ObjectValue_Map * Reader.t) :=
  if (Reader.bytes_left reader =? 0)%nat then Ret (result, reader)
  else
    match n with
    | O => OutOfFuel
    | S n' =>
        '(tag, reader) <- Reader.ReadTag reader ;;
        if negb (ok (Reader.status reader)) then Ret (result, reader)
        else
          _ <- FIREBASE_ASSERT
                 (field_number tag =? google_firestore_v1beta1_MapValue_fields_tag)%N ;;
          _ <- FIREBASE_ASSERT (wire_type tag =? PB_WT_STRING)%N ;;
          '(fv, reader) <-
             Reader.ReadNestedMessage value_type_default DecodeFieldsEntry reader ;;
          (* Sanity check: ensure that this key doesn't already exist in the map. *)
          if negb (ok (Reader.status reader)) then Ret (result, reader)
          else
            _ <- FIREBASE_ASSERT (negb (Map_contains (fst fv) result)) ;;
            (* Add this key,fieldvalue to the results map. *)
            DecodeObject_loop n' reader (Map_emplace fv result)
    end.

Definition DecodeObject (reader : Reader.t) : Run (ObjectValue_Map * Reader.t) :=
  if negb (ok (Reader.status reader)) then Ret ([], reader)
  else
    Reader.ReadNestedMessage []
      (fun reader =>
         if negb (ok (Reader.status reader)) then Ret ([], reader)
         else DecodeObject_loop (Reader.bytes_left reader) reader [])
      reader.

End DecodeObject.

Definition is_varint_field (n : N) : bool :=
  (n =? google_firestore_v1beta1_Value_null_value_tag)%N
  || (n =? google_firestore_v1beta1_Value_boolean_value_tag)%N
  || (n =? google_firestore_v1beta1_Value_integer_value_tag)%N.

Definition is_string_field (n : N) : bool :=
  (n =? google_firestore_v1beta1_Value_string_value_tag)%N
  || (n =? google_firestore_v1beta1_Value_timestamp_value_tag)%N
  || (n =? google_firestore_v1beta1_Value_map_value_tag)%N.

(** The first [switch (tag.field_number)] of [DecodeFieldValueImpl]:
    ensure the tag matches the wire type. *)
Definition check_wire_type (tag : Tag) (reader : Reader.t) : Run Reader.t :=
  if is_varint_field (field_number tag) then
    if negb (wire_type tag =? PB_WT_VARINT)%N
    then Ret (Reader.set_status DataLoss reader)
    else Ret reader
  else if is_string_field (field_number tag) then
    if negb (wire_type tag =? PB_WT_STRING)%N
    then Ret (Reader.set_status DataLoss reader)
    else Ret reader
  else
    (* FIREBASE_ASSERT_MESSAGE(false, "Unhandled message field number ...") *)
    _ <- FIREBASE_ASSERT false ;;
    Ret (Reader.set_status DataLoss reader).

(** [fuel] bounds the depth of the maps; a map value lies in a region
    that is shorter than the input by its own tag, so the length of the
    input is enough. *)
Fixpoint DecodeFieldValueImpl (fuel : nat) (reader : Reader.t)
  : Run (FieldValue * Reader.t) :=
  match fuel with
  | O => OutOfFuel
  | S fuel' =>
      '(tag, reader) <- Reader.ReadTag reader ;;
      if negb (ok (Reader.status reader)) then Ret (NullValue, reader)
      else
        reader <- check_wire_type tag reader ;;
        if negb (ok (Reader.status reader)) then Ret (NullValue, reader)
        else if (field_number tag =? google_firestore_v1beta1_Value_null_value_tag)%N then
          reader <- Reader.ReadNull reader ;;
          Ret (NullValue, reader)
        else if (field_number tag =? google_firestore_v1beta1_Value_boolean_value_tag)%N then
          '(b, reader) <- Reader.ReadBool reader ;;
          Ret (BooleanValue b, reader)
        else if (field_number tag =? google_firestore_v1beta1_Value_integer_value_tag)%N then
          '(i, reader) <- Reader.ReadInteger reader ;;
          Ret (IntegerValue i, reader)
        else if (field_number tag =? google_firestore_v1beta1_Value_string_value_tag)%N then
          '(s, reader) <- Reader.ReadString reader ;;
          Ret (StringValue s, reader)
        else if (field_number tag =? google_firestore_v1beta1_Value_timestamp_value_tag)%N then
          '(t, reader) <-
             Reader.ReadNestedMessage Timestamp_default DecodeTimestamp reader ;;
          Ret (TimestampValue t, reader)
        else if (field_number tag =? google_firestore_v1beta1_Value_map_value_tag)%N then
          '(m, reader) <- DecodeObject (DecodeFieldValueImpl fuel') reader ;;
          Ret (ObjectValueFromMap m, reader)
        else
          (* FIREBASE_ASSERT_MESSAGE(false, "Somehow got an unexpected field number ...") *)
          Abort
  end.

(** [Serializer::DecodeFieldValue] *)
Definition Serializer_DecodeFieldValue (bytes : list byte)
  : Run (StatusOr FieldValue) :=
  let reader := Reader.Wrap bytes in
  '(fv, reader) <- DecodeFieldValueImpl (S (length bytes)) reader ;;
  if ok (Reader.status reader) then Ret (ValueOf fv)
  else Ret (StatusOf (Reader.status reader)).

(** ** Values that respect the invariants of their types *)

Definition in_int64b (z : Z) : bool :=
  (- 9223372036854775808 <=? z)%Z && (z <? 9223372036854775808)%Z.

(** What the constructor of [Timestamp] asserts. *)
Definition Timestamp_valid (t : Timestamp) : bool :=
  in_int64b (seconds t)
  && (MIN_SECONDS <=? seconds t)%Z && (seconds t <=? MAX_SECONDS)%Z
  && (0 <=? nanoseconds t)%Z && (nanoseconds t <=? 999999999)%Z.

(** The keys of a [std::map] are strictly increasing. *)
Fixpoint sorted_keys (m : ObjectValue_Map) : bool :=
  match m with
  | [] => true
  | kv :: m' => forallb (fun kv' => string_lt (fst kv) (fst kv')) m' && sorted_keys m'
  end.

(** A value of a supported variant, all the way down, whose integers are
    [int64_t]s, whose timestamps are in range and whose maps are
    [std::map]s. *)
Fixpoint FieldValue_valid (v : FieldValue) : bool :=
  match v with
  | NullValue => true
  | BooleanValue _ => true
  | IntegerValue i => in_int64b i
  | StringValue _ => true
  | TimestampValue t => Timestamp_valid t
  | ObjectValueFromMap m =>
      sorted_keys m
      && forallb (fun kv : list byte * FieldValue =>
                    let (_, v') := kv in FieldValue_valid v') m
  | UnimplementedValue => false
  end.

(** The values of a map are valid. *)
Definition values_valid (m : ObjectValue_Map) : bool :=
  forallb (fun kv : list byte * FieldValue =>
             let (_, v') := kv in FieldValue_valid v') m.

(** [dec] only returns valid values with an OK status. *)
Definition yields_valid (dec : Reader.t -> Run (FieldValue * Reader.t)) : Prop :=
  forall r v r', dec r = Ret (v, r') -> ok (Reader.status r') = true ->
    FieldValue_valid v = true.

End Decode.

(** ** The wire format, as the specification words it *)

(** Section 4.2: a tag is [(field_number << 3) | wire_type], written as a
    varint. *)
Definition tag_bytes (wt : pb_wire_type_t) (number : N) : list byte :=
  varint_bytes (N.lor (N.shiftl number 3) wt).

(** Section 4.2: a string or submessage is a varint length prefix
    followed by that many payload bytes. *)
Definition length_delimited (payload : list byte) : list byte :=
  varint_bytes (N.of_nat (length payload)) ++ payload.

(** Section 6: [Timestamp] is [int64 seconds = 1; int32 nanos = 2]. *)
Definition Timestamp_wire (t : Timestamp) : list byte :=
  tag_bytes PB_WT_VARINT 1 ++ varint_bytes (to_uint64 (seconds t))
  ++ tag_bytes PB_WT_VARINT 2 ++ varint_bytes (to_uint64 (nanoseconds t)).

(** Section 4.5: one [fields] entry of a [MapValue], a [FieldsEntry] with
    the key in field 1 and the value in field 2. *)
Definition FieldsEntry_wire (key value_wire : list byte) : list byte :=
  tag_bytes PB_WT_STRING 1
  ++ length_delimited
       (tag_bytes PB_WT_STRING 1 ++ length_delimited key
        ++ tag_bytes PB_WT_STRING 2 ++ length_delimited value_wire).

(** Sections 3 and 4.5: the bytes of a [FieldValue]. *)
Fixpoint FieldValue_wire (v : FieldValue) : list byte :=
  match v with
  | NullValue => tag_bytes PB_WT_VARINT 11 ++ varint_bytes 0
  | BooleanValue b => tag_bytes PB_WT_VARINT 1 ++ varint_bytes (if b then 1 else 0)
  | IntegerValue i => tag_bytes PB_WT_VARINT 2 ++ varint_bytes (to_uint64 i)
  | StringValue s => tag_bytes PB_WT_STRING 17 ++ length_delimited s
  | TimestampValue t =>
      tag_bytes PB_WT_STRING 10 ++ length_delimited (Timestamp_wire t)
  | ObjectValueFromMap m =>
      tag_bytes PB_WT_STRING 6
      ++ length_delimited
           (flat_map (fun kv : list byte * FieldValue =>
                        let (k, v') := kv in
                        FieldsEntry_wire k (FieldValue_wire v')) m)
  | UnimplementedValue => []
  end.

Definition MapValue_wire (m : ObjectValue_Map) : list byte :=
  flat_map (fun kv => FieldsEntry_wire (fst kv) (FieldValue_wire (snd kv))) m.

(** ** The key codec *)

(** A [std::string] from a literal. *)
Definition str (s : String.string) : list byte := String.list_byte_of_string s.
Arguments str s%_string.

Definition string_eqb (a b : list byte) : bool :=
  if list_eq_dec Byte.byte_eq_dec a b then true else false.

(** Modelled from the spec: [model::DatabaseId] is not among the
    sources.  Section 3: [(project_id, database_id)]. *)
Record DatabaseId : Type := mkDatabaseId {
  project_id : list byte;
  database_id : list byte
}.

(** Modelled from the spec: [model::ResourcePath] is declared in
    [resource_path.h], which is not among the sources.  Section 3: an
    ordered sequence of non-empty path segments. *)
Definition ResourcePath : Type := list (list byte).

(** Modelled from the spec: [model::DocumentKey] is not among the
    sources.  Section 3: it wraps a [ResourcePath]. *)
Record DocumentKey : Type := mkDocumentKey { path : ResourcePath }.

(** Modelled from the spec: [ResourcePath::CanonicalString] is not among
    the sources.  Sections 3 and 4.6: the canonical form is the segments
    joined by [/]. *)
Fixpoint CanonicalString (p : ResourcePath) : list byte :=
  match p with
  | [] => []
  | [segment] => segment
  | segment :: rest => segment ++ "/"%byte :: CanonicalString rest
  end.

(** Ends the segment collected (in reverse) in [current]; an empty one is
    no segment. *)
Definition close_segment (current : list byte) (rest : ResourcePath) : ResourcePath :=
  match current with
  | [] => rest
  | _ :: _ => rev current :: rest
  end.

Fixpoint split_segments (current : list byte) (s : list byte) : ResourcePath :=
  match s with
  | [] => close_segment current []
  | c :: s' =>
      if Byte.eqb c "/"%byte then close_segment current (split_segments [] s')
      else split_segments (c :: current) s'
  end.

(** Modelled from the spec: [ResourcePath::FromString] is not among the
    sources.  Section 4.6 step 1: the string is parsed to a
    [ResourcePath]; with section 3 that is the sequence of the non-empty
    segments between the [/]. *)
Definition FromString (s : list byte) : ResourcePath := split_segments [] s.

(** [ResourcePath::operator[]], used where the size has been checked. *)
Definition segment_at (p : ResourcePath) (i : nat) : list byte := nth i p (@nil byte).

(** [ResourcePath::PopFirst(n)] *)
Definition PopFirst (n : nat) (p : ResourcePath) : ResourcePath := skipn n p.

Definition EncodeDatabaseId (id : DatabaseId) : ResourcePath :=
  [str "projects"; project_id id; str "databases"; database_id id].

Definition EncodeResourceName (id : DatabaseId) (path : ResourcePath)
  : list byte :=
  CanonicalString ((EncodeDatabaseId id ++ [str "documents"]) ++ path).

Definition IsValidResourceName (path : ResourcePath) : bool :=
  (4 <=? length path)%nat
  && string_eqb (segment_at path 0) (str "projects")
  && string_eqb (segment_at path 2) (str "databases").

Definition DecodeResourceName (encoded : list byte) : Run ResourcePath :=
  let resource := FromString encoded in
  _ <- FIREBASE_ASSERT (IsValidResourceName resource) ;;
  Ret resource.

Definition ExtractLocalPathFromResourceName (resource_name : ResourcePath)
  : Run ResourcePath :=
  _ <- FIREBASE_ASSERT
         ((4 <? length resource_name)%nat
          && string_eqb (segment_at resource_name 4) (str "documents")) ;;
  Ret (PopFirst 5 resource_name).

(** [Serializer::EncodeKey]; [database_id_] is the member of the
    [Serializer]. *)
Definition Serializer_EncodeKey (database_id_ : DatabaseId) (key : DocumentKey)
  : list byte :=
  EncodeResourceName database_id_ (path key).

(** [Serializer::DecodeKey] *)
Definition Serializer_DecodeKey (database_id_ : DatabaseId) (name : list byte)
  : Run DocumentKey :=
  resource <- DecodeResourceName name ;;
  _ <- FIREBASE_ASSERT (string_eqb (segment_at resource 1) (project_id database_id_)) ;;
  _ <- FIREBASE_ASSERT (string_eqb (segment_at resource 3) (database_id database_id_)) ;;
  local_path <- ExtractLocalPathFromResourceName resource ;;
  Ret {| path := local_path |}.

(** A segment that the canonical form can carry as it is: not empty, and
    without a [/]. *)
Definition segment_ok (segment : list byte) : bool :=
  negb (string_eqb segment [])
  && forallb (fun c => negb (Byte.eqb c "/"%byte)) segment.

(** ** Auxiliary definitions of the proofs *)

(** Unsigned LEB128, seven bits at a time: [varint_bytes] without the
    buffer. *)
Fixpoint leb128 (n : nat) (v : N) : list byte :=
  match n with
  | O => []
  | S n' =>
      if (v <=? 127)%N then [to_byte v]
      else to_byte (N.lor (N.land v 127) 128) :: leb128 n' (N.shiftr v 7)
  end.

(** *** What a writer function emits *)

Definition advance_stream (stream : pb_ostream_t) (bs : list byte) : pb_ostream_t :=
  {| callback := callback stream;
     state := if callback stream then state stream ++ bs else state stream;
     max_size := max_size stream;
     bytes_written := (bytes_written stream + N.of_nat (length bs))%N |}.

Definition fits_stream (stream : pb_ostream_t) (bs : list byte) : bool :=
  negb (callback stream)
  || (bytes_written stream + N.of_nat (length bs) <=? max_size stream)%N.

Definition advance (w : Writer.t) (bs : list byte) : Writer.t :=
  {| Writer.status_ := Writer.status_ w;
     Writer.stream_ := advance_stream (Writer.stream_ w) bs |}.

Definition fits (w : Writer.t) (bs : list byte) : bool :=
  fits_stream (Writer.stream_ w) bs.

(** [g] appends [bs], and fails exactly when they do not fit. *)
Definition pb_emits (g : pb_ostream_t -> bool * pb_ostream_t) (bs : list byte) : Prop :=
  forall stream,
    if fits_stream stream bs then g stream = (true, advance_stream stream bs)
    else fst (g stream) = false.

(** [f] appends [bs] to a writer whose status is OK, and aborts exactly
    when they do not fit. *)
Definition emits (f : Writer.t -> Run Writer.t) (bs : list byte) : Prop :=
  forall w, Writer.status_ w = OK -> fits w [] = true ->
    f w = if fits w bs then Ret (advance w bs) else Abort.

(** A value built from the variants that [EncodeFieldValueImpl] has a
    case for. *)
Fixpoint FieldValue_supported (v : FieldValue) : bool :=
  match v with
  | ObjectValueFromMap m =>
      forallb (fun kv : list byte * FieldValue =>
                 let (_, v') := kv in FieldValue_supported v') m
  | UnimplementedValue => false
  | _ => true
  end.

(** *** What a reader function parses *)

(** A reader with status OK in front of [bs ++ rest] that may consume
    [bl] bytes. *)
Definition reader_at (bs : list byte) (bl : nat) : Reader.t :=
  {| Reader.status_ := OK;
     Reader.stream_ := {| istate := bs; bytes_left := bl |} |}.

(** [f] consumes [bs], whatever follows, and returns [x] with status OK. *)
Definition parses {T : Type} (f : Reader.t -> Run (T * Reader.t))
  (bs : list byte) (x : T) : Prop :=
  forall rest bl, (length bs <= bl)%nat ->
    f (reader_at (bs ++ rest) bl) = Ret (x, reader_at rest (bl - length bs)).

(** [f] consumes the region [bs] to its end and returns [x] with status
    OK. *)
Definition parses_region {T : Type} (f : Reader.t -> Run (T * Reader.t))
  (bs : list byte) (x : T) : Prop :=
  forall rest,
    f (reader_at (bs ++ rest) (length bs)) = Ret (x, reader_at rest 0).

(** Section 3: the wire type that the table assigns to a field number. *)
Definition expected_wire_type (number : N) : option pb_wire_type_t :=
  if (number =? 11)%N || (number =? 1)%N || (number =? 2)%N then Some PB_WT_VARINT
  else if (number =? 17)%N || (number =? 10)%N || (number =? 6)%N then Some PB_WT_STRING
  else None.

(** *** What the encoder does to the status of a writer *)

(** [f] returns or aborts, and leaves the status of a writer OK when it
    was. *)
Definition keeps_OK (f : Writer.t -> Run Writer.t) : Prop :=
  forall w, Writer.status_ w = OK ->
    match f w with
    | Ret w' => Writer.status_ w' = OK
    | Abort => True
    | OutOfFuel => False
    end.

(** *** What a reader function gives up on *)

(** The call returns with the status DATA_LOSS. *)
Definition data_loss {T : Type} (c : Run (T * Reader.t)) : Prop :=
  exists x r, c = Ret (x, r) /\ Reader.status r = DataLoss.

(** What [ReadNestedMessage] leaves in the parent after the substream
    [sub]: [status_ = substream.status()], the read pointer that
    [pb_close_string_substream] takes over, and the [left] bytes of the
    parent behind the region. *)
Definition close_region (sub : Reader.t) (left : nat) : Reader.t :=
  {| Reader.status_ := Reader.status sub;
     Reader.stream_ := {| istate := istate (Reader.stream_ sub);
                          bytes_left := left |} |}.

(** ** Inputs of the examples *)

(** Section 8, "flipping any single byte": [b'] is [b] with exactly one
    byte changed. *)
Fixpoint single_byte_corruption (b b' : list byte) : bool :=
  match b, b' with
  | x :: t, y :: t' =>
      if Byte.eqb x y then single_byte_corruption t t' else string_eqb t t'
  | _, _ => false
  end.

(** The range of [Timestamp] in the examples: section 3 has the years
    0001 to 9999, from 0001-01-01T00:00:00Z to 9999-12-31T23:59:59Z. *)
Definition example_MIN_SECONDS : Z := -62135596800.
Definition example_MAX_SECONDS : Z := 253402300799.

(** The decoder of a [Serializer] at that range. *)
Definition example_decode : list byte -> Run (StatusOr FieldValue) :=
  Serializer_DecodeFieldValue example_MIN_SECONDS example_MAX_SECONDS.

(** [{a: true}] *)
Definition example_object : FieldValue :=
  ObjectValueFromMap [(str "a", BooleanValue true)].

(** [{a: true, m: {i: -1, n: null, s: "hi", t: Timestamp(1, 2)}}] *)
Definition example_nested : FieldValue :=
  ObjectValueFromMap
    [(str "a", BooleanValue true);
     (str "m", ObjectValueFromMap
                 [(str "i", IntegerValue (-1));
                  (str "n", NullValue);
                  (str "s", StringValue (str "hi"));
                  (str "t", TimestampValue {| seconds := 1; nanoseconds := 2 |})])].

(** [{b: null, a: true}], the entries in the order of the wire. *)
Definition example_unordered : list (list byte * FieldValue) :=
  [(str "b", NullValue); (str "a", BooleanValue true)].

(** * Properties *)

(** ** Bytes and bit arithmetic *)

Lemma to_N_to_byte (n : N) : Byte.to_N (to_byte n) = (n mod 256)%N.
Proof.
  unfold to_byte. destruct (Byte.of_N (n mod 256)) eqn:E.
  - apply Byte.to_of_N; exact E.
  - apply Byte.of_N_None_iff in E.
    pose proof (N.mod_upper_bound n 256). lia.
Qed.

Lemma to_byte_to_N (b : byte) : to_byte (Byte.to_N b) = b.
Proof.
  unfold to_byte. pose proof (Byte.to_N_bounded b).
  rewrite N.mod_small by lia. now rewrite Byte.of_to_N.
Qed.

Lemma land_low_high (a b k : N) : (a < 2 ^ k)%N -> N.land a (b * 2 ^ k) = 0%N.
Proof.
  intros Ha. apply N.bits_inj; intro i.
  rewrite N.land_spec, N.bits_0.
  destruct (N.lt_ge_cases i k) as [Hi | Hi].
  - rewrite N.mul_pow2_bits_low by exact Hi. apply andb_false_r.
  - rewrite <- (N.mod_small a (2 ^ k)) by exact Ha.
    now rewrite N.mod_pow2_bits_high.
Qed.

Lemma lor_low_high (a b k : N) :
  (a < 2 ^ k)%N -> N.lor a (b * 2 ^ k) = (a + b * 2 ^ k)%N.
Proof.
  intros Ha. pose proof (land_low_high a b k Ha) as H.
  now rewrite N.add_nocarry_lxor, N.lxor_lor.
Qed.

(** The low seven bits with the continuation bit, as a byte. *)
Lemma continuation_byte (v : N) :
  Byte.to_N (to_byte (N.lor (N.land v 127) 128)) = (v mod 128 + 128)%N.
Proof.
  rewrite to_N_to_byte.
  change 127%N with (N.ones 7). rewrite N.land_ones.
  change 128%N with (1 * 2 ^ 7)%N at 1.
  pose proof (N.mod_upper_bound v (2 ^ 7)) as H.
  rewrite lor_low_high by (apply H; discriminate).
  change (2 ^ 7)%N with 128%N in *. 
  apply N.mod_small. assert (v mod 128 < 128)%N by (apply H; discriminate). lia.
Qed.

Lemma low7_of_continuation (v : N) :
  N.land (v mod 128 + 128) 127 = (v mod 128)%N.
Proof.
  change 127%N with (N.ones 7). rewrite N.land_ones.
  change (2 ^ 7)%N with 128%N.
  replace (v mod 128 + 128)%N with (v mod 128 + 1 * 128)%N by lia.
  rewrite N.Div0.mod_add. apply N.Div0.mod_mod.
Qed.

Lemma testbit7_of_continuation (v : N) : N.testbit (v mod 128 + 128) 7 = true.
Proof.
  apply N.testbit_true. change (2 ^ 7)%N with 128%N.
  replace (v mod 128 + 128)%N with (v mod 128 + 1 * 128)%N by lia.
  rewrite N.div_add by discriminate.
  rewrite N.div_small; [reflexivity|].
  apply N.mod_upper_bound; discriminate.
Qed.

Lemma low7_small (v : N) : (v <= 127)%N -> N.land v 127 = v.
Proof.
  intros. change 127%N with (N.ones 7). rewrite N.land_ones.
  apply N.mod_small. change (2 ^ 7)%N with 128%N. lia.
Qed.

Lemma testbit7_small (v : N) : (v <= 127)%N -> N.testbit v 7 = false.
Proof.
  intros. apply N.testbit_false. change (2 ^ 7)%N with 128%N.
  rewrite N.div_small by lia. reflexivity.
Qed.

Lemma shiftr7 (v : N) : N.shiftr v 7 = (v / 128)%N.
Proof. now rewrite N.shiftr_div_pow2. Qed.

(** ** Varints *)


Lemma varint_buffer_0 (n : nat) : varint_buffer n 0 = [].
Proof. destruct n; reflexivity. Qed.

Lemma varint_buffer_leb128 (n : nat) : forall v : N,
  v <> 0%N -> (v < 2 ^ (7 * N.of_nat n))%N ->
  unset_top_bit_of_last (varint_buffer n v) = leb128 n v.
Proof.
  induction n as [|n IH]; intros v Hv Hlt.
  - change (2 ^ (7 * N.of_nat 0))%N with 1%N in Hlt. lia.
  - cbn [varint_buffer leb128].
    destruct (N.eqb_spec v 0) as [|_]; [contradiction|].
    destruct (N.leb_spec v 127) as [Hle | Hgt].
    + rewrite shiftr7, N.div_small, varint_buffer_0 by lia.
      cbn [unset_top_bit_of_last]. rewrite continuation_byte.
      rewrite low7_of_continuation, N.mod_small by lia. reflexivity.
    + assert (Hq : (N.shiftr v 7 <> 0)%N).
      { rewrite shiftr7. intro E. apply N.div_small_iff in E; lia. }
      assert (Hqlt : (N.shiftr v 7 < 2 ^ (7 * N.of_nat n))%N).
      { rewrite shiftr7. apply N.Div0.div_lt_upper_bound.
        replace (7 * N.of_nat (S n))%N with (7 + 7 * N.of_nat n)%N in Hlt by lia.
        rewrite N.pow_add_r in Hlt. exact Hlt. }
      rewrite <- (IH _ Hq Hqlt).
      destruct n as [|n]; [change (2 ^ (7 * N.of_nat 0))%N with 1%N in Hqlt; lia|].
      cbn [varint_buffer].
      destruct (N.eqb_spec (N.shiftr v 7) 0) as [|_]; [contradiction|].
      reflexivity.
Qed.

Lemma varint_bytes_leb128 (v : N) :
  (v < 2 ^ 64)%N -> varint_bytes v = leb128 10 v.
Proof.
  intros Hv. unfold varint_bytes.
  destruct (N.leb_spec v 127) as [Hle | Hgt].
  - cbn [leb128]. destruct (N.leb_spec v 127); [reflexivity | lia].
  - apply varint_buffer_leb128; [lia|].
    eapply N.lt_trans; [exact Hv|]. reflexivity.
Qed.

Lemma leb128_length (n : nat) : forall v, (length (leb128 n v) <= n)%nat.
Proof.
  induction n as [|n IH]; intros v; cbn [leb128]; [auto|].
  destruct (v <=? 127)%N; cbn [length]; [lia|]. specialize (IH (N.shiftr v 7)). lia.
Qed.

Lemma leb128_nonempty (n : nat) (v : N) : (0 < n)%nat -> leb128 n v <> [].
Proof. destruct n; [lia|]. cbn [leb128]. destruct (v <=? 127)%N; discriminate. Qed.

(** A value of more than [7 * k] bits takes more than [k] bytes. *)
Lemma leb128_long (n : nat) : forall (v : N) (k : nat),
  (2 ^ (7 * N.of_nat k) <= v)%N -> (k < n)%nat ->
  (k < length (leb128 n v))%nat.
Proof.
  induction n as [|n IH]; intros v k Hv Hk; [lia|].
  cbn [leb128]. destruct (N.leb_spec v 127) as [Hsmall|Hbig].
  - destruct k as [|k]; [cbn [length]; lia|].
    exfalso.
    assert (2 ^ 7 <= 2 ^ (7 * N.of_nat (S k)))%N
      by (apply N.pow_le_mono_r; lia).
    change (2 ^ 7)%N with 128%N in *. lia.
  - cbn [length]. destruct k as [|k]; [lia|].
    apply -> Nat.succ_lt_mono. apply IH; [|lia].
    rewrite shiftr7.
    replace (7 * N.of_nat (S k))%N with (7 * N.of_nat k + 7)%N in Hv by lia.
    rewrite N.pow_add_r in Hv. change (2 ^ 7)%N with 128%N in Hv.
    apply N.div_le_lower_bound; lia.
Qed.

Lemma pb_readbyte_cons (b : byte) (rest : list byte) (bl : nat) :
  pb_readbyte {| istate := b :: rest; bytes_left := S bl |}
  = (Some b, {| istate := rest; bytes_left := bl |}).
Proof. reflexivity. Qed.

Lemma decode_leb128 (width : N) (n : nat) :
  forall (v : N) (m : nat) (bitpos result : N) (rest : list byte) (bl : nat),
  (v < 2 ^ (7 * N.of_nat n))%N -> (0 < n)%nat -> (n <= m)%nat ->
  (bitpos < width)%N -> (v * 2 ^ bitpos < 2 ^ width)%N ->
  (result < 2 ^ bitpos)%N ->
  (length (leb128 n v) <= bl)%nat ->
  pb_decode_varint_loop width m bitpos result
    {| istate := leb128 n v ++ rest; bytes_left := bl |}
  = (Some (result + v * 2 ^ bitpos)%N,
     {| istate := rest; bytes_left := bl - length (leb128 n v) |}).
Proof.
  induction n as [|n IH]; intros v m bitpos result rest bl Hv Hn Hm Hpos Hfit Hres Hbl;
    [lia|].
  destruct m as [|m]; [lia|].
  cbn [leb128 pb_decode_varint_loop] in *.
  destruct (N.leb_spec width bitpos) as [|_]; [lia|].
  destruct (N.leb_spec v 127) as [Hle | Hgt].
  - cbn [length app] in *. destruct bl as [|bl]; [lia|].
    rewrite pb_readbyte_cons, to_N_to_byte, N.mod_small by lia.
    rewrite low7_small, testbit7_small by lia.
    rewrite N.shiftl_mul_pow2, (N.mod_small _ _ Hfit), lor_low_high by exact Hres.
    repeat f_equal. lia.
  - cbn [length app] in *. destruct bl as [|bl]; [lia|].
    rewrite pb_readbyte_cons, continuation_byte.
    rewrite low7_of_continuation, testbit7_of_continuation.
    rewrite N.shiftl_mul_pow2, shiftr7 in *.
    pose proof (N.div_mod v 128 ltac:(discriminate)) as Hdm.
    pose proof (N.mod_upper_bound v 128 ltac:(discriminate)) as Hr.
    set (q := (v / 128)%N) in *. set (r := (v mod 128)%N) in *.
    assert (Hq : (1 <= q)%N) by lia.
    assert (Hp7 : (2 ^ (bitpos + 7) = 2 ^ bitpos * 128)%N)
      by (rewrite N.pow_add_r; reflexivity).
    set (P := (2 ^ bitpos)%N) in *.
    assert (HP : (0 < P)%N) by lia.
    assert (Hchunk : (r * P < 2 ^ width)%N) by nia.
    subst P. rewrite (N.mod_small _ _ Hchunk), lor_low_high by exact Hres.
    set (P := (2 ^ bitpos)%N) in *.
    assert (Hpos' : (bitpos + 7 < width)%N).
    { apply (N.pow_lt_mono_r_iff 2); [lia|]. rewrite Hp7. nia. }
    assert (Hn' : (0 < n)%nat).
    { destruct n; [|lia]. change (2 ^ (7 * N.of_nat 0))%N with 1%N in *.
      assert (q < 1)%N; [|lia].
      apply N.Div0.div_lt_upper_bound. 
      eapply N.lt_le_trans; [exact Hv|]. cbn. lia. }
    assert (Hqlt : (q < 2 ^ (7 * N.of_nat n))%N).
    { apply N.Div0.div_lt_upper_bound.
      replace (7 * N.of_nat (S n))%N with (7 + 7 * N.of_nat n)%N in Hv by lia.
      rewrite N.pow_add_r in Hv. exact Hv. }
    rewrite IH; try assumption; try lia.
    all: try (rewrite Hp7; nia).
    rewrite Hp7.
    replace (result + r * P + q * (P * 128))%N with (result + v * P)%N by nia.
    reflexivity.
Qed.

Lemma leb128_fuel (n : nat) : forall (m : nat) (v : N),
  (v < 2 ^ (7 * N.of_nat n))%N -> (0 < n <= m)%nat -> leb128 m v = leb128 n v.
Proof.
  induction n as [|n IH]; intros m v Hv Hm; [lia|].
  destruct m as [|m]; [lia|]. cbn [leb128].
  destruct (N.leb_spec v 127) as [Hle | Hgt]; [reflexivity|].
  f_equal. rewrite shiftr7.
  replace (7 * N.of_nat (S n))%N with (7 + 7 * N.of_nat n)%N in Hv by lia.
  rewrite N.pow_add_r in Hv.
  assert (Hq : (v / 128 < 2 ^ (7 * N.of_nat n))%N)
    by (apply N.Div0.div_lt_upper_bound; exact Hv).
  apply IH; [exact Hq|].
  destruct n; [|lia]. change (2 ^ (7 * N.of_nat 0))%N with 1%N in *.
  change (2 ^ 7)%N with 128%N in Hv. lia.
Qed.

Lemma decode_varint_bytes (v : N) (rest : list byte) (bl : nat) :
  (v < 2 ^ 64)%N -> (length (varint_bytes v) <= bl)%nat ->
  pb_decode_varint {| istate := varint_bytes v ++ rest; bytes_left := bl |}
  = (Some v, {| istate := rest; bytes_left := bl - length (varint_bytes v) |}).
Proof.
  intros Hv Hbl. rewrite varint_bytes_leb128 in * by exact Hv.
  unfold pb_decode_varint.
  rewrite decode_leb128; rewrite ?N.pow_0_r, ?N.mul_1_r; try lia.
  all: try reflexivity.
  all: try (eapply N.lt_trans; [exact Hv | reflexivity]).
Qed.

Lemma decode_varint32_bytes (v : N) (rest : list byte) (bl : nat) :
  (v < 2 ^ 32)%N -> (length (varint_bytes v) <= bl)%nat ->
  pb_decode_varint32 {| istate := varint_bytes v ++ rest; bytes_left := bl |}
  = (Some v, {| istate := rest; bytes_left := bl - length (varint_bytes v) |}).
Proof.
  intros Hv Hbl.
  assert (H35 : (v < 2 ^ (7 * N.of_nat 5))%N)
    by (eapply N.lt_trans; [exact Hv | reflexivity]).
  assert (H64 : (v < 2 ^ 64)%N)
    by (eapply N.lt_trans; [exact Hv | reflexivity]).
  rewrite (varint_bytes_leb128 v H64), (leb128_fuel 5 10 v H35) in * by lia.
  unfold pb_decode_varint32.
  rewrite decode_leb128; rewrite ?N.pow_0_r, ?N.mul_1_r; try lia.
  all: try reflexivity.
Qed.

Lemma varint_bytes_length (v : N) :
  (v < 2 ^ 64)%N -> (1 <= length (varint_bytes v) <= 10)%nat.
Proof.
  intros Hv. rewrite (varint_bytes_leb128 v Hv). split.
  - pose proof (leb128_nonempty 10 v ltac:(lia)).
    destruct (leb128 10 v); [contradiction | cbn; lia].
  - apply leb128_length.
Qed.

(** ** What a writer function emits *)


Lemma fits_advance (w : Writer.t) (bs : list byte) :
  fits w bs = true -> fits (advance w bs) [] = true.
Proof.
  unfold fits, fits_stream, advance, advance_stream; cbn.
  now rewrite N.add_0_r.
Qed.

Lemma advance_stream_app (stream : pb_ostream_t) (a b : list byte) :
  advance_stream (advance_stream stream a) b = advance_stream stream (a ++ b).
Proof.
  unfold advance_stream; cbn. destruct (callback stream); f_equal.
  - now rewrite app_assoc.
  - rewrite length_app. lia.
  - rewrite length_app. lia.
Qed.

Lemma fits_stream_app (stream : pb_ostream_t) (a b : list byte) :
  fits_stream stream (a ++ b)
  = fits_stream stream a && fits_stream (advance_stream stream a) b.
Proof.
  unfold fits_stream, advance_stream; cbn. destruct (callback stream); cbn; [|reflexivity].
  rewrite length_app.
  repeat match goal with |- context [(?x <=? ?y)%N] => destruct (N.leb_spec x y) end;
    cbn; try reflexivity; lia.
Qed.

Lemma pb_emits_write (bs : list byte) :
  pb_emits (fun stream => pb_write stream bs (N.of_nat (length bs))) bs.
Proof.
  intros [cb st mx bw]. unfold fits_stream, advance_stream, pb_write; cbn.
  destruct cb; cbn; [|reflexivity].
  destruct (N.leb_spec (bw + N.of_nat (length bs)) mx),
           (N.ltb_spec mx (bw + N.of_nat (length bs))); try lia; reflexivity.
Qed.

Lemma pb_emits_seq (g h : pb_ostream_t -> bool * pb_ostream_t) (a b : list byte) :
  pb_emits g a -> pb_emits h b ->
  pb_emits (fun stream => match g stream with
                          | (false, s') => (false, s')
                          | (true, s') => h s'
                          end) (a ++ b).
Proof.
  intros Hg Hh stream. specialize (Hg stream).
  rewrite fits_stream_app. destruct (fits_stream stream a); cbn [andb].
  - rewrite Hg. specialize (Hh (advance_stream stream a)).
    destruct (fits_stream (advance_stream stream a) b).
    + now rewrite Hh, advance_stream_app.
    + exact Hh.
  - destruct (g stream) as [[] s']; [discriminate | reflexivity].
Qed.

Lemma pb_emits_varint (v : N) :
  pb_emits (fun stream => pb_encode_varint stream v) (varint_bytes v).
Proof. apply pb_emits_write. Qed.

Lemma pb_emits_tag (wt number : N) :
  pb_emits (fun stream => pb_encode_tag stream wt number) (tag_bytes wt number).
Proof. apply pb_emits_write. Qed.

Lemma pb_emits_string (s : list byte) :
  pb_emits (fun stream => pb_encode_string stream s) (length_delimited s).
Proof.
  apply (pb_emits_seq (fun stream => pb_encode_varint stream (N.of_nat (length s)))
           (fun stream => pb_write stream s (N.of_nat (length s)))).
  - apply pb_emits_varint.
  - apply pb_emits_write.
Qed.

Lemma pb_emits_Timestamp (t : google_protobuf_Timestamp) :
  pb_emits (fun stream => pb_encode_Timestamp stream t)
    (Timestamp_wire {| seconds := pb_seconds t; nanoseconds := pb_nanos t |}).
Proof.
  unfold Timestamp_wire; cbn [seconds nanoseconds].
  apply (pb_emits_seq (fun stream => pb_encode_tag stream PB_WT_VARINT 1));
    [apply pb_emits_tag|].
  apply (pb_emits_seq (fun stream => pb_encode_varint stream (to_uint64 (pb_seconds t))));
    [apply pb_emits_varint|].
  apply (pb_emits_seq (fun stream => pb_encode_tag stream PB_WT_VARINT 2)
                      (fun stream => pb_encode_varint stream (to_uint64 (pb_nanos t))));
    [apply pb_emits_tag | apply pb_emits_varint].
Qed.

Lemma emits_checked (g : pb_ostream_t -> bool * pb_ostream_t) (bs : list byte) :
  pb_emits g bs ->
  emits (fun w => if negb (ok (Writer.status_ w)) then Ret w
                  else Writer.checked w (g (Writer.stream_ w))) bs.
Proof.
  intros Hg w Hok _. rewrite Hok; cbn [ok negb].
  specialize (Hg (Writer.stream_ w)). unfold fits.
  destruct (fits_stream (Writer.stream_ w) bs).
  - rewrite Hg. unfold Writer.checked, advance. now rewrite Hok.
  - destruct (g (Writer.stream_ w)) as [[] s']; [discriminate | reflexivity].
Qed.

Lemma emits_WriteVarint (v : N) : emits (Writer.WriteVarint v) (varint_bytes v).
Proof. apply (emits_checked _ _ (pb_emits_varint v)). Qed.

Lemma emits_WriteTag (wt number : N) :
  emits (Writer.WriteTag (mkTag wt number)) (tag_bytes wt number).
Proof. apply (emits_checked _ _ (pb_emits_tag wt number)). Qed.

Lemma emits_WriteString (s : list byte) :
  emits (Writer.WriteString s) (length_delimited s).
Proof. apply (emits_checked _ _ (pb_emits_string s)). Qed.

Lemma emits_EncodeTimestamp (t : Timestamp) :
  emits (EncodeTimestamp t) (Timestamp_wire t).
Proof.
  pose proof (emits_checked _ _
                (pb_emits_Timestamp {| pb_seconds := seconds t; pb_nanos := nanoseconds t |})) as H.
  destruct t; exact H.
Qed.

Lemma emits_bind (f g : Writer.t -> Run Writer.t) (a b : list byte) :
  emits f a -> emits g b -> emits (fun w => w' <- f w ;; g w') (a ++ b).
Proof.
  intros Hf Hg w Hok Hroom. rewrite (Hf w Hok Hroom). unfold fits at 2.
  rewrite fits_stream_app. unfold fits at 1.
  destruct (fits_stream (Writer.stream_ w) a) eqn:Ha; cbn [bind andb]; [|reflexivity].
  rewrite Hg by (try exact Hok; apply fits_advance; exact Ha).
  unfold fits, advance; cbn [Writer.stream_ Writer.status_].
  destruct (fits_stream (advance_stream (Writer.stream_ w) a) b); [|reflexivity].
  now rewrite advance_stream_app.
Qed.

Lemma emits_ext (f g : Writer.t -> Run Writer.t) (bs : list byte) :
  (forall w, f w = g w) -> emits f bs -> emits g bs.
Proof. intros E Hf w Hok Hroom. rewrite <- E. now apply Hf. Qed.

Lemma advance_nil (w : Writer.t) : advance w [] = w.
Proof.
  destruct w as [st [cb s mx bw]]. unfold advance, advance_stream; cbn.
  rewrite N.add_0_r, app_nil_r. now destruct cb.
Qed.

Lemma emits_nil : emits (fun w => Ret w) [].
Proof. intros w _ Hroom. now rewrite Hroom, advance_nil. Qed.

(** The two passes of [WriteNestedMessage]: the size that the sizing
    pass finds is the number of bytes that the writing pass appends. *)
Lemma emits_WriteNestedMessage (f : Writer.t -> Run Writer.t) (bs : list byte) :
  emits f bs -> emits (Writer.WriteNestedMessage f) (length_delimited bs).
Proof.
  intros Hf [st stream] Hok Hroom. cbn in Hok; subst st.
  unfold Writer.WriteNestedMessage. cbn [Writer.status_ ok negb].
  rewrite (Hf Writer.Sizing eq_refl eq_refl).
  change (fits Writer.Sizing bs) with true. cbn iota. cbn [bind].
  cbn [advance Writer.status Writer.status_ Writer.set_status ok negb Writer.Sizing
       Writer.stream_ advance_stream PB_OSTREAM_SIZING bytes_written callback].
  rewrite N.add_0_l.
  unfold Writer.WriteSize.
  change (Writer.set_status OK {| Writer.status_ := OK; Writer.stream_ := stream |})
    with {| Writer.status_ := OK; Writer.stream_ := stream |}.
  rewrite (emits_WriteVarint (N.of_nat (length bs))
             {| Writer.status_ := OK; Writer.stream_ := stream |} eq_refl Hroom).
  unfold length_delimited, fits at 2. rewrite fits_stream_app. unfold fits.
  cbn [Writer.stream_].
  destruct (fits_stream stream (varint_bytes (N.of_nat (length bs)))) eqn:Hv;
    cbn [bind andb]; [|reflexivity].
  cbn [advance Writer.status_ Writer.stream_ ok negb].
  destruct stream as [cb s mx bw].
  destruct cb.
  - unfold fits_stream, advance_stream in *; cbn in *.
    unfold FIREBASE_ASSERT.
    destruct (N.ltb_spec mx (bw + N.of_nat (length (varint_bytes (N.of_nat (length bs))))
                             + N.of_nat (length bs)));
    destruct (N.leb_spec (bw + N.of_nat (length (varint_bytes (N.of_nat (length bs))))
                             + N.of_nat (length bs)) mx); try lia; cbn [negb bind]; [reflexivity|].
    rewrite Hf by (try reflexivity; unfold fits, fits_stream; cbn; apply N.leb_le; lia).
    unfold fits, fits_stream, advance, advance_stream; cbn.
    rewrite N.leb_refl. cbn. rewrite N.eqb_refl. cbn.
    rewrite length_app, <- app_assoc, Nat2N.inj_add, N.add_assoc. reflexivity.
  - unfold fits_stream, advance_stream, Writer.checked, pb_write; cbn.
    unfold advance, advance_stream; cbn.
    rewrite length_app, Nat2N.inj_add, N.add_assoc. reflexivity.
Qed.

(** ** The encoder emits the wire format *)


Lemma FieldValue_ind' (P : FieldValue -> Prop) :
  P NullValue ->
  (forall b, P (BooleanValue b)) ->
  (forall i, P (IntegerValue i)) ->
  (forall s, P (StringValue s)) ->
  (forall t, P (TimestampValue t)) ->
  (forall m, Forall (fun kv => P (snd kv)) m -> P (ObjectValueFromMap m)) ->
  P UnimplementedValue ->
  forall v, P v.
Proof.
  intros HN HB HI HS HT HO HU.
  fix IH 1. intros [ | b | i | s | t | m | ].
  - exact HN.
  - apply HB.
  - apply HI.
  - apply HS.
  - apply HT.
  - apply HO. induction m as [|[k v] m IHm]; constructor; [apply IH | exact IHm].
  - exact HU.
Qed.

Lemma emits_EncodeFieldsEntry (enc : FieldValue -> Writer.t -> Run Writer.t)
  (k : list byte) (v : FieldValue) :
  emits (enc v) (FieldValue_wire v) ->
  emits (fun w =>
           w <- Writer.WriteTag
                  (mkTag PB_WT_STRING google_firestore_v1beta1_MapValue_FieldsEntry_key_tag) w ;;
           Writer.WriteNestedMessage (fun w => EncodeFieldsEntry enc (k, v) w) w)
        (FieldsEntry_wire k (FieldValue_wire v)).
Proof.
  intros Hv. unfold FieldsEntry_wire.
  apply emits_bind; [apply emits_WriteTag|].
  apply emits_WriteNestedMessage. unfold EncodeFieldsEntry.
  apply (emits_bind (Writer.WriteTag _)); [apply emits_WriteTag|].
  apply (emits_bind (Writer.WriteString k)); [apply emits_WriteString|].
  apply (emits_bind (Writer.WriteTag _)); [apply emits_WriteTag|].
  apply emits_WriteNestedMessage. exact Hv.
Qed.

Lemma emits_EncodeObject_entries (enc : FieldValue -> Writer.t -> Run Writer.t)
  (m : ObjectValue_Map) :
  Forall (fun kv => emits (enc (snd kv)) (FieldValue_wire (snd kv))) m ->
  emits (EncodeObject_entries enc m) (MapValue_wire m).
Proof.
  induction 1 as [|[k v] m Hv _ IH]; cbn [EncodeObject_entries MapValue_wire flat_map].
  - apply emits_nil.
  - cbn [fst snd] in *.
    eapply emits_ext;
      [| apply (emits_bind _ _ _ _ (emits_EncodeFieldsEntry enc k v Hv) IH)].
    intros w. cbn beta.
    destruct (Writer.WriteTag _ w); reflexivity.
Qed.

Lemma FieldValue_wire_object (m : ObjectValue_Map) :
  FieldValue_wire (ObjectValueFromMap m)
  = tag_bytes PB_WT_STRING 6 ++ length_delimited (MapValue_wire m).
Proof.
  cbn [FieldValue_wire]. unfold MapValue_wire. do 2 f_equal.
  apply flat_map_ext. now intros [k v].
Qed.

Lemma emits_EncodeFieldValueImpl (v : FieldValue) :
  FieldValue_supported v = true ->
  emits (EncodeFieldValueImpl v) (FieldValue_wire v).
Proof.
  induction v as [ | b | i | s | t | m IH | ] using FieldValue_ind'; intros Hs.
  - apply (emits_bind (Writer.WriteTag _)); [apply emits_WriteTag|].
    apply emits_WriteVarint.
  - apply (emits_bind (Writer.WriteTag _)); [apply emits_WriteTag|].
    apply emits_WriteVarint.
  - apply (emits_bind (Writer.WriteTag _)); [apply emits_WriteTag|].
    apply emits_WriteVarint.
  - apply (emits_bind (Writer.WriteTag _)); [apply emits_WriteTag|].
    apply emits_WriteString.
  - apply (emits_bind (Writer.WriteTag _)); [apply emits_WriteTag|].
    apply emits_WriteNestedMessage, emits_EncodeTimestamp.
  - rewrite FieldValue_wire_object. cbn [EncodeFieldValueImpl].
    apply (emits_bind (Writer.WriteTag _)); [apply emits_WriteTag|].
    apply emits_WriteNestedMessage, emits_EncodeObject_entries.
    cbn [FieldValue_supported] in Hs. rewrite forallb_forall in Hs.
    rewrite Forall_forall in *. intros [k v] Hin.
    apply (IH _ Hin). exact (Hs _ Hin).
  - discriminate.
Qed.

(** ** What a reader function parses *)


Lemma parses_parses_region {T : Type} (f : Reader.t -> Run (T * Reader.t))
  (bs : list byte) (x : T) : parses f bs x -> parses_region f bs x.
Proof.
  intros H rest. rewrite (H rest (length bs) (le_n _)). now rewrite Nat.sub_diag.
Qed.

Lemma tag_value (wt number : N) :
  (wt < 8)%N ->
  N.lor (N.shiftl number 3) wt = (wt + number * 8)%N.
Proof.
  intros Hwt. rewrite N.shiftl_mul_pow2, N.lor_comm.
  change 8%N with (2 ^ 3)%N in *. now apply lor_low_high.
Qed.

Lemma parses_ReadTag (wt number : N) :
  (wt < 8)%N -> (number < 2 ^ 29)%N -> (0 < wt + number)%N ->
  parses Reader.ReadTag (tag_bytes wt number) (mkTag wt number).
Proof.
  intros Hwt Hn Hpos rest bl Hbl. unfold Reader.ReadTag, reader_at, tag_bytes in *.
  cbn [Reader.status_ Reader.stream_ ok negb]. unfold pb_decode_tag.
  rewrite tag_value in * by exact Hwt.
  assert (Hv : (wt + number * 8 < 2 ^ 32)%N).
  { change (2 ^ 32)%N with (2 ^ 29 * 8)%N. lia. }
  rewrite (decode_varint32_bytes _ _ _ Hv Hbl).
  destruct (N.eqb_spec (wt + number * 8) 0) as [E|_]; [lia|].
  cbn [FIREBASE_ASSERT negb bind Reader.with_stream Reader.status_].
  change 7%N with (N.ones 3). rewrite N.land_ones, N.shiftr_div_pow2.
  change (2 ^ 3)%N with 8%N.
  rewrite N.Div0.mod_add, N.mod_small, N.div_add, N.div_small, N.add_0_l by lia.
  reflexivity.
Qed.

Lemma parses_ReadVarint (v : N) :
  (v < 2 ^ 64)%N -> parses Reader.ReadVarint (varint_bytes v) v.
Proof.
  intros Hv rest bl Hbl. unfold Reader.ReadVarint, reader_at.
  cbn [Reader.status_ Reader.stream_ ok negb].
  now rewrite (decode_varint_bytes _ _ _ Hv Hbl).
Qed.

Lemma make_string_substream_delimited (payload rest : list byte) (bl : nat) :
  (N.of_nat (length payload) < 2 ^ 32)%N ->
  (length (length_delimited payload) <= bl)%nat ->
  pb_make_string_substream
    {| istate := length_delimited payload ++ rest; bytes_left := bl |}
  = (Some {| istate := payload ++ rest; bytes_left := length payload |},
     {| istate := payload ++ rest;
        bytes_left := bl - length (length_delimited payload) |}).
Proof.
  intros Hlen Hbl. unfold length_delimited, pb_make_string_substream in *.
  rewrite length_app in *. rewrite <- app_assoc.
  assert (Hbl' : (length (varint_bytes (N.of_nat (length payload))) <= bl)%nat) by lia.
  rewrite (decode_varint32_bytes _ _ _ Hlen Hbl').
  cbn [bytes_left istate].
  destruct (N.ltb_spec (N.of_nat (bl - length (varint_bytes (N.of_nat (length payload)))))
              (N.of_nat (length payload))) as [H|_]; [lia|].
  rewrite Nat2N.id, Nat.sub_add_distr. reflexivity.
Qed.

Lemma parses_ReadString (s : list byte) :
  (N.of_nat (length s) < 2 ^ 32)%N ->
  parses Reader.ReadString (length_delimited s) s.
Proof.
  intros Hlen rest bl Hbl. unfold Reader.ReadString, reader_at.
  cbn [Reader.status_ Reader.stream_ ok negb].
  rewrite (make_string_substream_delimited _ _ _ Hlen Hbl).
  unfold pb_read. cbn [bytes_left istate].
  rewrite Nat.ltb_irrefl, length_app.
  destruct (Nat.ltb_spec (length s + length rest) (length s)) as [H|_]; [lia|].
  rewrite Nat.sub_diag, Nat.eqb_refl. cbn [FIREBASE_ASSERT bind].
  rewrite firstn_app, Nat.sub_diag, firstn_all, firstn_O, app_nil_r.
  rewrite skipn_app, Nat.sub_diag, skipn_all, skipn_O.
  reflexivity.
Qed.

Lemma parses_ReadNestedMessage {T : Type} (default : T)
  (f : Reader.t -> Run (T * Reader.t)) (bs : list byte) (x : T) :
  (N.of_nat (length bs) < 2 ^ 32)%N ->
  parses_region f bs x ->
  parses (Reader.ReadNestedMessage default f) (length_delimited bs) x.
Proof.
  intros Hlen Hf rest bl Hbl. unfold Reader.ReadNestedMessage, reader_at.
  cbn [Reader.status_ Reader.stream_ ok negb].
  rewrite (make_string_substream_delimited _ _ _ Hlen Hbl).
  unfold parses_region, reader_at in Hf. rewrite Hf.
  reflexivity.
Qed.

Lemma to_uint64_lt (z : Z) : (to_uint64 z < 2 ^ 64)%N.
Proof.
  unfold to_uint64. change (2 ^ 64)%N with 18446744073709551616%N.
  pose proof (Z.mod_pos_bound z 18446744073709551616 ltac:(lia)). lia.
Qed.

Lemma in_int64b_spec (z : Z) :
  in_int64b z = true <-> (- 9223372036854775808 <= z < 9223372036854775808)%Z.
Proof. unfold in_int64b. rewrite andb_true_iff, Z.leb_le, Z.ltb_lt. tauto. Qed.

Lemma to_int64_to_uint64 (z : Z) : in_int64b z = true -> to_int64 (to_uint64 z) = z.
Proof.
  rewrite in_int64b_spec. intros Hz. unfold to_int64.
  pose proof (to_uint64_lt z) as Hlt. change (2 ^ 64)%N with 18446744073709551616%N in Hlt.
  rewrite N.mod_small by exact Hlt. unfold to_uint64 in *.
  pose proof (Z.mod_pos_bound z 18446744073709551616 ltac:(lia)) as Hm.
  destruct (N.ltb_spec (Z.to_N (z mod 18446744073709551616)) 9223372036854775808) as [H|H];
    rewrite Z2N.id by lia; clear Hlt; zify; Z.div_mod_to_equations; lia.
Qed.

Lemma in_int64b_to_int64 (n : N) : in_int64b (to_int64 n) = true.
Proof.
  apply in_int64b_spec. unfold to_int64. cbv zeta.
  pose proof (N.mod_upper_bound n 18446744073709551616 ltac:(discriminate)).
  set (u := (n mod 18446744073709551616)%N) in *.
  destruct (N.ltb_spec u 9223372036854775808); lia.
Qed.

Lemma to_int32_nanos (z : Z) :
  (0 <= z <= 999999999)%Z -> to_int32 (Z.of_N (to_uint64 z)) = z.
Proof.
  intros Hz. unfold to_uint64, to_int32.
  rewrite Z2N.id by (apply Z.mod_pos_bound; lia).
  rewrite (Z.mod_small z 18446744073709551616), (Z.mod_small z 4294967296) by lia.
  destruct (Z.ltb_spec z 2147483648); lia.
Qed.


Section Properties.

Variable MIN_SECONDS MAX_SECONDS : Z.

Lemma decode_tag_tag_bytes (wt number : N) (rest : list byte) (bl : nat) :
  (wt < 8)%N -> (number < 2 ^ 29)%N -> (0 < wt + number)%N ->
  (length (tag_bytes wt number) <= bl)%nat ->
  pb_decode_tag {| istate := tag_bytes wt number ++ rest; bytes_left := bl |}
  = ((true, mkTag wt number, false),
     {| istate := rest; bytes_left := bl - length (tag_bytes wt number) |}).
Proof.
  intros Hwt Hn Hpos Hbl. unfold pb_decode_tag, tag_bytes in *.
  rewrite tag_value in * by exact Hwt.
  assert (Hv : (wt + number * 8 < 2 ^ 32)%N).
  { change (2 ^ 32)%N with (2 ^ 29 * 8)%N. lia. }
  rewrite (decode_varint32_bytes _ _ _ Hv Hbl).
  destruct (N.eqb_spec (wt + number * 8) 0) as [E|_]; [lia|].
  change 7%N with (N.ones 3). rewrite N.land_ones, N.shiftr_div_pow2.
  change (2 ^ 3)%N with 8%N.
  rewrite N.Div0.mod_add, N.mod_small, N.div_add, N.div_small, N.add_0_l by lia.
  reflexivity.
Qed.

Lemma tag_bytes_length (wt number : N) :
  (wt < 8)%N -> (number < 2 ^ 29)%N ->
  (1 <= length (tag_bytes wt number) <= 10)%nat.
Proof.
  intros Hwt Hn. apply varint_bytes_length. rewrite tag_value by exact Hwt.
  change (2 ^ 64)%N with (2 ^ 29 * 8 * 2 ^ 32)%N. 
  change (2 ^ 29)%N with 536870912%N in *. change (2 ^ 32)%N with 4294967296%N. lia.
Qed.

Lemma pb_decode_Timestamp_wire (t : Timestamp) (rest : list byte) :
  Timestamp_valid MIN_SECONDS MAX_SECONDS t = true ->
  pb_decode_Timestamp
    {| istate := Timestamp_wire t ++ rest; bytes_left := length (Timestamp_wire t) |}
  = (true, {| pb_seconds := seconds t; pb_nanos := nanoseconds t |},
     {| istate := rest; bytes_left := 0 |}).
Proof.
  unfold Timestamp_valid. rewrite !andb_true_iff, !Z.leb_le.
  intros [[[[H64 Hmin] Hmax] Hn0] Hn1].
  unfold pb_decode_Timestamp, Timestamp_wire. cbn [bytes_left].
  pose proof (tag_bytes_length PB_WT_VARINT 1 ltac:(reflexivity) ltac:(reflexivity)) as L1.
  pose proof (tag_bytes_length PB_WT_VARINT 2 ltac:(reflexivity) ltac:(reflexivity)) as L2.
  pose proof (varint_bytes_length _ (to_uint64_lt (seconds t))) as L3.
  pose proof (varint_bytes_length _ (to_uint64_lt (nanoseconds t))) as L4.
  rewrite !length_app. rewrite <- !app_assoc.
  set (a := length (tag_bytes PB_WT_VARINT 1)) in *.
  set (b := length (varint_bytes (to_uint64 (seconds t)))) in *.
  set (c := length (tag_bytes PB_WT_VARINT 2)) in *.
  set (d := length (varint_bytes (to_uint64 (nanoseconds t)))) in *.
  destruct (a + (b + (c + d)))%nat as [|[|[|n]]] eqn:E; try lia.
  cbn [pb_decode_Timestamp_fields bytes_left Nat.eqb].
  rewrite decode_tag_tag_bytes by (try reflexivity; fold a; lia).
  cbn [field_number wire_type]. fold a.
  change (1 =? google_protobuf_Timestamp_seconds_tag)%N with true. cbn iota.
  rewrite (decode_varint_bytes _ _ _ (to_uint64_lt (seconds t))) by (fold b; lia).
  fold b. rewrite (to_int64_to_uint64 _ H64).
  cbn [pb_decode_Timestamp_fields bytes_left].
  destruct (Nat.eqb_spec (S (S (S n)) - a - b) 0) as [E0|_]; [lia|].
  rewrite decode_tag_tag_bytes by (try reflexivity; fold c; lia).
  cbn [field_number wire_type]. fold c.
  change (2 =? google_protobuf_Timestamp_seconds_tag)%N with false.
  change (2 =? google_protobuf_Timestamp_nanos_tag)%N with true. cbn iota.
  rewrite (decode_varint_bytes _ _ _ (to_uint64_lt (nanoseconds t))) by (fold d; lia).
  fold d. rewrite to_int32_nanos by lia. cbn [pb_seconds pb_nanos].
  replace (S (S (S n)) - a - b - c - d)%nat with 0%nat by lia.
  reflexivity.
Qed.


Lemma status_reader_at (bs : list byte) (bl : nat) :
  Reader.status (reader_at bs bl) = OK.
Proof. reflexivity. Qed.

Lemma parses_region_DecodeTimestamp (t : Timestamp) :
  Timestamp_valid MIN_SECONDS MAX_SECONDS t = true ->
  parses_region (DecodeTimestamp MIN_SECONDS MAX_SECONDS) (Timestamp_wire t) t.
Proof.
  intros Hvalid rest. unfold DecodeTimestamp, Reader.ReadNanopbMessage, reader_at.
  cbn [Reader.status_ Reader.stream_ ok negb].
  rewrite (pb_decode_Timestamp_wire _ _ Hvalid). cbn [bind pb_seconds pb_nanos].
  unfold Timestamp_valid in Hvalid. rewrite !andb_true_iff, !Z.leb_le in Hvalid.
  destruct Hvalid as [[[[H64 Hmin] Hmax] Hn0] Hn1].
  destruct (Z.ltb_spec (seconds t) MIN_SECONDS); [lia|].
  destruct (Z.ltb_spec MAX_SECONDS (seconds t)); [lia|].
  destruct (Z.ltb_spec (nanoseconds t) 0); [lia|].
  destruct (Z.ltb_spec 999999999 (nanoseconds t)); [lia|].
  now destruct t.
Qed.

(** *** The order of the keys *)

Lemma string_lt_irrefl (a : list byte) : string_lt a a = false.
Proof.
  induction a as [|x a IH]; [reflexivity|]. cbn [string_lt].
  now rewrite N.ltb_irrefl.
Qed.

Lemma string_lt_asym (a : list byte) : forall b,
  string_lt a b = true -> string_lt b a = false.
Proof.
  induction a as [|x a IH]; intros [|y b]; cbn [string_lt]; try easy.
  destruct (N.ltb_spec (Byte.to_N x) (Byte.to_N y)),
           (N.ltb_spec (Byte.to_N y) (Byte.to_N x)); try lia; try easy.
  apply IH.
Qed.

Lemma string_lt_trans (a : list byte) : forall b c,
  string_lt a b = true -> string_lt b c = true -> string_lt a c = true.
Proof.
  induction a as [|x a IH]; intros [|y b] [|z c]; cbn [string_lt]; try easy.
  destruct (N.ltb_spec (Byte.to_N x) (Byte.to_N y)),
           (N.ltb_spec (Byte.to_N y) (Byte.to_N x)),
           (N.ltb_spec (Byte.to_N y) (Byte.to_N z)),
           (N.ltb_spec (Byte.to_N z) (Byte.to_N y)),
           (N.ltb_spec (Byte.to_N x) (Byte.to_N z)),
           (N.ltb_spec (Byte.to_N z) (Byte.to_N x)); try lia; try easy.
  apply IH.
Qed.

Lemma sorted_keys_app (p q : ObjectValue_Map) :
  sorted_keys (p ++ q) = true ->
  sorted_keys p = true /\ sorted_keys q = true
  /\ forall kv kv', In kv p -> In kv' q -> string_lt (fst kv) (fst kv') = true.
Proof.
  induction p as [|x p IH]; cbn [app sorted_keys]; [now intuition|].
  rewrite andb_true_iff, forallb_app, andb_true_iff.
  intros [[Hp Hq] Hs]. destruct (IH Hs) as (Sp & Sq & Hpq).
  rewrite Hp, Sp. repeat split; [exact Sq|].
  intros kv kv' [E | Hin] Hin'.
  - subst kv. rewrite forallb_forall in Hq. now apply Hq.
  - now apply Hpq.
Qed.

Lemma Map_contains_above (key : list byte) (p : ObjectValue_Map) :
  (forall kv, In kv p -> string_lt (fst kv) key = true) ->
  Map_contains key p = false.
Proof.
  induction p as [|[k v] p IH]; intros Hp; [reflexivity|]. cbn [Map_contains].
  pose proof (Hp (k, v) (or_introl eq_refl)) as Hk; cbn [fst] in Hk.
  rewrite (string_lt_asym _ _ Hk), Hk.
  apply IH. intros kv Hin. apply Hp. now right.
Qed.

Lemma Map_emplace_above (kv : list byte * FieldValue) (p : ObjectValue_Map) :
  (forall kv', In kv' p -> string_lt (fst kv') (fst kv) = true) ->
  Map_emplace kv p = p ++ [kv].
Proof.
  induction p as [|[k v] p IH]; intros Hp; [reflexivity|]. cbn [Map_emplace app].
  pose proof (Hp (k, v) (or_introl eq_refl)) as Hk; cbn [fst] in Hk.
  rewrite (string_lt_asym _ _ Hk), Hk. f_equal.
  apply IH. intros kv' Hin. apply Hp. now right.
Qed.


Lemma length_delimited_length (payload : list byte) :
  length (length_delimited payload)
  = (length (varint_bytes (N.of_nat (length payload))) + length payload)%nat.
Proof. unfold length_delimited. now rewrite length_app. Qed.

Lemma FieldsEntry_wire_length (key value_wire : list byte) :
  length (FieldsEntry_wire key value_wire)
  = (length (tag_bytes PB_WT_STRING 1)
     + length (length_delimited
                 (tag_bytes PB_WT_STRING 1 ++ length_delimited key
                  ++ tag_bytes PB_WT_STRING 2 ++ length_delimited value_wire)))%nat.
Proof. unfold FieldsEntry_wire. now rewrite length_app. Qed.

Ltac tag_side :=
  repeat (progress (rewrite ?length_app, ?length_delimited_length in * ));
  first [reflexivity | lia].

Ltac reader_step :=
  cbn [bind]; rewrite ?status_reader_at; cbn [ok negb FIREBASE_ASSERT bind].

Lemma parses_eq {T : Type} (f : Reader.t -> Run (T * Reader.t))
  (bs : list byte) (x : T) (rest : list byte) (bl : nat) :
  parses f bs x -> (length bs <= bl)%nat ->
  f (reader_at (bs ++ rest) bl) = Ret (x, reader_at rest (bl - length bs)).
Proof. intros H Hbl. now apply H. Qed.

Lemma ReadTag_eq (wt number : N) (rest : list byte) (bl : nat) :
  (wt < 8)%N -> (number < 2 ^ 29)%N -> (0 < wt + number)%N ->
  (length (tag_bytes wt number) <= bl)%nat ->
  Reader.ReadTag (reader_at (tag_bytes wt number ++ rest) bl)
  = Ret (mkTag wt number, reader_at rest (bl - length (tag_bytes wt number))).
Proof. intros. now apply parses_ReadTag. Qed.

Lemma ReadString_eq (s rest : list byte) (bl : nat) :
  (N.of_nat (length s) < 2 ^ 32)%N ->
  (length (length_delimited s) <= bl)%nat ->
  Reader.ReadString (reader_at (length_delimited s ++ rest) bl)
  = Ret (s, reader_at rest (bl - length (length_delimited s))).
Proof. intros. now apply parses_ReadString. Qed.

Lemma ReadNestedMessage_eq {T : Type} (default : T)
  (f : Reader.t -> Run (T * Reader.t)) (bs : list byte) (x : T)
  (rest : list byte) (bl : nat) :
  parses_region f bs x ->
  (N.of_nat (length bs) < 2 ^ 32)%N ->
  (length (length_delimited bs) <= bl)%nat ->
  Reader.ReadNestedMessage default f (reader_at (length_delimited bs ++ rest) bl)
  = Ret (x, reader_at rest (bl - length (length_delimited bs))).
Proof. intros. now apply parses_ReadNestedMessage. Qed.

Lemma ReadVarint_eq (v : N) (rest : list byte) (bl : nat) :
  (v < 2 ^ 64)%N -> (length (varint_bytes v) <= bl)%nat ->
  Reader.ReadVarint (reader_at (varint_bytes v ++ rest) bl)
  = Ret (v, reader_at rest (bl - length (varint_bytes v))).
Proof. intros. now apply parses_ReadVarint. Qed.




Section Entries.

Variable dec : Reader.t -> Run (FieldValue * Reader.t).

Lemma parses_DecodeFieldsEntry (k : list byte) (v : FieldValue) :
  parses_region dec (FieldValue_wire v) v ->
  (N.of_nat (length (tag_bytes PB_WT_STRING 1 ++ length_delimited k
              ++ tag_bytes PB_WT_STRING 2 ++ length_delimited (FieldValue_wire v)))
   < 2 ^ 32)%N ->
  parses (DecodeFieldsEntry dec)
    (tag_bytes PB_WT_STRING 1 ++ length_delimited k
     ++ tag_bytes PB_WT_STRING 2 ++ length_delimited (FieldValue_wire v))
    (k, v).
Proof.
  intros Hv Hlen rest bl Hbl. rewrite !length_app, !length_delimited_length in *.
  unfold DecodeFieldsEntry. rewrite <- !app_assoc.
  rewrite ReadTag_eq by tag_side.
  reader_step. cbn [field_number wire_type].
  change (1 =? google_firestore_v1beta1_MapValue_FieldsEntry_key_tag)%N with true.
  change (PB_WT_STRING =? PB_WT_STRING)%N with true. reader_step.
  rewrite ReadString_eq by tag_side.
  reader_step.
  rewrite ReadTag_eq by tag_side.
  reader_step. cbn [field_number wire_type].
  change (2 =? google_firestore_v1beta1_MapValue_FieldsEntry_value_tag)%N with true.
  change (PB_WT_STRING =? PB_WT_STRING)%N with true. reader_step.
  rewrite (ReadNestedMessage_eq NullValue _ _ _ _ _ Hv) by tag_side.
  reader_step. rewrite !length_delimited_length.
  do 3 f_equal. lia.
Qed.

Lemma MapValue_wire_cons (kv : list byte * FieldValue) (q : ObjectValue_Map) :
  MapValue_wire (kv :: q)
  = FieldsEntry_wire (fst kv) (FieldValue_wire (snd kv)) ++ MapValue_wire q.
Proof. reflexivity. Qed.

Lemma bytes_left_reader_at (bs : list byte) (bl : nat) :
  Reader.bytes_left (reader_at bs bl) = bl.
Proof. reflexivity. Qed.

(** The loop of [DecodeObject] takes the entries it is given, in their
    order, after the ones it already has, and goes on with what follows
    them in the region. *)
Lemma DecodeObject_loop_entries (q : ObjectValue_Map) :
  forall (p : ObjectValue_Map) (n : nat) (rest : list byte) (more : nat),
  sorted_keys (p ++ q) = true ->
  Forall (fun kv => parses_region dec (FieldValue_wire (snd kv)) (snd kv)) q ->
  (N.of_nat (length (MapValue_wire q)) < 2 ^ 32)%N ->
  (length (MapValue_wire q) + more <= n)%nat ->
  DecodeObject_loop dec n
    (reader_at (MapValue_wire q ++ rest) (length (MapValue_wire q) + more)) p
  = DecodeObject_loop dec (n - length q) (reader_at rest more) (p ++ q).
Proof.
  induction q as [|[k v] q IH]; intros p n rest more Hsorted Hq Hlen Hn.
  - now rewrite app_nil_r, Nat.sub_0_r.
  - rewrite MapValue_wire_cons in *. cbn [fst snd] in *.
    pose proof (tag_bytes_length PB_WT_STRING 1 eq_refl eq_refl) as L1.
    rewrite length_app, FieldsEntry_wire_length in *.
    destruct n as [|n]; [lia|].
    cbn [DecodeObject_loop]. rewrite bytes_left_reader_at.
    match goal with |- context [(?x =? 0)%nat] =>
      destruct (Nat.eqb_spec x 0) as [E|_]; [lia|] end.
    unfold FieldsEntry_wire at 1. rewrite <- !app_assoc.
    rewrite ReadTag_eq by tag_side.
    reader_step. cbn [field_number wire_type].
    change (1 =? google_firestore_v1beta1_MapValue_fields_tag)%N with true.
    change (PB_WT_STRING =? PB_WT_STRING)%N with true. reader_step.
    inversion Hq as [|? ? Hv Hq']; subst. cbn [snd] in Hv.
    rewrite (ReadNestedMessage_eq value_type_default _ _ (k, v)).
    2: { apply parses_parses_region, parses_DecodeFieldsEntry; [exact Hv|].
         rewrite ?length_delimited_length, ?length_app in *. lia. }
    2: tag_side.
    2: tag_side.
    reader_step.
    destruct (sorted_keys_app _ _ Hsorted) as (Sp & Sq & Hpq).
    assert (Habove : forall kv', In kv' p -> string_lt (fst kv') k = true).
    { intros kv' Hin. apply (Hpq kv' (k, v) Hin). now left. }
    cbn [fst]. rewrite (Map_contains_above _ _ Habove). reader_step.
    rewrite (Map_emplace_above (k, v) p Habove).
    replace (p ++ (k, v) :: q) with ((p ++ [(k, v)]) ++ q)
      by (now rewrite <- app_assoc).
    match goal with |- DecodeObject_loop _ _ (reader_at _ ?bl) _ = _ =>
      replace bl with (length (MapValue_wire q) + more)%nat
        by (rewrite ?length_delimited_length, ?length_app in *; lia) end.
    cbn [length Nat.sub].
    apply IH; [now rewrite <- app_assoc | exact Hq' | lia | lia].
Qed.

Lemma DecodeObject_loop_done (n : nat) (rest : list byte) (p : ObjectValue_Map) :
  DecodeObject_loop dec n (reader_at rest 0) p = Ret (p, reader_at rest 0).
Proof. destruct n; reflexivity. Qed.

Lemma parses_region_DecodeObject_body (m : ObjectValue_Map) :
  sorted_keys m = true ->
  Forall (fun kv => parses_region dec (FieldValue_wire (snd kv)) (snd kv)) m ->
  (N.of_nat (length (MapValue_wire m)) < 2 ^ 32)%N ->
  parses_region
    (fun reader =>
       if negb (ok (Reader.status reader)) then Ret ([], reader)
       else DecodeObject_loop dec (Reader.bytes_left reader) reader [])
    (MapValue_wire m) m.
Proof.
  intros Hsorted Hm Hlen rest. rewrite status_reader_at, bytes_left_reader_at.
  cbn [ok negb].
  rewrite <- (Nat.add_0_r (length (MapValue_wire m))) at 2.
  rewrite DecodeObject_loop_entries by (try assumption; lia).
  apply DecodeObject_loop_done.
Qed.

Lemma parses_DecodeObject (m : ObjectValue_Map) :
  sorted_keys m = true ->
  Forall (fun kv => parses_region dec (FieldValue_wire (snd kv)) (snd kv)) m ->
  (N.of_nat (length (MapValue_wire m)) < 2 ^ 32)%N ->
  parses (DecodeObject dec) (length_delimited (MapValue_wire m)) m.
Proof.
  intros Hsorted Hm Hlen rest bl Hbl. unfold DecodeObject.
  rewrite status_reader_at. cbn [ok negb].
  now rewrite (ReadNestedMessage_eq [] _ _ m _ _
                 (parses_region_DecodeObject_body m Hsorted Hm Hlen)).
Qed.

End Entries.

Lemma In_MapValue_wire_length (k : list byte) (v : FieldValue) (m : ObjectValue_Map) :
  In (k, v) m -> (length (FieldValue_wire v) < length (MapValue_wire m))%nat.
Proof.
  induction m as [|kv m IH]; intros Hin; [contradiction|].
  rewrite MapValue_wire_cons, length_app, FieldsEntry_wire_length.
  rewrite ?length_delimited_length, ?length_app, ?length_delimited_length.
  pose proof (tag_bytes_length PB_WT_STRING 1 eq_refl eq_refl) as L1.
  destruct Hin as [E | Hin].
  - subst kv. cbn [fst snd]. lia.
  - specialize (IH Hin). lia.
Qed.

(** The decoder reads back what the wire format says of a valid value. *)
Lemma parses_DecodeFieldValueImpl (v : FieldValue) :
  FieldValue_valid MIN_SECONDS MAX_SECONDS v = true ->
  (N.of_nat (length (FieldValue_wire v)) < 2 ^ 32)%N ->
  forall fuel, (length (FieldValue_wire v) < fuel)%nat ->
  parses (DecodeFieldValueImpl MIN_SECONDS MAX_SECONDS fuel) (FieldValue_wire v) v.
Proof.
  induction v as [ | b | i | s | t | m IH | ] using FieldValue_ind';
    intros Hvalid Hlen fuel Hfuel rest bl Hbl;
    (destruct fuel as [|fuel]; [lia|]);
    try rewrite FieldValue_wire_object in *;
    cbn [FieldValue_wire DecodeFieldValueImpl FieldValue_valid] in *;
    try discriminate;
    rewrite <- ?app_assoc;
    rewrite ?length_app in Hbl;
    rewrite ReadTag_eq by tag_side; reader_step.
  - (* Null *)
    change (check_wire_type (mkTag PB_WT_VARINT 11) ?r) with (Ret r).
    reader_step. cbn [field_number].
    change (11 =? google_firestore_v1beta1_Value_null_value_tag)%N with true.
    cbn iota. unfold Reader.ReadNull.
    rewrite ReadVarint_eq by tag_side. reader_step.
    change (0 =? google_protobuf_NullValue_NULL_VALUE)%N with true.
    cbn [negb bind]. rewrite length_app. do 3 f_equal. lia.
  - (* Boolean *)
    change (check_wire_type (mkTag PB_WT_VARINT 1) ?r) with (Ret r).
    reader_step. cbn [field_number].
    change (1 =? google_firestore_v1beta1_Value_null_value_tag)%N with false.
    change (1 =? google_firestore_v1beta1_Value_boolean_value_tag)%N with true.
    cbn iota. unfold Reader.ReadBool.
    rewrite ReadVarint_eq by (destruct b; tag_side). reader_step.
    rewrite length_app.
    destruct b; cbn [N.eqb Pos.eqb bind]; do 3 f_equal; lia.
  - (* Integer *)
    change (check_wire_type (mkTag PB_WT_VARINT 2) ?r) with (Ret r).
    reader_step. cbn [field_number].
    change (2 =? google_firestore_v1beta1_Value_null_value_tag)%N with false.
    change (2 =? google_firestore_v1beta1_Value_boolean_value_tag)%N with false.
    change (2 =? google_firestore_v1beta1_Value_integer_value_tag)%N with true.
    cbn iota. unfold Reader.ReadInteger.
    rewrite (ReadVarint_eq _ _ _ (to_uint64_lt i)) by tag_side. reader_step.
    rewrite (to_int64_to_uint64 _ Hvalid), length_app. do 3 f_equal. lia.
  - (* String *)
    change (check_wire_type (mkTag PB_WT_STRING 17) ?r) with (Ret r).
    reader_step. cbn [field_number].
    change (17 =? google_firestore_v1beta1_Value_null_value_tag)%N with false.
    change (17 =? google_firestore_v1beta1_Value_boolean_value_tag)%N with false.
    change (17 =? google_firestore_v1beta1_Value_integer_value_tag)%N with false.
    change (17 =? google_firestore_v1beta1_Value_string_value_tag)%N with true.
    cbn iota.
    rewrite ReadString_eq by tag_side. reader_step.
    rewrite length_app. do 3 f_equal. lia.
  - (* Timestamp *)
    change (check_wire_type (mkTag PB_WT_STRING 10) ?r) with (Ret r).
    reader_step. cbn [field_number].
    change (10 =? google_firestore_v1beta1_Value_null_value_tag)%N with false.
    change (10 =? google_firestore_v1beta1_Value_boolean_value_tag)%N with false.
    change (10 =? google_firestore_v1beta1_Value_integer_value_tag)%N with false.
    change (10 =? google_firestore_v1beta1_Value_string_value_tag)%N with false.
    change (10 =? google_firestore_v1beta1_Value_timestamp_value_tag)%N with true.
    cbn iota.
    rewrite (ReadNestedMessage_eq Timestamp_default _ _ t _ _
               (parses_region_DecodeTimestamp t Hvalid))
      by tag_side.
    reader_step. rewrite length_app. do 3 f_equal. lia.
  - (* Object *)
    change (check_wire_type (mkTag PB_WT_STRING 6) ?r) with (Ret r).
    reader_step. cbn [field_number].
    change (6 =? google_firestore_v1beta1_Value_null_value_tag)%N with false.
    change (6 =? google_firestore_v1beta1_Value_boolean_value_tag)%N with false.
    change (6 =? google_firestore_v1beta1_Value_integer_value_tag)%N with false.
    change (6 =? google_firestore_v1beta1_Value_string_value_tag)%N with false.
    change (6 =? google_firestore_v1beta1_Value_timestamp_value_tag)%N with false.
    change (6 =? google_firestore_v1beta1_Value_map_value_tag)%N with true.
    cbn iota.
    apply andb_true_iff in Hvalid. destruct Hvalid as [Hsorted Hall].
    rewrite forallb_forall in Hall.
    rewrite length_app, length_delimited_length in *.
    pose proof (tag_bytes_length PB_WT_STRING 6 eq_refl eq_refl) as L6.
    assert (Hlen' : (N.of_nat (length (MapValue_wire m)) < 2 ^ 32)%N) by lia.
    assert (Hent : Forall
              (fun kv => parses_region
                           (DecodeFieldValueImpl MIN_SECONDS MAX_SECONDS fuel)
                           (FieldValue_wire (snd kv)) (snd kv)) m).
    { rewrite Forall_forall in *. intros [k v] Hin. cbn [snd].
      pose proof (In_MapValue_wire_length _ _ _ Hin) as Hshort.
      apply parses_parses_region.
      pose proof (IH _ Hin) as IHv. cbn [snd] in IHv.
      apply IHv; [exact (Hall _ Hin) | lia | lia]. }
    rewrite (parses_eq _ _ _ _ _ (parses_DecodeObject _ m Hsorted Hent Hlen'))
      by (rewrite length_delimited_length; lia).
    reader_step. rewrite length_delimited_length. do 3 f_equal. lia.
Qed.



Lemma Serializer_EncodeFieldValue_wire (v : FieldValue) (out_bytes : list byte) :
  FieldValue_supported v = true ->
  Serializer_EncodeFieldValue v out_bytes
  = if (N.of_nat (length (FieldValue_wire v)) <=? Writer.kMaxDocumentSize)%N
    then Ret (OK, out_bytes ++ FieldValue_wire v)
    else Abort.
Proof.
  intros Hs. unfold Serializer_EncodeFieldValue.
  rewrite (emits_EncodeFieldValueImpl _ Hs (Writer.Wrap out_bytes) eq_refl eq_refl).
  unfold fits, fits_stream. cbn [Writer.Wrap Writer.stream_ callback negb orb
                                   bytes_written max_size].
  rewrite N.add_0_l. now destruct (_ <=? _)%N.
Qed.

Lemma EncodeFieldValueImpl_Sizing (v : FieldValue) :
  FieldValue_supported v = true ->
  EncodeFieldValueImpl v Writer.Sizing
  = Ret {| Writer.status_ := OK;
           Writer.stream_ :=
             {| callback := false; state := []; max_size := 0;
                bytes_written := N.of_nat (length (FieldValue_wire v)) |} |}.
Proof.
  intros Hs.
  now rewrite (emits_EncodeFieldValueImpl _ Hs Writer.Sizing eq_refl eq_refl).
Qed.

Lemma FieldValue_valid_supported (v : FieldValue) :
  FieldValue_valid MIN_SECONDS MAX_SECONDS v = true -> FieldValue_supported v = true.
Proof.
  induction v as [ | b | i | s | t | m IH | ] using FieldValue_ind';
    cbn [FieldValue_valid FieldValue_supported]; try easy.
  rewrite andb_true_iff, !forallb_forall. intros [_ Hall] [k v] Hin.
  rewrite Forall_forall in IH. apply (IH _ Hin). exact (Hall _ Hin).
Qed.



Lemma Wrap_reader_at (bytes extra : list byte) :
  Reader.Wrap (bytes ++ extra) = reader_at (bytes ++ extra) (length (bytes ++ extra)).
Proof. reflexivity. Qed.

Lemma Serializer_DecodeFieldValue_wire (v : FieldValue) (extra : list byte) :
  FieldValue_valid MIN_SECONDS MAX_SECONDS v = true ->
  (N.of_nat (length (FieldValue_wire v)) < 2 ^ 32)%N ->
  Serializer_DecodeFieldValue MIN_SECONDS MAX_SECONDS (FieldValue_wire v ++ extra) = Ret (ValueOf v).
Proof.
  intros Hvalid Hlen. unfold Serializer_DecodeFieldValue.
  rewrite Wrap_reader_at.
  rewrite (parses_eq _ _ _ _ _ (parses_DecodeFieldValueImpl v Hvalid Hlen
                          (S (length (FieldValue_wire v ++ extra)))
                          ltac:(rewrite length_app; lia)))
    by (rewrite length_app; lia).
  reflexivity.
Qed.

(** C1.  For every valid [FieldValue] [v] of the supported variants
    (Null, Boolean, Integer, String, Timestamp, Object, all the way down),
    decoding the bytes that encoding [v] produced yields [v] itself.  A map
    is a [std::map], so the equality of the model is the equality of the
    key sets and of the value of each key. *)
Theorem FieldValue_roundtrip (v : FieldValue) (st : Status) (bytes : list byte) :
  FieldValue_valid MIN_SECONDS MAX_SECONDS v = true ->
  Serializer_EncodeFieldValue v [] = Ret (st, bytes) ->
  Serializer_DecodeFieldValue MIN_SECONDS MAX_SECONDS bytes = Ret (ValueOf v).
Proof.
  intros Hvalid Henc.
  rewrite (Serializer_EncodeFieldValue_wire _ _ (FieldValue_valid_supported _ Hvalid)) in Henc.
  destruct (N.leb_spec (N.of_nat (length (FieldValue_wire v))) Writer.kMaxDocumentSize)
    as [Hfit|]; [|discriminate].
  injection Henc as _ <-. cbn [app].
  rewrite <- (app_nil_r (FieldValue_wire v)).
  apply Serializer_DecodeFieldValue_wire; [exact Hvalid|].
  eapply N.le_lt_trans; [exact Hfit | reflexivity].
Qed.

(** C4, as amended.  [Serializer::DecodeFieldValue] reads one tagged
    value and returns it whenever the status of the reader is OK; it does
    not look at [bytes_left], so the encoding of a valid value followed by
    any residual bytes still decodes to that value with an OK status. *)
Theorem trailing_bytes_ignored (v : FieldValue) (st : Status) (bytes extra : list byte) :
  FieldValue_valid MIN_SECONDS MAX_SECONDS v = true ->
  Serializer_EncodeFieldValue v [] = Ret (st, bytes) ->
  Serializer_DecodeFieldValue MIN_SECONDS MAX_SECONDS (bytes ++ extra) = Ret (ValueOf v).
Proof.
  intros Hvalid Henc.
  rewrite (Serializer_EncodeFieldValue_wire _ _ (FieldValue_valid_supported _ Hvalid)) in Henc.
  destruct (N.leb_spec (N.of_nat (length (FieldValue_wire v))) Writer.kMaxDocumentSize)
    as [Hfit|]; [|discriminate].
  injection Henc as _ <-. cbn [app].
  apply Serializer_DecodeFieldValue_wire; [exact Hvalid|].
  eapply N.le_lt_trans; [exact Hfit | reflexivity].
Qed.

(** C9.  For every supported [FieldValue], the encoder run on a sizing
    writer returns with [bytes_written] equal to the length of the wire
    format of the value, in which every length prefix is the length of the
    payload behind it; run on a writer over a vector, it appends exactly
    those bytes when that count is within the size ceiling, and aborts
    otherwise. *)
Theorem size_mode_equivalence (v : FieldValue) :
  FieldValue_supported v = true ->
  exists sizer,
    EncodeFieldValueImpl v Writer.Sizing = Ret sizer
    /\ Writer.status sizer = OK
    /\ Writer.bytes_written sizer = N.of_nat (length (FieldValue_wire v))
    /\ forall out_bytes,
         if (Writer.bytes_written sizer <=? Writer.kMaxDocumentSize)%N
         then Serializer_EncodeFieldValue v out_bytes
              = Ret (OK, out_bytes ++ FieldValue_wire v)
         else Serializer_EncodeFieldValue v out_bytes = Abort.
Proof.
  intros Hs. eexists. split; [apply (EncodeFieldValueImpl_Sizing _ Hs)|].
  split; [reflexivity|]. split; [reflexivity|]. intros out_bytes.
  rewrite (Serializer_EncodeFieldValue_wire _ _ Hs).
  unfold Writer.bytes_written. cbn [Writer.stream_ bytes_written].
  now destruct (_ <=? _)%N.
Qed.

(** C7.  For every input whose first tag has a field number of the table
    and a wire type other than the one the table gives to that number,
    [Serializer::DecodeFieldValue] returns the status DATA_LOSS and no
    value. *)
Theorem wire_type_mismatch_is_data_loss (bytes : list byte) (tag : Tag)
  (reader : Reader.t) (wt : pb_wire_type_t) :
  Reader.ReadTag (Reader.Wrap bytes) = Ret (tag, reader) ->
  ok (Reader.status reader) = true ->
  expected_wire_type (field_number tag) = Some wt ->
  wire_type tag <> wt ->
  Serializer_DecodeFieldValue MIN_SECONDS MAX_SECONDS bytes = Ret (StatusOf DataLoss).
Proof.
  intros Htag Hok Hexp Hwt. unfold Serializer_DecodeFieldValue.
  cbn [DecodeFieldValueImpl]. rewrite Htag. cbn [bind].
  rewrite Hok. cbn [negb]. unfold check_wire_type, expected_wire_type in *.
  change (is_varint_field (field_number tag))
    with ((field_number tag =? 11)%N || (field_number tag =? 1)%N
          || (field_number tag =? 2)%N).
  change (is_string_field (field_number tag))
    with ((field_number tag =? 17)%N || (field_number tag =? 10)%N
          || (field_number tag =? 6)%N).
  destruct ((field_number tag =? 11)%N || (field_number tag =? 1)%N
            || (field_number tag =? 2)%N).
  - injection Hexp as <-.
    destruct (N.eqb_spec (wire_type tag) PB_WT_VARINT); [contradiction|]. reflexivity.
  - destruct ((field_number tag =? 17)%N || (field_number tag =? 10)%N
              || (field_number tag =? 6)%N); [|discriminate].
    injection Hexp as <-.
    destruct (N.eqb_spec (wire_type tag) PB_WT_STRING); [contradiction|]. reflexivity.
Qed.

(** C6, as amended.  For every input whose first tag is read and carries
    a field number outside the table {11, 1, 2, 17, 10, 6},
    [Serializer::DecodeFieldValue] aborts on the assertion of the
    default case; the DATA_LOSS status set after it is not returned. *)
Theorem unknown_field_number_aborts (bytes : list byte) (tag : Tag)
  (reader : Reader.t) :
  Reader.ReadTag (Reader.Wrap bytes) = Ret (tag, reader) ->
  ok (Reader.status reader) = true ->
  expected_wire_type (field_number tag) = None ->
  Serializer_DecodeFieldValue MIN_SECONDS MAX_SECONDS bytes = Abort.
Proof.
  intros Htag Hok Hexp. unfold Serializer_DecodeFieldValue.
  cbn [DecodeFieldValueImpl]. rewrite Htag. cbn [bind].
  rewrite Hok. cbn [negb]. unfold check_wire_type, expected_wire_type in *.
  change (is_varint_field (field_number tag))
    with ((field_number tag =? 11)%N || (field_number tag =? 1)%N
          || (field_number tag =? 2)%N).
  change (is_string_field (field_number tag))
    with ((field_number tag =? 17)%N || (field_number tag =? 10)%N
          || (field_number tag =? 6)%N).
  destruct ((field_number tag =? 11)%N || (field_number tag =? 1)%N
            || (field_number tag =? 2)%N); [discriminate|].
  destruct ((field_number tag =? 17)%N || (field_number tag =? 10)%N
            || (field_number tag =? 6)%N); [discriminate|].
  reflexivity.
Qed.

Lemma lor_lt_pow2 (a b n : N) :
  (a < 2 ^ n)%N -> (b < 2 ^ n)%N -> (N.lor a b < 2 ^ n)%N.
Proof.
  intros Ha Hb.
  destruct (N.eq_dec a 0) as [->|Ha0]; [now rewrite N.lor_0_l|].
  destruct (N.eq_dec b 0) as [->|Hb0]; [now rewrite N.lor_0_r|].
  assert (Hpos : (0 < N.lor a b)%N).
  { apply N.neq_0_lt_0. intros E. apply N.lor_eq_0_l in E. contradiction. }
  apply N.log2_lt_pow2; [exact Hpos|].
  rewrite N.log2_lor.
  apply N.max_lub_lt; apply N.log2_lt_pow2; try assumption; lia.
Qed.

(** What [pb_decode_varint] reads fits the [width] bits of its result. *)
Lemma pb_decode_varint_loop_lt (width : N) (n : nat) :
  forall (bitpos result : N) (s s' : pb_istream_t) (u : N),
  (result < 2 ^ width)%N ->
  pb_decode_varint_loop width n bitpos result s = (Some u, s') ->
  (u < 2 ^ width)%N.
Proof.
  induction n as [|n IH]; intros bitpos result s s' u Hresult;
    cbn [pb_decode_varint_loop]; [discriminate|].
  destruct (width <=? bitpos)%N; [discriminate|].
  destruct (pb_readbyte s) as [[b|] s1]; [|discriminate].
  assert (Hnext : (N.lor result
                     (N.shiftl (N.land (Byte.to_N b) 127) bitpos mod 2 ^ width)
                   < 2 ^ width)%N).
  { apply lor_lt_pow2; [exact Hresult|].
    apply N.mod_upper_bound, N.pow_nonzero. discriminate. }
  destruct (N.testbit (Byte.to_N b) 7).
  - now apply IH.
  - intros E. injection E as <- _. exact Hnext.
Qed.

Lemma ReadVarint_lt (r r' : Reader.t) (u : N) :
  Reader.ReadVarint r = Ret (u, r') -> (u < 2 ^ 64)%N.
Proof.
  unfold Reader.ReadVarint. destruct (negb _).
  - intros E. injection E as <- _. reflexivity.
  - destruct (pb_decode_varint (Reader.stream_ r)) as [[v|] s] eqn:Ev;
      intros E; injection E as <- _; [|reflexivity].
    apply (pb_decode_varint_loop_lt 64 11 0 0 _ _ _ eq_refl Ev).
Qed.

(** The cast [(int64_t)u] of a [uint64_t], written out. *)
Lemma to_int64_twos_complement (u : N) :
  (u < 2 ^ 64)%N ->
  to_int64 u = (if (u <? 2 ^ 63)%N then Z.of_N u else Z.of_N u - 2 ^ 64)%Z.
Proof.
  intros Hu. unfold to_int64.
  change 18446744073709551616%N with (2 ^ 64)%N.
  rewrite N.mod_small by exact Hu. reflexivity.
Qed.

(** C10.  [ReadInteger] is [ReadVarint] followed by the cast, and checks
    nothing: whatever [ReadVarint] returns, the value [u] and the reader
    with the status that [ReadVarint] left, [ReadInteger] returns the same
    reader and [u] as a two's-complement [int64_t], which is [u] below
    2^63 and [u - 2^64] from there on.  So an integer field (number 2)
    whose varint is read, in whatever encoding of it, is decoded to that
    Integer; and every [uint64_t] is the value of a varint that is read,
    the ten-byte varints of the values from 2^63 on, which are the
    negative integers, included. *)
Theorem ReadInteger_accepts_every_uint64 :
  (forall (r r' : Reader.t) (u : N),
     Reader.ReadVarint r = Ret (u, r') ->
     (u < 2 ^ 64)%N
     /\ Reader.ReadInteger r
        = Ret ((if (u <? 2 ^ 63)%N then Z.of_N u else Z.of_N u - 2 ^ 64)%Z, r'))
  /\ (forall (bytes : list byte) (r' : Reader.t) (u : N),
        Reader.ReadVarint (Reader.Wrap bytes) = Ret (u, r') ->
        ok (Reader.status r') = true ->
        Serializer_DecodeFieldValue MIN_SECONDS MAX_SECONDS ("016"%byte :: bytes)
        = Ret (ValueOf
                 (IntegerValue
                    (if (u <? 2 ^ 63)%N then Z.of_N u else Z.of_N u - 2 ^ 64)%Z)))
  /\ (forall u : N,
        (u < 2 ^ 64)%N ->
        Reader.ReadVarint (Reader.Wrap (varint_bytes u)) = Ret (u, reader_at [] 0)
        /\ ((2 ^ 63 <= u)%N ->
            length (varint_bytes u) = 10%nat
            /\ (Z.of_N u - 2 ^ 64 < 0)%Z)).
Proof.
  split; [|split].
  - intros r r' u Hread. pose proof (ReadVarint_lt _ _ _ Hread) as Hu.
    split; [exact Hu|].
    unfold Reader.ReadInteger. rewrite Hread. cbn [bind].
    now rewrite (to_int64_twos_complement _ Hu).
  - intros bytes r' u Hread Hok. pose proof (ReadVarint_lt _ _ _ Hread) as Hu.
    unfold Serializer_DecodeFieldValue.
    change ("016"%byte :: bytes) with (tag_bytes PB_WT_VARINT 2 ++ bytes).
    rewrite <- (app_nil_r bytes), app_assoc, Wrap_reader_at, <- app_assoc.
    cbn [DecodeFieldValueImpl].
    rewrite ReadTag_eq by tag_side. reader_step.
    change (check_wire_type (mkTag PB_WT_VARINT 2) ?r) with (Ret r).
    reader_step. cbn [field_number].
    change (2 =? google_firestore_v1beta1_Value_null_value_tag)%N with false.
    change (2 =? google_firestore_v1beta1_Value_boolean_value_tag)%N with false.
    change (2 =? google_firestore_v1beta1_Value_integer_value_tag)%N with true.
    cbn iota. unfold Reader.ReadInteger.
    rewrite app_nil_r, length_app.
    change (length (tag_bytes PB_WT_VARINT 2)) with 1%nat.
    cbn [Nat.add Nat.sub]. rewrite Nat.sub_0_r.
    change (reader_at bytes (length bytes)) with (Reader.Wrap bytes).
    rewrite Hread. cbn [bind]. rewrite Hok.
    now rewrite (to_int64_twos_complement _ Hu).
  - intros u Hu. split.
    + change (Reader.Wrap (varint_bytes u))
        with (reader_at (varint_bytes u) (length (varint_bytes u))).
      rewrite <- (app_nil_r (varint_bytes u)) at 1.
      rewrite (ReadVarint_eq _ _ _ Hu) by lia. now rewrite Nat.sub_diag.
    + intros Hbig. split.
      * pose proof (varint_bytes_length _ Hu) as L.
        rewrite (varint_bytes_leb128 _ Hu) in *.
        pose proof (leb128_long 10 u 9 Hbig ltac:(lia)). lia.
      * change (2 ^ 64)%N with 18446744073709551616%N in Hu.
        change (2 ^ 64)%Z with 18446744073709551616%Z. lia.
Qed.

(** *** The entries of a map *)

Lemma Map_contains_In (m : ObjectValue_Map) (k : list byte) (v : FieldValue) :
  sorted_keys m = true -> In (k, v) m -> Map_contains k m = true.
Proof.
  induction m as [|[k0 v0] m IH]; intros Hsorted Hin; [contradiction|].
  cbn [sorted_keys fst] in Hsorted. apply andb_true_iff in Hsorted.
  destruct Hsorted as [Hhead Htail]. cbn [Map_contains].
  destruct Hin as [E | Hin].
  - injection E as -> ->. now rewrite string_lt_irrefl.
  - rewrite forallb_forall in Hhead. pose proof (Hhead _ Hin) as Hlt.
    cbn [fst] in Hlt. rewrite (string_lt_asym _ _ Hlt), Hlt. now apply IH.
Qed.

Lemma MapValue_wire_entries (m : ObjectValue_Map) :
  (length m <= length (MapValue_wire m))%nat.
Proof.
  induction m as [|kv m IH]; [reflexivity|].
  rewrite MapValue_wire_cons, length_app, FieldsEntry_wire_length.
  pose proof (tag_bytes_length PB_WT_STRING 1 eq_refl eq_refl). cbn [length]. lia.
Qed.

Lemma FieldValue_valid_object (m : ObjectValue_Map) :
  FieldValue_valid MIN_SECONDS MAX_SECONDS (ObjectValueFromMap m) = true ->
  sorted_keys m = true
  /\ forall k v, In (k, v) m -> FieldValue_valid MIN_SECONDS MAX_SECONDS v = true.
Proof.
  cbn [FieldValue_valid]. rewrite andb_true_iff, forallb_forall.
  intros [Hsorted Hall]. split; [exact Hsorted|].
  intros k v Hin. exact (Hall _ Hin).
Qed.

(** ** What the decoder returns with an OK status is in range *)

Lemma bind_Ret {A B : Type} (c : Run A) (k : A -> Run B) (y : B) :
  bind c k = Ret y -> exists x, c = Ret x /\ k x = Ret y.
Proof. destruct c as [x| |]; cbn [bind]; try discriminate. intros H. now exists x. Qed.

(** *** The bytes that a reader may still consume *)

Lemma pb_readbyte_left (s s' : pb_istream_t) (o : option byte) :
  pb_readbyte s = (o, s') ->
  match o with
  | Some _ => S (bytes_left s') = bytes_left s
  | None => s' = s
  end.
Proof.
  unfold pb_readbyte. destruct s as [st [|bl]]; cbn [bytes_left istate].
  - intros [= <- <-]. reflexivity.
  - destruct st as [|b st]; intros [= <- <-]; reflexivity.
Qed.

Lemma pb_decode_varint_loop_left (width : N) (n : nat) :
  forall (bitpos result : N) (s s' : pb_istream_t) (o : option N),
  pb_decode_varint_loop width n bitpos result s = (o, s') ->
  bytes_left s' <= bytes_left s
  /\ (o <> None -> bytes_left s' < bytes_left s).
Proof.
  induction n as [|n IH]; intros bitpos result s s' o; cbn [pb_decode_varint_loop].
  - intros [= <- <-]. split; [lia | congruence].
  - destruct (width <=? bitpos)%N; [intros [= <- <-]; split; [lia | congruence]|].
    destruct (pb_readbyte s) as [[b|] s1] eqn:Hb; pose proof (pb_readbyte_left _ _ _ Hb) as Hl; cbn iota in Hl.
    + destruct (N.testbit (Byte.to_N b) 7).
      * intros H. destruct (IH _ _ _ _ _ H) as [Hle _]. split; [lia | intros _; lia].
      * intros [= <- <-]. split; [lia | intros _; lia].
    + subst s1. intros [= <- <-]. split; [lia | congruence].
Qed.

(** *** The stream loops never run out of fuel *)

(** The count of rounds of the varint loop only stands for the test on
    [bitpos]: any count that reaches the width gives the same result. *)
Lemma pb_decode_varint_loop_fuel (width : N) (n : nat) :
  forall (m : nat) (bitpos result : N) (s : pb_istream_t),
  (width <= bitpos + 7 * N.of_nat n)%N ->
  (width <= bitpos + 7 * N.of_nat m)%N ->
  pb_decode_varint_loop width n bitpos result s
  = pb_decode_varint_loop width m bitpos result s.
Proof.
  induction n as [|n IH]; intros [|m] bitpos result s Hn Hm;
    cbn [pb_decode_varint_loop]; try reflexivity.
  - destruct (N.leb_spec width bitpos); [reflexivity | lia].
  - destruct (N.leb_spec width bitpos); [reflexivity | lia].
  - destruct (width <=? bitpos)%N; [reflexivity|].
    destruct (pb_readbyte s) as [[b|] s1]; [|reflexivity].
    destruct (N.testbit (Byte.to_N b) 7); [|reflexivity].
    apply IH; lia.
Qed.

Lemma pb_skip_varint_left (n : nat) :
  forall (s s' : pb_istream_t) (okb : bool),
  pb_skip_varint n s = (okb, s') -> bytes_left s' <= bytes_left s.
Proof.
  induction n as [|n IH]; intros s s' okb; cbn [pb_skip_varint].
  - intros [= <- <-]. lia.
  - destruct (pb_readbyte s) as [[b|] s1] eqn:Hb;
      pose proof (pb_readbyte_left _ _ _ Hb) as Hl; cbn iota in Hl.
    + destruct (N.testbit (Byte.to_N b) 7).
      * intros H. specialize (IH _ _ _ H). lia.
      * intros [= <- <-]. lia.
    + subst s1. intros [= <- <-]. lia.
Qed.

Lemma pb_skip_varint_fuel (n : nat) :
  forall (m : nat) (s : pb_istream_t),
  bytes_left s < n -> bytes_left s < m ->
  pb_skip_varint n s = pb_skip_varint m s.
Proof.
  induction n as [|n IH]; intros [|m] s Hn Hm; try lia. cbn [pb_skip_varint].
  destruct (pb_readbyte s) as [[b|] s1] eqn:Hb; [|reflexivity].
  pose proof (pb_readbyte_left _ _ _ Hb) as Hl; cbn iota in Hl.
  destruct (N.testbit (Byte.to_N b) 7); [|reflexivity].
  apply IH; lia.
Qed.

Lemma pb_read_left (s s' : pb_istream_t) (count : nat) (o : option (list byte)) :
  pb_read s count = (o, s') -> bytes_left s' <= bytes_left s.
Proof.
  unfold pb_read. destruct (bytes_left s <? count); [intros [= <- <-]; lia|].
  destruct (length (istate s) <? count); intros [= <- <-]; cbn [bytes_left]; lia.
Qed.

Lemma pb_skip_field_left (s s' : pb_istream_t) (wt : pb_wire_type_t) (okb : bool) :
  pb_skip_field s wt = (okb, s') -> bytes_left s' <= bytes_left s.
Proof.
  unfold pb_skip_field, read_ok, pb_decode_varint32.
  destruct (wt =? PB_WT_VARINT)%N; [apply pb_skip_varint_left|].
  destruct (wt =? PB_WT_64BIT)%N.
  { destruct (pb_read s 8) as [[x|] s1] eqn:Hr; intros [= <- <-];
      exact (pb_read_left _ _ _ _ Hr). }
  destruct (wt =? PB_WT_STRING)%N.
  { destruct (pb_decode_varint_loop 32 6 0 0 s) as [[len|] s1] eqn:Hv;
      destruct (pb_decode_varint_loop_left _ _ _ _ _ _ _ Hv) as [Hle _].
    - destruct (pb_read s1 (N.to_nat len)) as [[x|] s2] eqn:Hr; intros [= <- <-];
        pose proof (pb_read_left _ _ _ _ Hr); lia.
    - intros [= <- <-]. lia. }
  destruct (wt =? PB_WT_32BIT)%N.
  { destruct (pb_read s 4) as [[x|] s1] eqn:Hr; intros [= <- <-];
      exact (pb_read_left _ _ _ _ Hr). }
  intros [= <- <-]. lia.
Qed.

Lemma pb_decode_tag_left (s s' : pb_istream_t) (okb eof : bool) (tag : Tag) :
  pb_decode_tag s = ((okb, tag, eof), s') ->
  bytes_left s' <= bytes_left s
  /\ (okb = true -> bytes_left s' < bytes_left s /\ eof = false).
Proof.
  unfold pb_decode_tag, pb_decode_varint32.
  destruct (pb_decode_varint_loop 32 6 0 0 s) as [[temp|] s1] eqn:Hv;
    destruct (pb_decode_varint_loop_left _ _ _ _ _ _ _ Hv) as [Hle Hlt].
  - destruct (temp =? 0)%N; intros [= <- <- <- <-]; split; try lia; try discriminate.
    intros _. split; [apply Hlt; discriminate | reflexivity].
  - intros [= <- <- <- <-]. split; [lia | discriminate].
Qed.

Lemma pb_make_string_substream_left (s s' : pb_istream_t) (o : option pb_istream_t) :
  pb_make_string_substream s = (o, s') ->
  bytes_left s' <= bytes_left s
  /\ forall sub, o = Some sub -> bytes_left sub < bytes_left s.
Proof.
  unfold pb_make_string_substream, pb_decode_varint32.
  destruct (pb_decode_varint_loop 32 6 0 0 s) as [[size|] s1] eqn:Hv;
    destruct (pb_decode_varint_loop_left _ _ _ _ _ _ _ Hv) as [Hle Hlt].
  - destruct (N.ltb_spec (N.of_nat (bytes_left s1)) size).
    + intros [= <- <-]. split; [lia | discriminate].
    + intros [= <- <-]. cbn [bytes_left]. split; [lia|].
      intros sub [= <-]. cbn [bytes_left].
      assert (bytes_left s1 < bytes_left s) by (apply Hlt; discriminate). lia.
  - intros [= <- <-]. split; [lia | discriminate].
Qed.

(** The field loop of [pb_decode] consumes a byte in every round, so
    any count of rounds from [bytes_left] on gives the same result. *)
Lemma pb_decode_Timestamp_fields_fuel (n : nat) :
  forall (m : nat) (s : pb_istream_t) (d : google_protobuf_Timestamp),
  bytes_left s <= n -> bytes_left s <= m ->
  pb_decode_Timestamp_fields n s d = pb_decode_Timestamp_fields m s d.
Proof.
  induction n as [|n IH]; intros [|m] s d Hn Hm; cbn [pb_decode_Timestamp_fields];
    try reflexivity;
    destruct (Nat.eqb_spec (bytes_left s) 0) as [E|E]; try reflexivity; try lia.
  destruct (pb_decode_tag s) as [[[okb tag] eof] s1] eqn:Ht.
  destruct (pb_decode_tag_left _ _ _ _ _ Ht) as [_ Hlt].
  destruct okb; [|reflexivity]. destruct (Hlt eq_refl) as [Hlt1 _].
  unfold pb_decode_varint.
  destruct (field_number tag =? google_protobuf_Timestamp_seconds_tag)%N.
  { destruct (pb_decode_varint_loop 64 11 0 0 s1) as [[value|] s2] eqn:Hv;
      [|reflexivity].
    destruct (pb_decode_varint_loop_left _ _ _ _ _ _ _ Hv) as [Hle _].
    apply IH; lia. }
  destruct (field_number tag =? google_protobuf_Timestamp_nanos_tag)%N.
  { destruct (pb_decode_varint_loop 64 11 0 0 s1) as [[value|] s2] eqn:Hv;
      [|reflexivity].
    destruct (pb_decode_varint_loop_left _ _ _ _ _ _ _ Hv) as [Hle _].
    apply IH; lia. }
  destruct (pb_skip_field s1 (wire_type tag)) as [[|] s2] eqn:Hs; [|reflexivity].
  pose proof (pb_skip_field_left _ _ _ _ Hs). apply IH; lia.
Qed.

Lemma ReadTag_left (r : Reader.t) :
  exists tag r',
    Reader.ReadTag r = Ret (tag, r')
    /\ Reader.bytes_left r' <= Reader.bytes_left r
    /\ (ok (Reader.status r') = true -> Reader.bytes_left r' < Reader.bytes_left r).
Proof.
  unfold Reader.ReadTag, Reader.bytes_left, Reader.status.
  destruct r as [[|] stream]; cbn [Reader.status_ Reader.stream_ ok negb].
  - destruct (pb_decode_tag stream) as [[[okb tag] eof] stream'] eqn:Ht.
    destruct (pb_decode_tag_left _ _ _ _ _ Ht) as [Hle Hok]. destruct okb.
    + destruct (Hok eq_refl) as [Hlt ->]. cbn [negb FIREBASE_ASSERT bind].
      eexists _, _. split; [reflexivity|]. cbn. split; [lia | intros _; lia].
    + eexists _, _. split; [reflexivity|]. cbn. split; [lia | discriminate].
  - eexists _, _. split; [reflexivity|]. cbn. split; [lia | discriminate].
Qed.

Lemma ReadString_left (r r' : Reader.t) (x : list byte) :
  Reader.ReadString r = Ret (x, r') ->
  Reader.bytes_left r' <= Reader.bytes_left r
  /\ (ok (Reader.status r') = true -> ok (Reader.status r) = true).
Proof.
  unfold Reader.ReadString, Reader.bytes_left, Reader.status.
  destruct r as [[|] stream]; cbn [Reader.status_ Reader.stream_ ok negb].
  - destruct (pb_make_string_substream stream) as [[sub|] stream'] eqn:Hs;
      destruct (pb_make_string_substream_left _ _ _ Hs) as [Hle _].
    + destruct (pb_read sub (bytes_left sub)) as [[result|] sub'].
      * destruct (bytes_left sub' =? 0)%nat; cbn [FIREBASE_ASSERT bind];
          [|discriminate]. intros [= <- <-]. cbn. split; [lia | reflexivity].
      * intros [= <- <-]. cbn. split; [lia | reflexivity].
    + intros [= <- <-]. cbn. split; [lia | reflexivity].
  - intros [= <- <-]. cbn. split; [lia | discriminate].
Qed.

Lemma ReadString_total (r : Reader.t) : Reader.ReadString r <> OutOfFuel.
Proof.
  unfold Reader.ReadString. destruct (negb (ok (Reader.status_ r))); [discriminate|].
  destruct (pb_make_string_substream (Reader.stream_ r)) as [[sub|] stream'];
    [|discriminate].
  destruct (pb_read sub (bytes_left sub)) as [[result|] sub']; [|discriminate].
  destruct (bytes_left sub' =? 0)%nat; discriminate.
Qed.

Lemma ReadNestedMessage_left {T : Type} (default : T)
  (f : Reader.t -> Run (T * Reader.t)) (r r' : Reader.t) (x : T) :
  Reader.ReadNestedMessage default f r = Ret (x, r') ->
  Reader.bytes_left r' <= Reader.bytes_left r.
Proof.
  unfold Reader.ReadNestedMessage, Reader.bytes_left.
  destruct (negb (ok (Reader.status_ r))); [intros [= <- <-]; lia|].
  destruct (pb_make_string_substream (Reader.stream_ r)) as [[sub|] stream'] eqn:Hs;
    destruct (pb_make_string_substream_left _ _ _ Hs) as [Hle _].
  - destruct (f _) as [[message sub']| |]; cbn [bind]; try discriminate.
    destruct (bytes_left (Reader.stream_ sub') =? 0)%nat; cbn [FIREBASE_ASSERT bind];
      [|discriminate].
    intros [= <- <-]. cbn. lia.
  - intros [= <- <-]. cbn. lia.
Qed.

Lemma ReadNestedMessage_total {T : Type} (default : T)
  (f : Reader.t -> Run (T * Reader.t)) (r : Reader.t) :
  (forall sub, Reader.bytes_left sub < Reader.bytes_left r -> f sub <> OutOfFuel) ->
  Reader.ReadNestedMessage default f r <> OutOfFuel.
Proof.
  intros Hf. unfold Reader.ReadNestedMessage, Reader.bytes_left in *.
  destruct (negb (ok (Reader.status_ r))); [discriminate|].
  destruct (pb_make_string_substream (Reader.stream_ r)) as [[sub|] stream'] eqn:Hs;
    destruct (pb_make_string_substream_left _ _ _ Hs) as [Hle Hsub]; [|discriminate].
  specialize (Hf {| Reader.status_ := OK; Reader.stream_ := sub |} (Hsub _ eq_refl)).
  destruct (f _) as [[message sub']| |]; cbn [bind]; try discriminate; try contradiction.
  destruct (bytes_left (Reader.stream_ sub') =? 0)%nat; discriminate.
Qed.

Lemma ReadNestedMessage_ok {T : Type} (default : T)
  (f : Reader.t -> Run (T * Reader.t)) (r r' : Reader.t) (x : T) :
  Reader.ReadNestedMessage default f r = Ret (x, r') ->
  ok (Reader.status r') = true ->
  ok (Reader.status r) = true
  /\ exists sub sub', f sub = Ret (x, sub') /\ ok (Reader.status sub') = true.
Proof.
  unfold Reader.ReadNestedMessage, Reader.status.
  destruct (ok (Reader.status_ r)) eqn:Hr; cbn [negb];
    [|intros [= <- <-]; congruence].
  destruct (pb_make_string_substream (Reader.stream_ r)) as [[sub|] stream'];
    [|intros [= <- <-]; discriminate].
  destruct (f _) as [[message sub']| |] eqn:Hf; cbn [bind]; try discriminate.
  destruct (bytes_left (Reader.stream_ sub') =? 0)%nat; cbn [FIREBASE_ASSERT bind];
    [|discriminate].
  intros [= <- <-]. cbn [Reader.status_]. intros Hok. split; [reflexivity|].
  eexists _, _. split; [exact Hf | exact Hok].
Qed.

Lemma In_Map_emplace (kv x : list byte * FieldValue) (p : ObjectValue_Map) :
  In x (Map_emplace kv p) -> x = kv \/ In x p.
Proof.
  induction p as [|[k v] p IH]; cbn [Map_emplace].
  - intros [<- | []]. now left.
  - destruct (string_lt (fst kv) k); [intros [<- | H]; [now left | now right]|].
    destruct (string_lt k (fst kv)); [|now right].
    intros [<- | H]; [right; now left|].
    destruct (IH H) as [-> | Hin]; [now left | right; now right].
Qed.

Lemma Map_emplace_sorted (kv : list byte * FieldValue) (p : ObjectValue_Map) :
  sorted_keys p = true -> sorted_keys (Map_emplace kv p) = true.
Proof.
  induction p as [|[k v] p IH]; intros Hsorted; [reflexivity|].
  cbn [sorted_keys fst] in Hsorted. apply andb_true_iff in Hsorted.
  destruct Hsorted as [Hhead Htail]. rewrite forallb_forall in Hhead.
  cbn [Map_emplace].
  destruct (string_lt (fst kv) k) eqn:Hlt.
  - cbn [sorted_keys forallb fst]. rewrite Hlt, Htail, !andb_true_r. cbn [andb].
    apply andb_true_iff. split; [|apply forallb_forall; exact Hhead].
    apply forallb_forall. intros x Hx.
    apply (string_lt_trans _ _ _ Hlt). now apply Hhead.
  - destruct (string_lt k (fst kv)) eqn:Hgt.
    + cbn [sorted_keys fst]. rewrite (IH Htail), andb_true_r.
      apply forallb_forall. intros x Hx.
      destruct (In_Map_emplace _ _ _ Hx) as [-> | Hin]; [exact Hgt | now apply Hhead].
    + cbn [sorted_keys fst]. rewrite Htail, andb_true_r.
      apply forallb_forall. exact Hhead.
Qed.

Lemma Map_emplace_valid (kv : list byte * FieldValue) (p : ObjectValue_Map) :
  FieldValue_valid MIN_SECONDS MAX_SECONDS (snd kv) = true ->
  values_valid MIN_SECONDS MAX_SECONDS p = true -> values_valid MIN_SECONDS MAX_SECONDS (Map_emplace kv p) = true.
Proof.
  unfold values_valid. rewrite !forallb_forall. intros Hkv Hp x Hx.
  destruct (In_Map_emplace _ _ _ Hx) as [-> | Hin]; [now destruct kv | now apply Hp].
Qed.

Lemma pb_decode_Timestamp_fields_int64 (n : nat) :
  forall (s s' : pb_istream_t) (d d' : google_protobuf_Timestamp) (okb : bool),
  pb_decode_Timestamp_fields n s d = (okb, d', s') ->
  in_int64b (pb_seconds d) = true -> in_int64b (pb_seconds d') = true.
Proof.
  induction n as [|n IH]; intros s s' d d' okb; cbn [pb_decode_Timestamp_fields].
  - destruct (bytes_left s =? 0)%nat; intros [= <- <- <-]; auto.
  - destruct (bytes_left s =? 0)%nat; [intros [= <- <- <-]; auto|].
    destruct (pb_decode_tag s) as [[[[|] tag] eof] s1]; [|intros [= <- <- <-]; auto].
    destruct (field_number tag =? google_protobuf_Timestamp_seconds_tag)%N.
    { destruct (pb_decode_varint s1) as [[value|] s2]; [|intros [= <- <- <-]; auto].
      intros H _. apply (IH _ _ _ _ _ H). apply in_int64b_to_int64. }
    destruct (field_number tag =? google_protobuf_Timestamp_nanos_tag)%N.
    { destruct (pb_decode_varint s1) as [[value|] s2]; [|intros [= <- <- <-]; auto].
      intros H Hd. apply (IH _ _ _ _ _ H). exact Hd. }
    destruct (pb_skip_field s1 (wire_type tag)) as [[|] s2]; [|intros [= <- <- <-]; auto].
    intros H Hd. apply (IH _ _ _ _ _ H). exact Hd.
Qed.

Lemma DecodeTimestamp_valid (r r' : Reader.t) (t : Timestamp) :
  DecodeTimestamp MIN_SECONDS MAX_SECONDS r = Ret (t, r') ->
  ok (Reader.status r') = true ->
  Timestamp_valid MIN_SECONDS MAX_SECONDS t = true.
Proof.
  unfold DecodeTimestamp, Reader.ReadNanopbMessage, Reader.status.
  destruct r as [st stream]. cbn [Reader.status_ Reader.stream_].
  assert (Hcheck : forall (proto : google_protobuf_Timestamp) (reader : Reader.t),
    in_int64b (pb_seconds proto) = true ->
    (if (pb_seconds proto <? MIN_SECONDS)%Z
     then Ret (Timestamp_default, Reader.set_status DataLoss reader)
     else if (MAX_SECONDS <? pb_seconds proto)%Z
          then Ret (Timestamp_default, Reader.set_status DataLoss reader)
          else if (pb_nanos proto <? 0)%Z || (999999999 <? pb_nanos proto)%Z
               then Ret (Timestamp_default, Reader.set_status DataLoss reader)
               else Ret ({| seconds := pb_seconds proto; nanoseconds := pb_nanos proto |},
                         reader)) = Ret (t, r') ->
    ok (Reader.status_ r') = true ->
    ok (Reader.status_ reader) = true
    /\ Timestamp_valid MIN_SECONDS MAX_SECONDS t = true).
  { intros proto reader H64.
    destruct (Z.ltb_spec (pb_seconds proto) MIN_SECONDS);
      [intros [= <- <-]; discriminate|].
    destruct (Z.ltb_spec MAX_SECONDS (pb_seconds proto));
      [intros [= <- <-]; discriminate|].
    destruct (Z.ltb_spec (pb_nanos proto) 0); cbn [orb];
      [intros [= <- <-]; discriminate|].
    destruct (Z.ltb_spec 999999999 (pb_nanos proto));
      [intros [= <- <-]; discriminate|].
    intros [= <- <-] Hok. split; [exact Hok|].
    unfold Timestamp_valid. cbn [seconds nanoseconds]. rewrite H64.
    repeat (apply andb_true_iff; split); try reflexivity; apply Z.leb_le; lia. }
  destruct st; cbn [ok negb bind].
  - unfold pb_decode_Timestamp.
    destruct (pb_decode_Timestamp_fields _ _ _) as [[okb dest] stream'] eqn:Hd.
    pose proof (pb_decode_Timestamp_fields_int64 _ _ _ _ _ _ Hd eq_refl) as H64.
    destruct okb; cbn [bind]; intros H Hok;
      destruct (Hcheck _ _ H64 H Hok) as [Hreader Hvalid];
      [exact Hvalid | discriminate].
  - intros H Hok.
    destruct (Hcheck google_protobuf_Timestamp_init_zero _ eq_refl H Hok)
      as [Hreader _].
    discriminate.
Qed.

Lemma DecodeFieldsEntry_valid (dec : Reader.t -> Run (FieldValue * Reader.t))
  (r r' : Reader.t) (kv : list byte * FieldValue) :
  yields_valid MIN_SECONDS MAX_SECONDS dec ->
  DecodeFieldsEntry dec r = Ret (kv, r') ->
  ok (Reader.status r') = true ->
  FieldValue_valid MIN_SECONDS MAX_SECONDS (snd kv) = true.
Proof.
  intros Hdec. unfold DecodeFieldsEntry.
  destruct (ReadTag_left r) as (tag & r1 & -> & _). cbn [bind].
  destruct (ok (Reader.status r1)); cbn [negb]; [|intros [= <- <-]; reflexivity].
  destruct (field_number tag =? _)%N; cbn [FIREBASE_ASSERT bind]; [|discriminate].
  destruct (wire_type tag =? _)%N; cbn [FIREBASE_ASSERT bind]; [|discriminate].
  destruct (Reader.ReadString r1) as [[key r2]| |]; cbn [bind]; try discriminate.
  destruct (ReadTag_left r2) as (tag' & r3 & -> & _). cbn [bind].
  destruct (ok (Reader.status r3)); cbn [negb]; [|intros [= <- <-]; reflexivity].
  destruct (field_number tag' =? _)%N; cbn [FIREBASE_ASSERT bind]; [|discriminate].
  destruct (wire_type tag' =? _)%N; cbn [FIREBASE_ASSERT bind]; [|discriminate].
  destruct (Reader.ReadNestedMessage NullValue dec r3) as [[value r4]| |] eqn:Hn;
    cbn [bind]; try discriminate.
  intros [= <- <-] Hok. cbn [snd].
  destruct (ReadNestedMessage_ok _ _ _ _ _ Hn Hok) as (_ & sub & sub' & Hsub & Hok').
  exact (Hdec _ _ _ Hsub Hok').
Qed.

Lemma DecodeObject_loop_valid (dec : Reader.t -> Run (FieldValue * Reader.t)) :
  yields_valid MIN_SECONDS MAX_SECONDS dec ->
  forall (n : nat) (r r' : Reader.t) (p m : ObjectValue_Map),
  DecodeObject_loop dec n r p = Ret (m, r') ->
  ok (Reader.status r') = true ->
  sorted_keys p = true -> values_valid MIN_SECONDS MAX_SECONDS p = true ->
  sorted_keys m = true /\ values_valid MIN_SECONDS MAX_SECONDS m = true.
Proof.
  intros Hdec. induction n as [|n IH]; intros r r' p m; cbn [DecodeObject_loop].
  - destruct (Reader.bytes_left r =? 0)%nat; [|discriminate].
    intros [= <- <-]. auto.
  - destruct (Reader.bytes_left r =? 0)%nat; [intros [= <- <-]; auto|].
    destruct (ReadTag_left r) as (tag & r1 & -> & _). cbn [bind].
    destruct (ok (Reader.status r1)) eqn:Hok1; cbn [negb];
      [|intros [= <- <-]; congruence].
    destruct (field_number tag =? _)%N; cbn [FIREBASE_ASSERT bind]; [|discriminate].
    destruct (wire_type tag =? _)%N; cbn [FIREBASE_ASSERT bind]; [|discriminate].
    destruct (Reader.ReadNestedMessage value_type_default (DecodeFieldsEntry dec) r1)
      as [[fv r2]| |] eqn:Hn; cbn [bind]; try discriminate.
    destruct (ok (Reader.status r2)) eqn:Hok2; cbn [negb];
      [|intros [= <- <-]; congruence].
    destruct (Map_contains (fst fv) p); cbn [negb FIREBASE_ASSERT bind]; [discriminate|].
    intros H Hok Hsorted Hvalid.
    destruct (ReadNestedMessage_ok _ _ _ _ _ Hn Hok2) as (_ & sub & sub' & Hsub & Hok').
    apply (IH _ _ _ _ H Hok).
    + now apply Map_emplace_sorted.
    + apply Map_emplace_valid; [|exact Hvalid].
      exact (DecodeFieldsEntry_valid dec _ _ _ Hdec Hsub Hok').
Qed.

Lemma DecodeFieldValueImpl_valid (fuel : nat) :
  yields_valid MIN_SECONDS MAX_SECONDS (DecodeFieldValueImpl MIN_SECONDS MAX_SECONDS fuel).
Proof.
  induction fuel as [|fuel IH]; intros r v r'; cbn [DecodeFieldValueImpl];
    [discriminate|].
  destruct (ReadTag_left r) as (tag & r1 & -> & _). cbn [bind].
  destruct (ok (Reader.status r1)); cbn [negb]; [|intros [= <- <-]; reflexivity].
  destruct (check_wire_type tag r1) as [r2| |]; cbn [bind]; try discriminate.
  destruct (ok (Reader.status r2)); cbn [negb]; [|intros [= <- <-]; reflexivity].
  destruct (field_number tag =? _)%N.
  { destruct (Reader.ReadNull r2); cbn [bind]; try discriminate.
    intros [= <- <-]. reflexivity. }
  destruct (field_number tag =? _)%N.
  { destruct (Reader.ReadBool r2) as [[b r3]| |]; cbn [bind]; try discriminate.
    intros [= <- <-]. reflexivity. }
  destruct (field_number tag =? _)%N.
  { unfold Reader.ReadInteger.
    destruct (Reader.ReadVarint r2) as [[u r3]| |]; cbn [bind]; try discriminate.
    intros [= <- <-] _. apply in_int64b_to_int64. }
  destruct (field_number tag =? _)%N.
  { destruct (Reader.ReadString r2) as [[x r3]| |]; cbn [bind]; try discriminate.
    intros [= <- <-]. reflexivity. }
  destruct (field_number tag =? _)%N.
  { destruct (Reader.ReadNestedMessage Timestamp_default _ r2) as [[t r3]| |] eqn:Hn;
      cbn [bind]; try discriminate.
    intros [= <- <-] Hok. cbn [FieldValue_valid].
    destruct (ReadNestedMessage_ok _ _ _ _ _ Hn Hok) as (_ & sub & sub' & Hsub & Hok').
    exact (DecodeTimestamp_valid _ _ _ Hsub Hok'). }
  destruct (field_number tag =? _)%N; [|discriminate].
  unfold DecodeObject.
  destruct (ok (Reader.status r2)); cbn [negb bind];
    [|intros [= <- <-]; reflexivity].
  destruct (Reader.ReadNestedMessage [] _ r2) as [[m r3]| |] eqn:Hn;
    cbn [bind]; try discriminate.
  intros [= <- <-] Hok.
  destruct (ReadNestedMessage_ok _ _ _ _ _ Hn Hok) as (_ & sub & sub' & Hsub & Hok').
  cbn beta in Hsub.
  destruct (ok (Reader.status sub)); cbn [negb] in Hsub;
    [|injection Hsub as <- <-; reflexivity].
  destruct (DecodeObject_loop_valid _ IH _ _ _ _ _ Hsub Hok' eq_refl eq_refl)
    as [Hsorted Hvalid].
  cbn [FieldValue_valid]. fold (values_valid MIN_SECONDS MAX_SECONDS m). now rewrite Hsorted, Hvalid.
Qed.

(** ** The fuel of the model is enough *)

Lemma DecodeFieldsEntry_total (dec : Reader.t -> Run (FieldValue * Reader.t))
  (r : Reader.t) :
  (forall sub, Reader.bytes_left sub < Reader.bytes_left r -> dec sub <> OutOfFuel) ->
  DecodeFieldsEntry dec r <> OutOfFuel.
Proof.
  intros Hdec. unfold DecodeFieldsEntry.
  destruct (ReadTag_left r) as (tag & r1 & -> & Hle1 & _). cbn [bind].
  destruct (ok (Reader.status r1)); cbn [negb]; [|discriminate].
  destruct (field_number tag =? _)%N; cbn [FIREBASE_ASSERT bind]; [|discriminate].
  destruct (wire_type tag =? _)%N; cbn [FIREBASE_ASSERT bind]; [|discriminate].
  pose proof (ReadString_total r1) as Hs.
  destruct (Reader.ReadString r1) as [[key r2]| |] eqn:Hr2; cbn [bind];
    try discriminate; try contradiction.
  destruct (ReadString_left _ _ _ Hr2) as [Hle2 _].
  destruct (ReadTag_left r2) as (tag' & r3 & -> & Hle3 & _). cbn [bind].
  destruct (ok (Reader.status r3)); cbn [negb]; [|discriminate].
  destruct (field_number tag' =? _)%N; cbn [FIREBASE_ASSERT bind]; [|discriminate].
  destruct (wire_type tag' =? _)%N; cbn [FIREBASE_ASSERT bind]; [|discriminate].
  assert (Hn : Reader.ReadNestedMessage NullValue dec r3 <> OutOfFuel).
  { apply ReadNestedMessage_total. intros sub Hsub. apply Hdec. lia. }
  destruct (Reader.ReadNestedMessage NullValue dec r3) as [[value r4]| |];
    cbn [bind]; try discriminate; contradiction.
Qed.

Lemma DecodeObject_loop_total (dec : Reader.t -> Run (FieldValue * Reader.t)) (n : nat) :
  forall (r : Reader.t) (p : ObjectValue_Map),
  Reader.bytes_left r <= n ->
  (forall sub, Reader.bytes_left sub < Reader.bytes_left r -> dec sub <> OutOfFuel) ->
  DecodeObject_loop dec n r p <> OutOfFuel.
Proof.
  induction n as [|n IH]; intros r p Hn Hdec; cbn [DecodeObject_loop].
  - destruct (Nat.eqb_spec (Reader.bytes_left r) 0); [discriminate | lia].
  - destruct (Reader.bytes_left r =? 0)%nat; [discriminate|].
    destruct (ReadTag_left r) as (tag & r1 & -> & Hle1 & Hlt1). cbn [bind].
    destruct (ok (Reader.status r1)); cbn [negb]; [|discriminate].
    specialize (Hlt1 eq_refl).
    destruct (field_number tag =? _)%N; cbn [FIREBASE_ASSERT bind]; [|discriminate].
    destruct (wire_type tag =? _)%N; cbn [FIREBASE_ASSERT bind]; [|discriminate].
    assert (Hnested : Reader.ReadNestedMessage value_type_default
                        (DecodeFieldsEntry dec) r1 <> OutOfFuel).
    { apply ReadNestedMessage_total. intros sub Hsub.
      apply DecodeFieldsEntry_total. intros sub' Hsub'. apply Hdec. lia. }
    destruct (Reader.ReadNestedMessage value_type_default (DecodeFieldsEntry dec) r1)
      as [[fv r2]| |] eqn:Hr2; cbn [bind]; try discriminate; try contradiction.
    pose proof (ReadNestedMessage_left _ _ _ _ _ Hr2) as Hle2.
    destruct (ok (Reader.status r2)); cbn [negb]; [|discriminate].
    destruct (Map_contains (fst fv) p); cbn [negb FIREBASE_ASSERT bind]; [discriminate|].
    apply IH; [lia|]. intros sub Hsub. apply Hdec. lia.
Qed.

Lemma check_wire_type_left (tag : Tag) (r r' : Reader.t) :
  check_wire_type tag r = Ret r' -> Reader.bytes_left r' = Reader.bytes_left r.
Proof.
  unfold check_wire_type.
  destruct (is_varint_field _);
    [destruct (negb _); intros [= <-]; reflexivity|].
  destruct (is_string_field _);
    [destruct (negb _); intros [= <-]; reflexivity|].
  discriminate.
Qed.

Lemma DecodeTimestamp_total (r : Reader.t) :
  DecodeTimestamp MIN_SECONDS MAX_SECONDS r <> OutOfFuel.
Proof.
  unfold DecodeTimestamp, Reader.ReadNanopbMessage.
  destruct (negb (ok (Reader.status_ r))); cbn [bind].
  - repeat match goal with |- context [if ?c then _ else _] => destruct c end;
      discriminate.
  - destruct (pb_decode_Timestamp (Reader.stream_ r)) as [[[|] dest] stream'];
      cbn [bind];
      repeat match goal with |- context [if ?c then _ else _] => destruct c end;
      discriminate.
Qed.

Lemma DecodeFieldValueImpl_total (fuel : nat) :
  forall r : Reader.t, Reader.bytes_left r < fuel ->
  DecodeFieldValueImpl MIN_SECONDS MAX_SECONDS fuel r <> OutOfFuel.
Proof.
  induction fuel as [|fuel IH]; intros r Hfuel; [lia|]. cbn [DecodeFieldValueImpl].
  destruct (ReadTag_left r) as (tag & r1 & -> & Hle1 & Hlt1). cbn [bind].
  destruct (ok (Reader.status r1)); cbn [negb]; [|discriminate].
  specialize (Hlt1 eq_refl).
  destruct (check_wire_type tag r1) as [r2| |] eqn:Hc; cbn [bind]; try discriminate.
  - pose proof (check_wire_type_left _ _ _ Hc) as Hle2.
    destruct (ok (Reader.status r2)); cbn [negb]; [|discriminate].
    destruct (field_number tag =? _)%N.
    { unfold Reader.ReadNull, Reader.ReadVarint.
      destruct (negb (ok (Reader.status_ r2))); cbn [bind];
        [|destruct (pb_decode_varint _) as [[u|] s']; cbn [bind]];
        repeat match goal with |- context [if ?c then _ else _] => destruct c end;
        discriminate. }
    destruct (field_number tag =? _)%N.
    { unfold Reader.ReadBool, Reader.ReadVarint.
      destruct (negb (ok (Reader.status_ r2))); cbn [bind];
        [|destruct (pb_decode_varint _) as [[u|] s']; cbn [bind]];
        repeat match goal with |- context [if ?c then _ else _] => destruct c end;
        discriminate. }
    destruct (field_number tag =? _)%N.
    { unfold Reader.ReadInteger, Reader.ReadVarint.
      destruct (negb (ok (Reader.status_ r2))); cbn [bind];
        [|destruct (pb_decode_varint _) as [[u|] s']; cbn [bind]];
        discriminate. }
    destruct (field_number tag =? _)%N.
    { pose proof (ReadString_total r2).
      destruct (Reader.ReadString r2) as [[x r3]| |]; cbn [bind];
        try discriminate; contradiction. }
    destruct (field_number tag =? _)%N.
    { assert (Hn : Reader.ReadNestedMessage Timestamp_default
                     (DecodeTimestamp MIN_SECONDS MAX_SECONDS) r2 <> OutOfFuel).
      { apply ReadNestedMessage_total. intros sub _. apply DecodeTimestamp_total. }
      destruct (Reader.ReadNestedMessage Timestamp_default _ r2) as [[t r3]| |];
        cbn [bind]; try discriminate; contradiction. }
    destruct (field_number tag =? _)%N; [|discriminate].
    unfold DecodeObject.
    destruct (negb (ok (Reader.status r2))); cbn [bind]; [discriminate|].
    match goal with |- context [Reader.ReadNestedMessage [] ?f r2] =>
      assert (Hn : Reader.ReadNestedMessage [] f r2 <> OutOfFuel);
      [|destruct (Reader.ReadNestedMessage [] f r2) as [[m r3]| |];
        cbn [bind]; try discriminate; contradiction] end.
    apply ReadNestedMessage_total. intros sub Hsub.
    destruct (negb (ok (Reader.status sub))); [discriminate|].
    apply DecodeObject_loop_total; [lia|].
    intros sub' Hsub'. apply IH. lia.
  - unfold check_wire_type in Hc.
    destruct (is_varint_field _); [destruct (negb _); discriminate|].
    destruct (is_string_field _); [destruct (negb _); discriminate|].
    discriminate.
Qed.

(** C2, as amended.  For every input, and so for every single-byte
    corruption of a valid encoding, [Serializer::DecodeFieldValue] returns
    a value that is in range (not always the value that was encoded),
    or the status DATA_LOSS, or it aborts on a failed assertion; it never
    returns a value out of range. *)
Theorem decoded_value_in_range (bytes : list byte) :
  match Serializer_DecodeFieldValue MIN_SECONDS MAX_SECONDS bytes with
  | Ret (ValueOf v) => FieldValue_valid MIN_SECONDS MAX_SECONDS v = true
  | Ret (StatusOf s) => s = DataLoss
  | Abort => True
  | OutOfFuel => False
  end.
Proof.
  unfold Serializer_DecodeFieldValue.
  pose proof (DecodeFieldValueImpl_total (S (length bytes)) (Reader.Wrap bytes)
                (Nat.lt_succ_diag_r _)) as Htotal.
  destruct (DecodeFieldValueImpl _ _ _ _) as [[v r]| |] eqn:Hd; cbn [bind];
    [|exact I | contradiction].
  destruct (ok (Reader.status r)) eqn:Hok.
  - exact (DecodeFieldValueImpl_valid _ _ _ _ Hd Hok).
  - now destruct (Reader.status r).
Qed.

End Properties.

(** ** The key codec *)

Lemma string_eqb_eq (a b : list byte) : string_eqb a b = true <-> a = b.
Proof.
  unfold string_eqb. destruct (list_eq_dec Byte.byte_eq_dec a b); split;
    congruence.
Qed.

Lemma string_eqb_refl (a : list byte) : string_eqb a a = true.
Proof. now apply string_eqb_eq. Qed.

Lemma split_segments_segment (segment : list byte) :
  forallb (fun c => negb (Byte.eqb c "/"%byte)) segment = true ->
  forall current tail,
    split_segments current (segment ++ tail)
    = split_segments (rev segment ++ current) tail.
Proof.
  induction segment as [|c segment IH]; intros Hok current tail; [reflexivity|].
  cbn [forallb] in Hok. apply andb_true_iff in Hok. destruct Hok as [Hc Hok].
  cbn [app split_segments rev]. apply negb_true_iff in Hc. rewrite Hc.
  rewrite (IH Hok), <- app_assoc. reflexivity.
Qed.

Lemma close_segment_ok (segment : list byte) (rest : ResourcePath) :
  segment_ok segment = true ->
  close_segment (rev segment) rest = segment :: rest.
Proof.
  unfold segment_ok. rewrite andb_true_iff, negb_true_iff. intros [Hne _].
  destruct segment as [|c segment]; [discriminate|].
  unfold close_segment. destruct (rev (c :: segment)) eqn:E.
  - apply (f_equal (@length byte)) in E. rewrite length_rev in E. discriminate.
  - now rewrite <- E, rev_involutive.
Qed.

Lemma FromString_CanonicalString (p : ResourcePath) :
  forallb segment_ok p = true -> FromString (CanonicalString p) = p.
Proof.
  unfold FromString. induction p as [|segment p IH]; intros Hok; [reflexivity|].
  cbn [forallb] in Hok. apply andb_true_iff in Hok. destruct Hok as [Hs Hp].
  assert (Hslash : forallb (fun c => negb (Byte.eqb c "/"%byte)) segment = true).
  { unfold segment_ok in Hs. now apply andb_true_iff in Hs. }
  destruct p as [|segment' p].
  - cbn [CanonicalString]. rewrite <- (app_nil_r segment) at 1.
    rewrite (split_segments_segment _ Hslash), app_nil_r. cbn [split_segments].
    now apply close_segment_ok.
  - change (CanonicalString (segment :: segment' :: p))
      with (segment ++ "/"%byte :: CanonicalString (segment' :: p)).
    rewrite (split_segments_segment _ Hslash), app_nil_r. cbn [split_segments].
    change (Byte.eqb "/" "/") with true. cbn iota.
    rewrite (IH Hp). now apply close_segment_ok.
Qed.

Lemma CanonicalString_cons (segment : list byte) (p : ResourcePath) :
  CanonicalString (segment :: p)
  = segment ++ flat_map (fun s => "/"%byte :: s) p.
Proof.
  revert segment. induction p as [|segment' p IH]; intros segment.
  - cbn. now rewrite app_nil_r.
  - change (CanonicalString (segment :: segment' :: p))
      with (segment ++ "/"%byte :: CanonicalString (segment' :: p)).
    rewrite IH. reflexivity.
Qed.

(** C8.  For every [DocumentKey] and a [Serializer] with the same
    [DatabaseId], [DecodeKey (EncodeKey k) = k], where [EncodeKey] produces
    [projects/{project_id}/databases/{database_id}/documents/{path}]; and
    [DecodeKey] of a name whose project or database is not the configured
    one aborts.  The segments are taken non-empty and without [/], which
    the canonical form does not escape. *)
Theorem key_roundtrip (database_id_ : DatabaseId) (key : DocumentKey) :
  segment_ok (project_id database_id_) = true ->
  segment_ok (database_id database_id_) = true ->
  forallb segment_ok (path key) = true ->
  Serializer_DecodeKey database_id_ (Serializer_EncodeKey database_id_ key) = Ret key
  /\ Serializer_EncodeKey database_id_ key
     = str "projects/" ++ project_id database_id_
       ++ str "/databases/" ++ database_id database_id_
       ++ str "/documents" ++ flat_map (fun s => "/"%byte :: s) (path key)
  /\ forall name : list byte,
       segment_at (FromString name) 1 <> project_id database_id_
       \/ segment_at (FromString name) 3 <> database_id database_id_ ->
       Serializer_DecodeKey database_id_ name = Abort.
Proof.
  intros Hp Hd Hpath. split; [|split].
  - unfold Serializer_DecodeKey, Serializer_EncodeKey, EncodeResourceName,
      DecodeResourceName, EncodeDatabaseId.
    rewrite FromString_CanonicalString.
    + cbn [app]. unfold IsValidResourceName, segment_at. cbn [length nth Nat.leb].
      rewrite !string_eqb_refl. cbn [andb FIREBASE_ASSERT bind].
      unfold ExtractLocalPathFromResourceName, segment_at, PopFirst.
      cbn [length nth Nat.ltb Nat.leb skipn]. rewrite !string_eqb_refl.
      cbn [andb FIREBASE_ASSERT bind]. now destruct key.
    + cbn [app forallb]. rewrite Hp, Hd, Hpath. reflexivity.
  - unfold Serializer_EncodeKey, EncodeResourceName, EncodeDatabaseId. cbn [app].
    rewrite CanonicalString_cons. cbn [flat_map]. reflexivity.
  - intros name Hdiff. unfold Serializer_DecodeKey, DecodeResourceName.
    destruct (IsValidResourceName (FromString name)); cbn [FIREBASE_ASSERT bind];
      [|reflexivity].
    destruct (string_eqb (segment_at (FromString name) 1) (project_id database_id_))
      eqn:E1; cbn [FIREBASE_ASSERT bind]; [|reflexivity].
    destruct (string_eqb (segment_at (FromString name) 3) (database_id database_id_))
      eqn:E3; cbn [FIREBASE_ASSERT bind]; [|reflexivity].
    apply string_eqb_eq in E1, E3. destruct Hdiff; contradiction.
Qed.

(** * The claims at concrete inputs *)

Lemma FieldValue_roundtrip_witness :
  FieldValue_valid example_MIN_SECONDS example_MAX_SECONDS example_nested = true
  /\ Serializer_EncodeFieldValue example_nested []
     = Ret (OK, FieldValue_wire example_nested)
  /\ example_decode (FieldValue_wire example_nested) = Ret (ValueOf example_nested).
Proof.
  split; [reflexivity|]. split; [vm_compute; reflexivity|].
  apply (FieldValue_roundtrip example_MIN_SECONDS example_MAX_SECONDS
           example_nested OK (FieldValue_wire example_nested));
    vm_compute; reflexivity.
Defined.

(** C2, as stated, fails: one changed byte turns the encoding of 42 into
    that of 43, which is returned with an OK status; and one changed byte
    turns the tag of Null into the tag of an unknown field, on which the
    decoder aborts. *)
Lemma corruption_counterexample :
  ~ (forall (v : FieldValue) (b b' : list byte),
       FieldValue_valid example_MIN_SECONDS example_MAX_SECONDS v = true ->
       Serializer_EncodeFieldValue v [] = Ret (OK, b) ->
       single_byte_corruption b b' = true ->
       example_decode b' = Ret (ValueOf v)
       \/ example_decode b' = Ret (StatusOf DataLoss))
  /\ ~ (forall (v : FieldValue) (b b' : list byte),
          FieldValue_valid example_MIN_SECONDS example_MAX_SECONDS v = true ->
          Serializer_EncodeFieldValue v [] = Ret (OK, b) ->
          single_byte_corruption b b' = true ->
          example_decode b' <> Abort).
Proof.
  split.
  - intros H.
    destruct (H (IntegerValue 42) [x10; x2a] [x10; x2b] eq_refl eq_refl eq_refl)
      as [E | E]; vm_compute in E; discriminate E.
  - intros H.
    apply (H NullValue [x58; x00] [x60; x00] eq_refl eq_refl eq_refl).
    vm_compute. reflexivity.
Qed.

(** C3, as amended.  [FieldValue::Null] encodes to [58 00];
    [Timestamp(seconds=1, nanos=2)] encodes to [52 04 08 01 10 02]; the
    object [{a: true}] encodes to [32 09 0A 07 0A 01 61 12 02 08 01]: the
    [MapValue] has nine bytes and its entry seven. *)
Theorem encode_reference_bytes :
  Serializer_EncodeFieldValue NullValue [] = Ret (OK, [x58; x00])
  /\ Serializer_EncodeFieldValue
       (TimestampValue {| seconds := 1; nanoseconds := 2 |}) []
     = Ret (OK, [x52; x04; x08; x01; x10; x02])
  /\ Serializer_EncodeFieldValue example_object []
     = Ret (OK, [x32; x09; x0a; x07; x0a; x01; x61; x12; x02; x08; x01]).
Proof. repeat split; vm_compute; reflexivity. Qed.

(** C3, as stated, fails on the object: the bytes of the claim declare a
    [MapValue] of eight bytes and an entry of six, one less than the
    encoder writes (and than the bytes that follow), and the decoder
    does not take them. *)
Lemma encode_object_counterexample :
  Serializer_EncodeFieldValue example_object []
  <> Ret (OK, [x32; x08; x0a; x06; x0a; x01; x61; x12; x02; x08; x01])
  /\ example_decode [x32; x08; x0a; x06; x0a; x01; x61; x12; x02; x08; x01]
     <> Ret (ValueOf example_object).
Proof. split; vm_compute; discriminate. Qed.

Lemma trailing_bytes_ignored_witness :
  FieldValue_valid example_MIN_SECONDS example_MAX_SECONDS example_object = true
  /\ Serializer_EncodeFieldValue example_object []
     = Ret (OK, [x32; x09; x0a; x07; x0a; x01; x61; x12; x02; x08; x01])
  /\ example_decode
       ([x32; x09; x0a; x07; x0a; x01; x61; x12; x02; x08; x01] ++ [x58; x00])
     = Ret (ValueOf example_object).
Proof.
  split; [reflexivity|]. split; [vm_compute; reflexivity|].
  apply (trailing_bytes_ignored example_MIN_SECONDS example_MAX_SECONDS
           example_object OK); vm_compute; reflexivity.
Defined.

(** C4, as stated, fails: after the value of [58 00 00] is read one byte
    is left, and the value is returned with an OK status. *)
Lemma trailing_bytes_counterexample :
  ~ (forall (bytes : list byte) (fv : FieldValue) (reader : Reader.t),
       DecodeFieldValueImpl example_MIN_SECONDS example_MAX_SECONDS
         (S (length bytes)) (Reader.Wrap bytes) = Ret (fv, reader) ->
       Reader.bytes_left reader <> 0 ->
       example_decode bytes <> Ret (ValueOf fv)).
Proof.
  intros H.
  apply (H [x58; x00; x00] NullValue
           {| Reader.status_ := OK;
              Reader.stream_ := {| istate := [x00]; bytes_left := 1 |} |}).
  - vm_compute. reflexivity.
  - cbn. discriminate.
  - vm_compute. reflexivity.
Qed.

(** C5, as stated, fails: the [MapValue] with the entry [a: true] twice
    is not answered with a DATA_LOSS status. *)
Lemma duplicate_key_counterexample :
  example_decode
    [x32; x12; x0a; x07; x0a; x01; x61; x12; x02; x08; x01;
               x0a; x07; x0a; x01; x61; x12; x02; x08; x01]
  <> Ret (StatusOf DataLoss)
  /\ example_decode
       [x32; x12; x0a; x07; x0a; x01; x61; x12; x02; x08; x01;
                  x0a; x07; x0a; x01; x61; x12; x02; x08; x01]
     = Abort.
Proof. split; vm_compute; [discriminate | reflexivity]. Qed.

Lemma unknown_field_number_aborts_witness :
  Reader.ReadTag (Reader.Wrap [x60; x00])
  = Ret (mkTag PB_WT_VARINT 12,
         {| Reader.status_ := OK;
            Reader.stream_ := {| istate := [x00]; bytes_left := 1 |} |})
  /\ expected_wire_type 12 = None
  /\ example_decode [x60; x00] = Abort.
Proof.
  split; [vm_compute; reflexivity|]. split; [reflexivity|].
  apply (unknown_field_number_aborts example_MIN_SECONDS example_MAX_SECONDS
           [x60; x00] (mkTag PB_WT_VARINT 12)
           {| Reader.status_ := OK;
              Reader.stream_ := {| istate := [x00]; bytes_left := 1 |} |});
    vm_compute; reflexivity.
Defined.

(** C6, as stated, fails: the first tag of [60 00] has the field number
    12, and the decoder does not return a DATA_LOSS status. *)
Lemma unknown_field_number_counterexample :
  ~ (forall (bytes : list byte) (tag : Tag) (reader : Reader.t),
       Reader.ReadTag (Reader.Wrap bytes) = Ret (tag, reader) ->
       ok (Reader.status reader) = true ->
       expected_wire_type (field_number tag) = None ->
       example_decode bytes = Ret (StatusOf DataLoss)).
Proof.
  intros H.
  pose proof (H [x60; x00] (mkTag PB_WT_VARINT 12)
                {| Reader.status_ := OK;
                   Reader.stream_ := {| istate := [x00]; bytes_left := 1 |} |}
                eq_refl eq_refl eq_refl) as E.
  vm_compute in E. discriminate E.
Qed.

Lemma wire_type_mismatch_is_data_loss_witness :
  Reader.ReadTag (Reader.Wrap [x59; x00])
  = Ret (mkTag PB_WT_64BIT 11,
         {| Reader.status_ := OK;
            Reader.stream_ := {| istate := [x00]; bytes_left := 1 |} |})
  /\ expected_wire_type 11 = Some PB_WT_VARINT
  /\ PB_WT_64BIT <> PB_WT_VARINT
  /\ example_decode [x59; x00] = Ret (StatusOf DataLoss).
Proof.
  split; [vm_compute; reflexivity|]. split; [reflexivity|].
  split; [discriminate|].
  apply (wire_type_mismatch_is_data_loss example_MIN_SECONDS example_MAX_SECONDS
           [x59; x00] (mkTag PB_WT_64BIT 11)
           {| Reader.status_ := OK;
              Reader.stream_ := {| istate := [x00]; bytes_left := 1 |} |}
           PB_WT_VARINT);
    [vm_compute; reflexivity | reflexivity | reflexivity | discriminate].
Defined.

Lemma key_roundtrip_witness :
  segment_ok (str "p") = true
  /\ segment_ok (str "d") = true
  /\ forallb segment_ok [str "rooms"; str "eros"] = true
  /\ Serializer_EncodeKey (mkDatabaseId (str "p") (str "d"))
       (mkDocumentKey [str "rooms"; str "eros"])
     = str "projects/p/databases/d/documents/rooms/eros"
  /\ Serializer_DecodeKey (mkDatabaseId (str "p") (str "d"))
       (str "projects/p/databases/d/documents/rooms/eros")
     = Ret (mkDocumentKey [str "rooms"; str "eros"])
  /\ Serializer_DecodeKey (mkDatabaseId (str "p") (str "d"))
       (str "projects/q/databases/d/documents/rooms/eros")
     = Abort.
Proof.
  pose proof (key_roundtrip (mkDatabaseId (str "p") (str "d"))
                (mkDocumentKey [str "rooms"; str "eros"])
                eq_refl eq_refl eq_refl) as (Hdecode & Hencode & Hother).
  split; [reflexivity|]. split; [reflexivity|]. split; [reflexivity|].
  split; [reflexivity|]. split; [exact Hdecode|].
  apply Hother. left. vm_compute. discriminate.
Defined.

Lemma size_mode_equivalence_witness :
  FieldValue_supported example_nested = true
  /\ exists sizer,
       EncodeFieldValueImpl example_nested Writer.Sizing = Ret sizer
       /\ Writer.status sizer = OK
       /\ Writer.bytes_written sizer = 72%N
       /\ Serializer_EncodeFieldValue example_nested []
          = Ret (OK, FieldValue_wire example_nested)
       /\ length (FieldValue_wire example_nested) = 72.
Proof.
  split; [reflexivity|].
  destruct (size_mode_equivalence example_nested eq_refl)
    as (sizer & Hsizer & Hstatus & Hwritten & Hwrite).
  exists sizer. split; [exact Hsizer|]. split; [exact Hstatus|].
  assert (Hlen : length (FieldValue_wire example_nested) = 72)
    by (vm_compute; reflexivity).
  rewrite Hlen in Hwritten. change (N.of_nat 72) with 72%N in Hwritten.
  split; [exact Hwritten|].
  specialize (Hwrite []). rewrite Hwritten in Hwrite.
  split; [exact Hwrite | exact Hlen].
Defined.

Lemma ReadInteger_accepts_every_uint64_witness :
  Reader.ReadVarint (Reader.Wrap [x81; x00]) = Ret (1%N, reader_at [] 0)
  /\ Reader.ReadInteger (Reader.Wrap [x81; x00]) = Ret (1%Z, reader_at [] 0)
  /\ example_decode [x10; x81; x00] = Ret (ValueOf (IntegerValue 1))
  /\ (18446744073709551615 < 2 ^ 64)%N
  /\ varint_bytes 18446744073709551615
     = [xff; xff; xff; xff; xff; xff; xff; xff; xff; x01]
  /\ Reader.ReadVarint (Reader.Wrap (varint_bytes 18446744073709551615))
     = Ret (18446744073709551615%N, reader_at [] 0)
  /\ length (varint_bytes 18446744073709551615) = 10%nat
  /\ example_decode [x10; xff; xff; xff; xff; xff; xff; xff; xff; xff; x01]
     = Ret (ValueOf (IntegerValue (-1))).
Proof.
  pose proof (ReadInteger_accepts_every_uint64
                example_MIN_SECONDS example_MAX_SECONDS) as [Hany [Hfield Hall]].
  assert (Hread : Reader.ReadVarint (Reader.Wrap [x81; x00])
                  = Ret (1%N, reader_at [] 0)) by (vm_compute; reflexivity).
  split; [exact Hread|].
  split; [exact (proj2 (Hany _ _ _ Hread))|].
  split; [exact (Hfield [x81; x00] _ _ Hread eq_refl)|].
  split; [reflexivity|].
  split; [vm_compute; reflexivity|].
  destruct (Hall 18446744073709551615%N eq_refl) as [Hmax Hlong].
  split; [exact Hmax|].
  split; [apply Hlong; discriminate|].
  exact (Hfield (varint_bytes 18446744073709551615) _ _ Hmax eq_refl).
Defined.

(** * Further properties of the serializer *)

(** ** The status of the writer *)

Lemma keeps_OK_checked (g : pb_ostream_t -> bool * pb_ostream_t) :
  keeps_OK (fun w => if negb (ok (Writer.status_ w)) then Ret w
                     else Writer.checked w (g (Writer.stream_ w))).
Proof.
  intros w Hok. rewrite Hok. cbn [ok negb].
  destruct (g (Writer.stream_ w)) as [[|] s]; cbn [Writer.checked Writer.status_];
    [exact Hok | exact I].
Qed.

Lemma keeps_OK_WriteTag (tag : Tag) : keeps_OK (Writer.WriteTag tag).
Proof.
  apply (keeps_OK_checked
           (fun s => pb_encode_tag s (wire_type tag) (field_number tag))).
Qed.

Lemma keeps_OK_WriteVarint (value : N) : keeps_OK (Writer.WriteVarint value).
Proof. apply (keeps_OK_checked (fun s => pb_encode_varint s value)). Qed.

Lemma keeps_OK_WriteString (s : list byte) : keeps_OK (Writer.WriteString s).
Proof. apply (keeps_OK_checked (fun stream => pb_encode_string stream s)). Qed.

Lemma keeps_OK_EncodeTimestamp (t : Timestamp) : keeps_OK (EncodeTimestamp t).
Proof.
  apply (keeps_OK_checked
           (fun s => pb_encode_Timestamp s
                       {| pb_seconds := seconds t; pb_nanos := nanoseconds t |})).
Qed.

Lemma keeps_OK_bind (f g : Writer.t -> Run Writer.t) :
  keeps_OK f -> keeps_OK g -> keeps_OK (fun w => w' <- f w ;; g w').
Proof.
  intros Hf Hg w Hok. specialize (Hf w Hok).
  destruct (f w) as [w'| |]; cbn [bind]; [now apply Hg | exact I | exact Hf].
Qed.

Lemma keeps_OK_WriteNestedMessage (f : Writer.t -> Run Writer.t) :
  keeps_OK f -> keeps_OK (Writer.WriteNestedMessage f).
Proof.
  intros Hf w Hok. unfold Writer.WriteNestedMessage. rewrite Hok. cbn [ok negb].
  pose proof (Hf Writer.Sizing eq_refl) as Hsizer.
  destruct (f Writer.Sizing) as [sizer| |]; cbn [bind]; [|exact I|exact Hsizer].
  unfold Writer.status. rewrite Hsizer.
  cbn [Writer.set_status Writer.status_ ok negb].
  pose proof (keeps_OK_WriteVarint (bytes_written (Writer.stream_ sizer))
                (Writer.set_status OK w) eq_refl) as Hsize.
  unfold Writer.WriteSize.
  destruct (Writer.WriteVarint _ (Writer.set_status OK w)) as [w1| |];
    cbn [bind]; [|exact I|exact Hsize].
  rewrite Hsize. cbn [ok negb].
  destruct (callback (Writer.stream_ w1)); cbn [negb].
  - destruct (negb _); cbn [FIREBASE_ASSERT bind]; [|exact I].
    match goal with |- context [f ?x] =>
      pose proof (Hf x eq_refl) as Hwriter; destruct (f x) as [writer| |] end;
      cbn [bind]; [|exact I|exact Hwriter].
    rewrite Hwriter. cbn [Writer.set_status Writer.status_ ok negb].
    destruct (_ =? _)%N; cbn [FIREBASE_ASSERT bind Writer.status_];
      [reflexivity | exact I].
  - destruct (pb_write _ _ _) as [[|] s]; cbn [Writer.checked Writer.status_];
      [exact Hsize | exact I].
Qed.

Lemma keeps_OK_EncodeFieldsEntry (enc : FieldValue -> Writer.t -> Run Writer.t)
  (kv : list byte * FieldValue) :
  keeps_OK (enc (snd kv)) -> keeps_OK (EncodeFieldsEntry enc kv).
Proof.
  destruct kv as [k v]. cbn [snd]. intros Hv. unfold EncodeFieldsEntry.
  apply (keeps_OK_bind _ _ (keeps_OK_WriteTag _)).
  apply (keeps_OK_bind _ _ (keeps_OK_WriteString k)).
  apply (keeps_OK_bind _ _ (keeps_OK_WriteTag _)).
  apply keeps_OK_WriteNestedMessage.
  exact Hv.
Qed.

Lemma keeps_OK_EncodeObject_entries
  (enc : FieldValue -> Writer.t -> Run Writer.t) (m : ObjectValue_Map) :
  Forall (fun kv => keeps_OK (enc (snd kv))) m ->
  keeps_OK (EncodeObject_entries enc m).
Proof.
  induction 1 as [|kv m Hkv _ IH]; cbn [EncodeObject_entries].
  - intros w Hok. exact Hok.
  - apply (keeps_OK_bind _ _ (keeps_OK_WriteTag _)).
    apply (keeps_OK_bind
             (Writer.WriteNestedMessage (fun w => EncodeFieldsEntry enc kv w)));
      [|exact IH].
    apply keeps_OK_WriteNestedMessage.
    now apply keeps_OK_EncodeFieldsEntry.
Qed.

(** Every path of the encoder leaves the status as it is: the writer
    never gets a status other than OK. *)
Lemma keeps_OK_EncodeFieldValueImpl (v : FieldValue) :
  keeps_OK (EncodeFieldValueImpl v).
Proof.
  induction v as [ | b | i | s | t | m IH | ] using FieldValue_ind';
    cbn [EncodeFieldValueImpl].
  - apply (keeps_OK_bind _ _ (keeps_OK_WriteTag _)). apply keeps_OK_WriteVarint.
  - apply (keeps_OK_bind _ _ (keeps_OK_WriteTag _)). apply keeps_OK_WriteVarint.
  - apply (keeps_OK_bind _ _ (keeps_OK_WriteTag _)). apply keeps_OK_WriteVarint.
  - apply (keeps_OK_bind _ _ (keeps_OK_WriteTag _)). apply keeps_OK_WriteString.
  - apply (keeps_OK_bind _ _ (keeps_OK_WriteTag _)).
    apply (keeps_OK_WriteNestedMessage (fun w => EncodeTimestamp t w)).
    apply keeps_OK_EncodeTimestamp.
  - apply (keeps_OK_bind _ _ (keeps_OK_WriteTag _)).
    apply (keeps_OK_WriteNestedMessage
             (fun w => EncodeObject_entries EncodeFieldValueImpl m w)).
    now apply keeps_OK_EncodeObject_entries.
  - intros w _. exact I.
Qed.

(** ** Values of a variant that the encoder has no case for *)

Lemma WriteNestedMessage_Sizing_abort (f : Writer.t -> Run Writer.t) (w : Writer.t) :
  Writer.status_ w = OK -> f Writer.Sizing = Abort ->
  Writer.WriteNestedMessage f w = Abort.
Proof.
  intros Hok Hf. unfold Writer.WriteNestedMessage.
  rewrite Hok, Hf. reflexivity.
Qed.

Lemma bind_aborts (f g : Writer.t -> Run Writer.t) (w : Writer.t) :
  keeps_OK f -> Writer.status_ w = OK ->
  (forall w', Writer.status_ w' = OK -> g w' = Abort) ->
  (w' <- f w ;; g w') = Abort.
Proof.
  intros Hf Hok Hg. specialize (Hf w Hok).
  destruct (f w) as [w'| |]; cbn [bind]; [now apply Hg | reflexivity | contradiction].
Qed.

Lemma EncodeObject_entries_unsupported
  (m : ObjectValue_Map) :
  Forall (fun kv => FieldValue_supported (snd kv) = false ->
                    forall w, Writer.status_ w = OK ->
                              EncodeFieldValueImpl (snd kv) w = Abort) m ->
  forallb (fun kv : list byte * FieldValue =>
             let (_, v') := kv in FieldValue_supported v') m = false ->
  forall w, Writer.status_ w = OK ->
    EncodeObject_entries EncodeFieldValueImpl m w = Abort.
Proof.
  induction 1 as [|[k v] m Hkv _ IH]; cbn [forallb EncodeObject_entries snd] in *;
    [discriminate|].
  intros Hm w Hok.
  apply (bind_aborts _ _ _ (keeps_OK_WriteTag _) Hok). clear w Hok. intros w Hok.
  destruct (FieldValue_supported v) eqn:Hv; cbn [andb] in Hm.
  - apply (bind_aborts
             (Writer.WriteNestedMessage
                (fun w => EncodeFieldsEntry EncodeFieldValueImpl (k, v) w))
             _ _); [|exact Hok|now apply IH].
    apply keeps_OK_WriteNestedMessage.
    apply (keeps_OK_EncodeFieldsEntry EncodeFieldValueImpl (k, v)).
    apply keeps_OK_EncodeFieldValueImpl.
  - rewrite WriteNestedMessage_Sizing_abort; [reflexivity | exact Hok |].
    unfold EncodeFieldsEntry.
    apply (bind_aborts _ _ Writer.Sizing (keeps_OK_WriteTag _) eq_refl).
    intros w1 Hok1.
    apply (bind_aborts _ _ _ (keeps_OK_WriteString k) Hok1). intros w2 Hok2.
    apply (bind_aborts _ _ _ (keeps_OK_WriteTag _) Hok2). intros w3 Hok3.
    apply WriteNestedMessage_Sizing_abort; [exact Hok3|].
    now apply Hkv.
Qed.

Lemma EncodeFieldValueImpl_unsupported (v : FieldValue) :
  FieldValue_supported v = false ->
  forall w, Writer.status_ w = OK -> EncodeFieldValueImpl v w = Abort.
Proof.
  induction v as [ | b | i | s | t | m IH | ] using FieldValue_ind';
    cbn [FieldValue_supported EncodeFieldValueImpl]; try discriminate.
  - intros Hm w Hok.
    apply (bind_aborts _ _ _ (keeps_OK_WriteTag _) Hok). clear w Hok. intros w Hok.
    unfold EncodeObject.
    apply WriteNestedMessage_Sizing_abort; [exact Hok|].
    now apply EncodeObject_entries_unsupported.
  - reflexivity.
Qed.

(** X1.  No path of the encoder sets a status: whatever the value and
    whatever room the writer has, [EncodeFieldValueImpl] on a writer whose
    status is OK returns a writer whose status is OK, or aborts.  So the
    status that [Serializer::EncodeFieldValue] returns is always OK; every
    failure of the encoder is an abort. *)
Theorem encoder_status_stays_OK (v : FieldValue) :
  (forall w w' : Writer.t,
     Writer.status w = OK -> EncodeFieldValueImpl v w = Ret w' ->
     Writer.status w' = OK)
  /\ (forall (out_bytes bytes : list byte) (st : Status),
        Serializer_EncodeFieldValue v out_bytes = Ret (st, bytes) -> st = OK).
Proof.
  split.
  - intros w w' Hok Henc.
    pose proof (keeps_OK_EncodeFieldValueImpl v w Hok) as H.
    now rewrite Henc in H.
  - intros out_bytes bytes st. unfold Serializer_EncodeFieldValue.
    pose proof (keeps_OK_EncodeFieldValueImpl v (Writer.Wrap out_bytes) eq_refl)
      as H.
    destruct (EncodeFieldValueImpl v (Writer.Wrap out_bytes)) as [w'| |];
      cbn [bind]; try discriminate.
    intros E. injection E as <- _. exact H.
Qed.

(** X2.  A value of a variant that [EncodeFieldValueImpl] has no case
    for reaches [abort()], also when it lies in a map at any depth: the
    sizing pass of the enclosing [WriteNestedMessage] comes to it before
    an entry of the map is written.  No status is returned. *)
Theorem unsupported_value_aborts (v : FieldValue) (out_bytes : list byte) :
  FieldValue_supported v = false ->
  EncodeFieldValueImpl v Writer.Sizing = Abort
  /\ Serializer_EncodeFieldValue v out_bytes = Abort.
Proof.
  intros Hs. unfold Serializer_EncodeFieldValue.
  now rewrite !EncodeFieldValueImpl_unsupported.
Qed.

(** ** Truncated input *)

Section Behaviour.

Variable MIN_SECONDS MAX_SECONDS : Z.

Ltac tag_side :=
  repeat (progress (rewrite ?length_app, ?length_delimited_length in * ));
  first [reflexivity | lia].

Ltac reader_step :=
  cbn [bind]; rewrite ?status_reader_at; cbn [ok negb FIREBASE_ASSERT bind].

(** A varint that is cut short is not read: its bytes all ask for a next
    one. *)
Lemma decode_leb128_truncated (width : N) (n : nat) :
  forall (v : N) (k m : nat) (bitpos result : N),
  (k < length (leb128 n v))%nat ->
  fst (pb_decode_varint_loop width m bitpos result
         {| istate := firstn k (leb128 n v); bytes_left := k |}) = None.
Proof.
  induction n as [|n IH]; intros v k m bitpos result Hk; [cbn in Hk; lia|].
  destruct m as [|m]; [reflexivity|]. cbn [pb_decode_varint_loop].
  destruct (width <=? bitpos)%N; [reflexivity|].
  destruct k as [|k]; [reflexivity|].
  cbn [leb128] in *. destruct (v <=? 127)%N; [cbn in Hk; lia|].
  cbn [firstn length] in *. rewrite pb_readbyte_cons.
  rewrite continuation_byte, low7_of_continuation, testbit7_of_continuation.
  apply IH. lia.
Qed.

Lemma decode_varint_truncated (v : N) (k : nat) :
  (v < 2 ^ 64)%N -> (k < length (varint_bytes v))%nat ->
  fst (pb_decode_varint
         {| istate := firstn k (varint_bytes v); bytes_left := k |}) = None.
Proof.
  intros Hv Hk. rewrite (varint_bytes_leb128 _ Hv) in *.
  now apply decode_leb128_truncated.
Qed.

Lemma decode_varint32_truncated (v : N) (k : nat) :
  (v < 2 ^ 64)%N -> (k < length (varint_bytes v))%nat ->
  fst (pb_decode_varint32
         {| istate := firstn k (varint_bytes v); bytes_left := k |}) = None.
Proof.
  intros Hv Hk. rewrite (varint_bytes_leb128 _ Hv) in *.
  now apply decode_leb128_truncated.
Qed.

Lemma tag_value_lt (wt number : N) :
  (wt < 8)%N -> (number < 2 ^ 29)%N ->
  (N.lor (N.shiftl number 3) wt < 2 ^ 64)%N.
Proof.
  intros Hwt Hn. rewrite (tag_value _ _ Hwt).
  change (2 ^ 29)%N with 536870912%N in Hn.
  change (2 ^ 64)%N with 18446744073709551616%N. lia.
Qed.

Lemma ReadTag_truncated (wt number : N) (k : nat) :
  (wt < 8)%N -> (number < 2 ^ 29)%N ->
  (k < length (tag_bytes wt number))%nat ->
  data_loss (Reader.ReadTag (reader_at (firstn k (tag_bytes wt number)) k)).
Proof.
  intros Hwt Hn Hk. unfold Reader.ReadTag, reader_at, pb_decode_tag.
  cbn [Reader.status_ Reader.stream_ ok negb].
  pose proof (decode_varint32_truncated _ k (tag_value_lt _ _ Hwt Hn) Hk) as H.
  unfold tag_bytes.
  destruct (pb_decode_varint32 _) as [[temp|] s]; [discriminate|].
  eexists _, _. split; reflexivity.
Qed.

Lemma ReadVarint_truncated (v : N) (k : nat) :
  (v < 2 ^ 64)%N -> (k < length (varint_bytes v))%nat ->
  exists r, Reader.ReadVarint (reader_at (firstn k (varint_bytes v)) k)
            = Ret (0%N, r)
            /\ Reader.status r = DataLoss.
Proof.
  intros Hv Hk. unfold Reader.ReadVarint, reader_at.
  cbn [Reader.status_ Reader.stream_ ok negb].
  pose proof (decode_varint_truncated _ k Hv Hk) as H.
  destruct (pb_decode_varint _) as [[x|] s]; [discriminate|].
  eexists. split; reflexivity.
Qed.

(** A string or submessage that is cut short, in its length prefix or in
    its payload, opens no substream. *)
Lemma make_string_substream_truncated (payload : list byte) (k : nat) :
  (N.of_nat (length payload) < 2 ^ 32)%N ->
  (k < length (length_delimited payload))%nat ->
  fst (pb_make_string_substream
         {| istate := firstn k (length_delimited payload); bytes_left := k |})
  = None.
Proof.
  intros Hlen Hk. unfold pb_make_string_substream, length_delimited in *.
  rewrite length_app in Hk.
  destruct (Nat.lt_ge_cases k (length (varint_bytes (N.of_nat (length payload)))))
    as [Hcut|Hcut].
  - rewrite firstn_app.
    replace (k - length (varint_bytes (N.of_nat (length payload))))%nat with 0%nat
      by lia.
    cbn [firstn]. rewrite app_nil_r.
    assert (H64 : (N.of_nat (length payload) < 2 ^ 64)%N)
      by (eapply N.lt_trans; [exact Hlen | reflexivity]).
    pose proof (decode_varint32_truncated _ k H64 Hcut) as H.
    destruct (pb_decode_varint32 _) as [[x|] s]; [discriminate | reflexivity].
  - rewrite firstn_app, firstn_all2 by exact Hcut.
    rewrite decode_varint32_bytes by (try assumption; lia).
    cbn [bytes_left].
    destruct (N.ltb_spec
                (N.of_nat (k - length (varint_bytes (N.of_nat (length payload)))))
                (N.of_nat (length payload))); [reflexivity | lia].
Qed.

Lemma ReadString_truncated (s : list byte) (k : nat) :
  (N.of_nat (length s) < 2 ^ 32)%N ->
  (k < length (length_delimited s))%nat ->
  data_loss (Reader.ReadString (reader_at (firstn k (length_delimited s)) k)).
Proof.
  intros Hlen Hk. unfold Reader.ReadString, reader_at.
  cbn [Reader.status_ Reader.stream_ ok negb].
  pose proof (make_string_substream_truncated _ k Hlen Hk) as H.
  destruct (pb_make_string_substream _) as [[sub|] s']; [discriminate|].
  eexists _, _. split; reflexivity.
Qed.

Lemma ReadNestedMessage_truncated {T : Type} (default : T)
  (f : Reader.t -> Run (T * Reader.t)) (payload : list byte) (k : nat) :
  (N.of_nat (length payload) < 2 ^ 32)%N ->
  (k < length (length_delimited payload))%nat ->
  data_loss (Reader.ReadNestedMessage default f
               (reader_at (firstn k (length_delimited payload)) k)).
Proof.
  intros Hlen Hk. unfold Reader.ReadNestedMessage, reader_at.
  cbn [Reader.status_ Reader.stream_ ok negb].
  pose proof (make_string_substream_truncated _ k Hlen Hk) as H.
  destruct (pb_make_string_substream _) as [[sub|] s']; [discriminate|].
  eexists _, _. split; reflexivity.
Qed.
Lemma Serializer_EncodeFieldValue_inv (v : FieldValue)
  (out_bytes bytes : list byte) (st : Status) :
  Serializer_EncodeFieldValue v out_bytes = Ret (st, bytes) ->
  FieldValue_supported v = true
  /\ (N.of_nat (length (FieldValue_wire v)) <= Writer.kMaxDocumentSize)%N
  /\ st = OK /\ bytes = out_bytes ++ FieldValue_wire v.
Proof.
  intros Henc.
  destruct (FieldValue_supported v) eqn:Hs.
  - rewrite (Serializer_EncodeFieldValue_wire _ _ Hs) in Henc.
    destruct (N.leb_spec (N.of_nat (length (FieldValue_wire v)))
                Writer.kMaxDocumentSize) as [Hfit|]; [|discriminate].
    injection Henc as <- <-. repeat split. exact Hfit.
  - unfold Serializer_EncodeFieldValue in Henc.
    rewrite (EncodeFieldValueImpl_unsupported _ Hs (Writer.Wrap out_bytes) eq_refl)
      in Henc.
    discriminate.
Qed.

Lemma Serializer_DecodeFieldValue_data_loss (bytes : list byte) :
  data_loss (DecodeFieldValueImpl MIN_SECONDS MAX_SECONDS (S (length bytes))
               (Reader.Wrap bytes)) ->
  Serializer_DecodeFieldValue MIN_SECONDS MAX_SECONDS bytes
  = Ret (StatusOf DataLoss).
Proof.
  intros (x & r & E & Hr). unfold Serializer_DecodeFieldValue.
  rewrite E. cbn [bind]. now rewrite Hr.
Qed.

Lemma DecodeFieldValueImpl_truncated_tag (fuel : nat) (wt number : N) (k : nat) :
  (wt < 8)%N -> (number < 2 ^ 29)%N ->
  (k < length (tag_bytes wt number))%nat ->
  data_loss (DecodeFieldValueImpl MIN_SECONDS MAX_SECONDS (S fuel)
               (reader_at (firstn k (tag_bytes wt number)) k)).
Proof.
  intros Hwt Hn Hk.
  destruct (ReadTag_truncated _ _ _ Hwt Hn Hk) as (x & r & E & Hr).
  cbn [DecodeFieldValueImpl]. rewrite E. cbn [bind]. rewrite Hr. cbn [ok negb].
  exists (NullValue), r. split; [reflexivity | exact Hr].
Qed.

(** A prefix of [tag ++ body] ends in the tag or in the body. *)
Lemma Wrap_firstn_app (tag body : list byte) (n : nat) :
  (n < length (tag ++ body))%nat ->
  length (firstn n (tag ++ body)) = n
  /\ ((n < length tag)%nat
      /\ Reader.Wrap (firstn n (tag ++ body)) = reader_at (firstn n tag) n
      \/ exists k, (k < length body)%nat
           /\ Reader.Wrap (firstn n (tag ++ body))
              = reader_at (tag ++ firstn k body) (length tag + k)).
Proof.
  intros Hn. rewrite length_app in Hn.
  assert (Hlen : length (firstn n (tag ++ body)) = n)
    by (rewrite length_firstn, length_app; lia).
  split; [exact Hlen|].
  unfold Reader.Wrap, pb_istream_from_buffer, reader_at. rewrite Hlen.
  rewrite firstn_app.
  destruct (Nat.lt_ge_cases n (length tag)) as [Hcut|Hcut].
  - left. split; [exact Hcut|].
    replace (n - length tag)%nat with 0%nat by lia.
    cbn [firstn]. now rewrite app_nil_r.
  - right. exists (n - length tag)%nat. split; [lia|].
    rewrite firstn_all2 by exact Hcut.
    now replace (length tag + (n - length tag))%nat with n by lia.
Qed.

(** X3.  Every proper prefix of the bytes that
    [Serializer::EncodeFieldValue] produced, the empty input too, is
    answered with a DATA_LOSS status: the cut lies in the tag, in a varint,
    in a length prefix or in the payload that the prefix announces, and
    [ReadTag], [ReadVarint], [ReadString] and [ReadNestedMessage] each set
    the status and return. *)
Theorem truncated_encoding_is_data_loss (v : FieldValue) (st : Status)
  (bytes : list byte) (n : nat) :
  Serializer_EncodeFieldValue v [] = Ret (st, bytes) ->
  (n < length bytes)%nat ->
  Serializer_DecodeFieldValue MIN_SECONDS MAX_SECONDS (firstn n bytes)
  = Ret (StatusOf DataLoss).
Proof.
  intros Henc Hn.
  destruct (Serializer_EncodeFieldValue_inv _ _ _ _ Henc) as (_ & Hfit & _ & ->).
  cbn [app] in *.
  assert (Hlen : (N.of_nat (length (FieldValue_wire v)) < 2 ^ 32)%N)
    by (eapply N.le_lt_trans; [exact Hfit | reflexivity]).
  clear Henc Hfit. apply Serializer_DecodeFieldValue_data_loss.
  destruct v as [ | b | i | s | t | m | ];
    try rewrite FieldValue_wire_object in *;
    cbn [FieldValue_wire] in *; [| | | | | | cbn in Hn; lia];
    destruct (Wrap_firstn_app _ _ _ Hn) as (-> & [(Hcut & ->) | (k & Hk & ->)]);
    try (now apply DecodeFieldValueImpl_truncated_tag);
    cbn [DecodeFieldValueImpl];
    rewrite ReadTag_eq by tag_side; reader_step;
    rewrite Nat.add_comm, Nat.add_sub.
  - (* Null *)
    change (check_wire_type (mkTag PB_WT_VARINT 11) ?r) with (Ret r).
    reader_step. cbn [field_number].
    change (11 =? google_firestore_v1beta1_Value_null_value_tag)%N with true.
    cbn iota. unfold Reader.ReadNull.
    destruct (ReadVarint_truncated 0 k eq_refl Hk) as (r & -> & Hr).
    cbn [bind]. unfold Reader.status in Hr. rewrite Hr. cbn [ok negb bind].
    exists (NullValue), r. split; [reflexivity | exact Hr].
  - (* Boolean *)
    change (check_wire_type (mkTag PB_WT_VARINT 1) ?r) with (Ret r).
    reader_step. cbn [field_number].
    change (1 =? google_firestore_v1beta1_Value_null_value_tag)%N with false.
    change (1 =? google_firestore_v1beta1_Value_boolean_value_tag)%N with true.
    cbn iota. unfold Reader.ReadBool.
    assert (Hb : ((if b then 1 else 0) < 2 ^ 64)%N) by (destruct b; reflexivity).
    destruct (ReadVarint_truncated _ k Hb Hk) as (r & -> & Hr).
    cbn [bind]. unfold Reader.status in Hr. rewrite Hr. cbn [ok negb bind].
    exists (BooleanValue false), r. split; [reflexivity | exact Hr].
  - (* Integer *)
    change (check_wire_type (mkTag PB_WT_VARINT 2) ?r) with (Ret r).
    reader_step. cbn [field_number].
    change (2 =? google_firestore_v1beta1_Value_null_value_tag)%N with false.
    change (2 =? google_firestore_v1beta1_Value_boolean_value_tag)%N with false.
    change (2 =? google_firestore_v1beta1_Value_integer_value_tag)%N with true.
    cbn iota. unfold Reader.ReadInteger.
    destruct (ReadVarint_truncated _ k (to_uint64_lt i) Hk) as (r & -> & Hr).
    cbn [bind]. exists (IntegerValue (to_int64 0)), r. split; [reflexivity | exact Hr].
  - (* String *)
    change (check_wire_type (mkTag PB_WT_STRING 17) ?r) with (Ret r).
    reader_step. cbn [field_number].
    change (17 =? google_firestore_v1beta1_Value_null_value_tag)%N with false.
    change (17 =? google_firestore_v1beta1_Value_boolean_value_tag)%N with false.
    change (17 =? google_firestore_v1beta1_Value_integer_value_tag)%N with false.
    change (17 =? google_firestore_v1beta1_Value_string_value_tag)%N with true.
    cbn iota.
    destruct (ReadString_truncated s k) as (x & r & -> & Hr);
      [tag_side | exact Hk |].
    cbn [bind]. exists (StringValue x), r. split; [reflexivity | exact Hr].
  - (* Timestamp *)
    change (check_wire_type (mkTag PB_WT_STRING 10) ?r) with (Ret r).
    reader_step. cbn [field_number].
    change (10 =? google_firestore_v1beta1_Value_null_value_tag)%N with false.
    change (10 =? google_firestore_v1beta1_Value_boolean_value_tag)%N with false.
    change (10 =? google_firestore_v1beta1_Value_integer_value_tag)%N with false.
    change (10 =? google_firestore_v1beta1_Value_string_value_tag)%N with false.
    change (10 =? google_firestore_v1beta1_Value_timestamp_value_tag)%N with true.
    cbn iota.
    destruct (ReadNestedMessage_truncated Timestamp_default
                (DecodeTimestamp MIN_SECONDS MAX_SECONDS) (Timestamp_wire t) k)
      as (x & r & -> & Hr); [tag_side | exact Hk |].
    cbn [bind]. exists (TimestampValue x), r. split; [reflexivity | exact Hr].
  - (* Object *)
    change (check_wire_type (mkTag PB_WT_STRING 6) ?r) with (Ret r).
    reader_step. cbn [field_number].
    change (6 =? google_firestore_v1beta1_Value_null_value_tag)%N with false.
    change (6 =? google_firestore_v1beta1_Value_boolean_value_tag)%N with false.
    change (6 =? google_firestore_v1beta1_Value_integer_value_tag)%N with false.
    change (6 =? google_firestore_v1beta1_Value_string_value_tag)%N with false.
    change (6 =? google_firestore_v1beta1_Value_timestamp_value_tag)%N with false.
    change (6 =? google_firestore_v1beta1_Value_map_value_tag)%N with true.
    cbn iota. unfold DecodeObject. reader_step.
    match goal with |- context [Reader.ReadNestedMessage ?d ?f _] =>
      destruct (ReadNestedMessage_truncated d f (MapValue_wire m) k)
        as (x & r & -> & Hr); [tag_side | exact Hk |] end.
    cbn [bind]. exists (ObjectValueFromMap x), r. split; [reflexivity | exact Hr].
Qed.

(** ** Reading a region step by step *)

Lemma close_region_reader_at (rest : list byte) (bl left : nat) :
  close_region (reader_at rest bl) left = reader_at rest left.
Proof. reflexivity. Qed.

(** On a length prefix that fits, [ReadNestedMessage] runs the function on
    the region, asserts that nothing of the region is left, and goes on
    behind it with the status of the region. *)
Lemma ReadNestedMessage_delimited {T : Type} (default : T)
  (f : Reader.t -> Run (T * Reader.t)) (bs rest : list byte) (bl : nat) :
  (N.of_nat (length bs) < 2 ^ 32)%N ->
  (length (length_delimited bs) <= bl)%nat ->
  Reader.ReadNestedMessage default f (reader_at (length_delimited bs ++ rest) bl)
  = '(message, sub) <- f (reader_at (bs ++ rest) (length bs)) ;;
    _ <- FIREBASE_ASSERT (Reader.bytes_left sub =? 0)%nat ;;
    Ret (message, close_region sub (bl - length (length_delimited bs))).
Proof.
  intros Hlen Hbl. unfold Reader.ReadNestedMessage, reader_at.
  cbn [Reader.status_ Reader.stream_ ok negb].
  rewrite (make_string_substream_delimited _ _ _ Hlen Hbl).
  destruct (f _) as [[message sub]| |]; reflexivity.
Qed.

Section Regions.

Variable dec : Reader.t -> Run (FieldValue * Reader.t).

(** A [FieldsEntry] with its key in field 1 and a region [value] in
    field 2. *)
Lemma DecodeFieldsEntry_key_value (k value rest : list byte) (bl : nat) :
  (N.of_nat (length k) < 2 ^ 32)%N ->
  (N.of_nat (length value) < 2 ^ 32)%N ->
  (length (tag_bytes PB_WT_STRING 1 ++ length_delimited k
           ++ tag_bytes PB_WT_STRING 2 ++ length_delimited value) <= bl)%nat ->
  DecodeFieldsEntry dec
    (reader_at (tag_bytes PB_WT_STRING 1 ++ length_delimited k
                ++ tag_bytes PB_WT_STRING 2 ++ length_delimited value ++ rest) bl)
  = '(v, sub) <- dec (reader_at (value ++ rest) (length value)) ;;
    _ <- FIREBASE_ASSERT (Reader.bytes_left sub =? 0)%nat ;;
    Ret ((k, v),
         close_region sub
           (bl - length (tag_bytes PB_WT_STRING 1 ++ length_delimited k
                         ++ tag_bytes PB_WT_STRING 2 ++ length_delimited value))).
Proof.
  intros Hk Hvalue Hbl. rewrite !length_app, !length_delimited_length in *.
  unfold DecodeFieldsEntry.
  rewrite ReadTag_eq by tag_side.
  reader_step. cbn [field_number wire_type].
  change (1 =? google_firestore_v1beta1_MapValue_FieldsEntry_key_tag)%N with true.
  change (PB_WT_STRING =? PB_WT_STRING)%N with true. reader_step.
  rewrite ReadString_eq by tag_side.
  reader_step.
  rewrite ReadTag_eq by tag_side.
  reader_step. cbn [field_number wire_type].
  change (2 =? google_firestore_v1beta1_MapValue_FieldsEntry_value_tag)%N with true.
  change (PB_WT_STRING =? PB_WT_STRING)%N with true. reader_step.
  rewrite ReadNestedMessage_delimited by tag_side.
  destruct (dec _) as [[v sub]| |]; cbn [bind]; try reflexivity.
  destruct (FIREBASE_ASSERT _); cbn [bind]; try reflexivity.
  rewrite !length_delimited_length. do 3 f_equal. lia.
Qed.

(** One round of the loop of [DecodeObject] on a [fields] entry whose
    region is [entry]. *)
Lemma DecodeObject_loop_step (n : nat) (entry rest : list byte) (bl : nat)
  (p : ObjectValue_Map) :
  (N.of_nat (length entry) < 2 ^ 32)%N ->
  (length (tag_bytes PB_WT_STRING 1 ++ length_delimited entry) <= bl)%nat ->
  (0 < n)%nat ->
  DecodeObject_loop dec n
    (reader_at (tag_bytes PB_WT_STRING 1 ++ length_delimited entry ++ rest) bl) p
  = '(fv, sub) <- DecodeFieldsEntry dec (reader_at (entry ++ rest) (length entry)) ;;
    _ <- FIREBASE_ASSERT (Reader.bytes_left sub =? 0)%nat ;;
    let reader :=
      close_region sub
        (bl - length (tag_bytes PB_WT_STRING 1 ++ length_delimited entry)) in
    if negb (ok (Reader.status sub)) then Ret (p, reader)
    else
      _ <- FIREBASE_ASSERT (negb (Map_contains (fst fv) p)) ;;
      DecodeObject_loop dec (pred n) reader (Map_emplace fv p).
Proof.
  intros Hentry Hbl Hn. destruct n as [|n]; [lia|]. cbn [pred].
  pose proof (tag_bytes_length PB_WT_STRING 1 eq_refl eq_refl) as L1.
  rewrite length_app in *.
  cbn [DecodeObject_loop]. rewrite bytes_left_reader_at.
  destruct (Nat.eqb_spec bl 0) as [E|_]; [lia|].
  rewrite ReadTag_eq by tag_side.
  reader_step. cbn [field_number wire_type].
  change (1 =? google_firestore_v1beta1_MapValue_fields_tag)%N with true.
  change (PB_WT_STRING =? PB_WT_STRING)%N with true. reader_step.
  rewrite ReadNestedMessage_delimited by tag_side.
  destruct (DecodeFieldsEntry dec _) as [[fv sub]| |]; cbn [bind]; try reflexivity.
  destruct (FIREBASE_ASSERT _); cbn [bind]; try reflexivity.
  now rewrite Nat.sub_add_distr.
Qed.

End Regions.

(** The body of [DecodeObject] behind the tag of a map value. *)
Lemma DecodeFieldValueImpl_map (fuel : nat) (payload rest : list byte) (bl : nat) :
  (N.of_nat (length payload) < 2 ^ 32)%N ->
  (length (tag_bytes PB_WT_STRING 6 ++ length_delimited payload) <= bl)%nat ->
  DecodeFieldValueImpl MIN_SECONDS MAX_SECONDS (S fuel)
    (reader_at (tag_bytes PB_WT_STRING 6 ++ length_delimited payload ++ rest) bl)
  = '(m, sub) <-
       DecodeObject_loop (DecodeFieldValueImpl MIN_SECONDS MAX_SECONDS fuel)
         (length payload) (reader_at (payload ++ rest) (length payload)) [] ;;
    _ <- FIREBASE_ASSERT (Reader.bytes_left sub =? 0)%nat ;;
    Ret (ObjectValueFromMap m,
         close_region sub
           (bl - length (tag_bytes PB_WT_STRING 6 ++ length_delimited payload))).
Proof.
  intros Hlen Hbl. rewrite length_app in *. cbn [DecodeFieldValueImpl].
  rewrite ReadTag_eq by tag_side. reader_step.
  change (check_wire_type (mkTag PB_WT_STRING 6) ?r) with (Ret r).
  reader_step. cbn [field_number].
  change (6 =? google_firestore_v1beta1_Value_null_value_tag)%N with false.
  change (6 =? google_firestore_v1beta1_Value_boolean_value_tag)%N with false.
  change (6 =? google_firestore_v1beta1_Value_integer_value_tag)%N with false.
  change (6 =? google_firestore_v1beta1_Value_string_value_tag)%N with false.
  change (6 =? google_firestore_v1beta1_Value_timestamp_value_tag)%N with false.
  change (6 =? google_firestore_v1beta1_Value_map_value_tag)%N with true.
  cbn iota. unfold DecodeObject. reader_step.
  rewrite ReadNestedMessage_delimited by tag_side.
  rewrite status_reader_at, bytes_left_reader_at. cbn [ok negb].
  destruct (DecodeObject_loop _ _ _ _) as [[m sub]| |]; cbn [bind]; try reflexivity.
  destruct (FIREBASE_ASSERT _); cbn [bind]; try reflexivity.
  do 3 f_equal. lia.
Qed.

(** [Serializer::DecodeFieldValue] on a map value whose region is
    [payload]. *)
Lemma Serializer_DecodeFieldValue_map (payload extra : list byte) :
  (N.of_nat (length payload) < 2 ^ 32)%N ->
  Serializer_DecodeFieldValue MIN_SECONDS MAX_SECONDS
    (tag_bytes PB_WT_STRING 6 ++ length_delimited payload ++ extra)
  = '(m, sub) <-
       DecodeObject_loop
         (DecodeFieldValueImpl MIN_SECONDS MAX_SECONDS
            (length (tag_bytes PB_WT_STRING 6 ++ length_delimited payload ++ extra)))
         (length payload) (reader_at (payload ++ extra) (length payload)) [] ;;
    _ <- FIREBASE_ASSERT (Reader.bytes_left sub =? 0)%nat ;;
    if ok (Reader.status sub) then Ret (ValueOf (ObjectValueFromMap m))
    else Ret (StatusOf (Reader.status sub)).
Proof.
  intros Hlen. unfold Serializer_DecodeFieldValue.
  rewrite Wrap_reader_at, DecodeFieldValueImpl_map
    by (try assumption; rewrite !length_app; lia).
  destruct (DecodeObject_loop _ _ _ _) as [[m sub]| |]; cbn [bind]; try reflexivity.
  destruct (FIREBASE_ASSERT _); cbn [bind]; reflexivity.
Qed.

(** ** Payloads that are read and refused *)

(** X4.  A Null field holds the varint 0 and nothing else, and a
    Boolean field 0 or 1: [ReadNull] and [ReadBool] answer every other
    varint with a DATA_LOSS status. *)
Theorem null_and_boolean_payload (u : N) (extra : list byte) :
  (u < 2 ^ 64)%N ->
  Serializer_DecodeFieldValue MIN_SECONDS MAX_SECONDS
    (tag_bytes PB_WT_VARINT 11 ++ varint_bytes u ++ extra)
  = Ret (if (u =? 0)%N then ValueOf NullValue else StatusOf DataLoss)
  /\ Serializer_DecodeFieldValue MIN_SECONDS MAX_SECONDS
       (tag_bytes PB_WT_VARINT 1 ++ varint_bytes u ++ extra)
     = Ret (if (u =? 0)%N then ValueOf (BooleanValue false)
            else if (u =? 1)%N then ValueOf (BooleanValue true)
            else StatusOf DataLoss).
Proof.
  intros Hu. unfold Serializer_DecodeFieldValue.
  rewrite !Wrap_reader_at. cbn [DecodeFieldValueImpl].
  rewrite !ReadTag_eq by tag_side. reader_step.
  change (check_wire_type (mkTag PB_WT_VARINT 11) ?r) with (Ret r).
  change (check_wire_type (mkTag PB_WT_VARINT 1) ?r) with (Ret r).
  reader_step. cbn [field_number].
  change (11 =? google_firestore_v1beta1_Value_null_value_tag)%N with true.
  change (1 =? google_firestore_v1beta1_Value_null_value_tag)%N with false.
  change (1 =? google_firestore_v1beta1_Value_boolean_value_tag)%N with true.
  cbn iota. unfold Reader.ReadNull, Reader.ReadBool.
  rewrite !(ReadVarint_eq _ _ _ Hu) by tag_side. reader_step.
  change google_protobuf_NullValue_NULL_VALUE with 0%N.
  destruct (u =? 0)%N; [split; reflexivity|].
  destruct (u =? 1)%N; split; reflexivity.
Qed.

Lemma to_int32_to_uint64 (z : Z) :
  (- 2147483648 <= z < 2147483648)%Z -> to_int32 (Z.of_N (to_uint64 z)) = z.
Proof.
  intros Hz. unfold to_uint64, to_int32.
  rewrite Z2N.id by (apply Z.mod_pos_bound; lia).
  set (m := (z mod 18446744073709551616)%Z).
  assert (Hm : (m mod 4294967296 = z mod 4294967296)%Z).
  { subst m. apply Z.mod_mod_divide. exists 4294967296%Z. reflexivity. }
  cbv zeta. rewrite Hm.
  destruct (Z.ltb_spec (z mod 4294967296) 2147483648);
    Z.div_mod_to_equations; lia.
Qed.

(** The message of an [int64 seconds] and an [int32 nanos] is read back
    as it is, in range or not. *)
Lemma pb_decode_Timestamp_wire_any (t : Timestamp) (rest : list byte) :
  in_int64b (seconds t) = true ->
  (- 2147483648 <= nanoseconds t < 2147483648)%Z ->
  pb_decode_Timestamp
    {| istate := Timestamp_wire t ++ rest; bytes_left := length (Timestamp_wire t) |}
  = (true, {| pb_seconds := seconds t; pb_nanos := nanoseconds t |},
     {| istate := rest; bytes_left := 0 |}).
Proof.
  intros H64 H32.
  unfold pb_decode_Timestamp, Timestamp_wire. cbn [bytes_left].
  pose proof (tag_bytes_length PB_WT_VARINT 1 eq_refl eq_refl) as L1.
  pose proof (tag_bytes_length PB_WT_VARINT 2 eq_refl eq_refl) as L2.
  pose proof (varint_bytes_length _ (to_uint64_lt (seconds t))) as L3.
  pose proof (varint_bytes_length _ (to_uint64_lt (nanoseconds t))) as L4.
  rewrite !length_app. rewrite <- !app_assoc.
  set (a := length (tag_bytes PB_WT_VARINT 1)) in *.
  set (b := length (varint_bytes (to_uint64 (seconds t)))) in *.
  set (c := length (tag_bytes PB_WT_VARINT 2)) in *.
  set (d := length (varint_bytes (to_uint64 (nanoseconds t)))) in *.
  destruct (a + (b + (c + d)))%nat as [|[|[|n]]] eqn:E; try lia.
  cbn [pb_decode_Timestamp_fields bytes_left Nat.eqb].
  rewrite decode_tag_tag_bytes by (try reflexivity; fold a; lia).
  cbn [field_number wire_type]. fold a.
  change (1 =? google_protobuf_Timestamp_seconds_tag)%N with true. cbn iota.
  rewrite (decode_varint_bytes _ _ _ (to_uint64_lt (seconds t))) by (fold b; lia).
  fold b. rewrite (to_int64_to_uint64 _ H64).
  cbn [pb_decode_Timestamp_fields bytes_left].
  destruct (Nat.eqb_spec (S (S (S n)) - a - b) 0) as [E0|_]; [lia|].
  rewrite decode_tag_tag_bytes by (try reflexivity; fold c; lia).
  cbn [field_number wire_type]. fold c.
  change (2 =? google_protobuf_Timestamp_seconds_tag)%N with false.
  change (2 =? google_protobuf_Timestamp_nanos_tag)%N with true. cbn iota.
  rewrite (decode_varint_bytes _ _ _ (to_uint64_lt (nanoseconds t))) by (fold d; lia).
  fold d. rewrite (to_int32_to_uint64 _ H32). cbn [pb_seconds pb_nanos].
  replace (S (S (S n)) - a - b - c - d)%nat with 0%nat by lia.
  reflexivity.
Qed.

Lemma Timestamp_wire_length (t : Timestamp) :
  (length (Timestamp_wire t) <= 22)%nat.
Proof.
  unfold Timestamp_wire. rewrite !length_app.
  pose proof (varint_bytes_length _ (to_uint64_lt (seconds t))).
  pose proof (varint_bytes_length _ (to_uint64_lt (nanoseconds t))).
  change (length (tag_bytes PB_WT_VARINT 1)) with 1%nat.
  change (length (tag_bytes PB_WT_VARINT 2)) with 1%nat. lia.
Qed.

(** X5.  A Timestamp message that carries an [int64] in its seconds
    field and an [int32] in its nanos field is decoded to that timestamp
    when the seconds lie in [MIN_SECONDS, MAX_SECONDS] and the nanos in
    [0, 999999999], and is answered with a DATA_LOSS status otherwise:
    [DecodeTimestamp] checks the ranges itself and does not abort. *)
Theorem timestamp_range_check (t : Timestamp) (extra : list byte) :
  in_int64b (seconds t) = true ->
  (- 2147483648 <= nanoseconds t < 2147483648)%Z ->
  Serializer_DecodeFieldValue MIN_SECONDS MAX_SECONDS
    (tag_bytes PB_WT_STRING 10 ++ length_delimited (Timestamp_wire t) ++ extra)
  = Ret (if Timestamp_valid MIN_SECONDS MAX_SECONDS t
         then ValueOf (TimestampValue t)
         else StatusOf DataLoss).
Proof.
  intros H64 H32. unfold Serializer_DecodeFieldValue.
  pose proof (Timestamp_wire_length t) as Lt.
  assert (Hlen : (N.of_nat (length (Timestamp_wire t)) < 2 ^ 32)%N).
  { change (2 ^ 32)%N with 4294967296%N. lia. }
  rewrite Wrap_reader_at. cbn [DecodeFieldValueImpl].
  rewrite ReadTag_eq by tag_side. reader_step.
  change (check_wire_type (mkTag PB_WT_STRING 10) ?r) with (Ret r).
  reader_step. cbn [field_number].
  change (10 =? google_firestore_v1beta1_Value_null_value_tag)%N with false.
  change (10 =? google_firestore_v1beta1_Value_boolean_value_tag)%N with false.
  change (10 =? google_firestore_v1beta1_Value_integer_value_tag)%N with false.
  change (10 =? google_firestore_v1beta1_Value_string_value_tag)%N with false.
  change (10 =? google_firestore_v1beta1_Value_timestamp_value_tag)%N with true.
  cbn iota.
  rewrite ReadNestedMessage_delimited by tag_side.
  unfold DecodeTimestamp, Reader.ReadNanopbMessage, reader_at.
  cbn [Reader.status_ Reader.stream_ ok negb].
  rewrite (pb_decode_Timestamp_wire_any _ _ H64 H32).
  cbn [bind pb_seconds pb_nanos Reader.with_stream Reader.status_].
  unfold Timestamp_valid. rewrite H64. cbn [andb].
  destruct (Z.ltb_spec (seconds t) MIN_SECONDS) as [R1|R1].
  { destruct (Z.leb_spec MIN_SECONDS (seconds t)); [lia | reflexivity]. }
  destruct (Z.leb_spec MIN_SECONDS (seconds t)); [|lia]. cbn [andb].
  destruct (Z.ltb_spec MAX_SECONDS (seconds t)) as [R2|R2].
  { destruct (Z.leb_spec (seconds t) MAX_SECONDS); [lia | reflexivity]. }
  destruct (Z.leb_spec (seconds t) MAX_SECONDS); [|lia]. cbn [andb].
  destruct (Z.ltb_spec (nanoseconds t) 0) as [R3|R3]; cbn [orb].
  { destruct (Z.leb_spec 0 (nanoseconds t)); [lia | reflexivity]. }
  destruct (Z.leb_spec 0 (nanoseconds t)); [|lia]. cbn [andb].
  destruct (Z.ltb_spec 999999999 (nanoseconds t)) as [R4|R4].
  { destruct (Z.leb_spec (nanoseconds t) 999999999); [lia | reflexivity]. }
  destruct (Z.leb_spec (nanoseconds t) 999999999); [|lia].
  now destruct t.
Qed.

(** ** Regions that are not read to their end *)

(** The loop of [DecodeObject] at the start of the region of a map that
    begins with a [fields] entry. *)
Lemma DecodeObject_loop_first (dec : Reader.t -> Run (FieldValue * Reader.t))
  (entry tail extra : list byte) :
  (N.of_nat (length entry) < 2 ^ 32)%N ->
  DecodeObject_loop dec
    (length (tag_bytes PB_WT_STRING 1 ++ length_delimited entry ++ tail))
    (reader_at (tag_bytes PB_WT_STRING 1 ++ length_delimited entry ++ tail ++ extra)
       (length (tag_bytes PB_WT_STRING 1 ++ length_delimited entry ++ tail))) []
  = '(fv, sub) <- DecodeFieldsEntry dec
                    (reader_at (entry ++ tail ++ extra) (length entry)) ;;
    _ <- FIREBASE_ASSERT (Reader.bytes_left sub =? 0)%nat ;;
    if negb (ok (Reader.status sub)) then Ret ([], close_region sub (length tail))
    else
      DecodeObject_loop dec
        (pred (length (tag_bytes PB_WT_STRING 1 ++ length_delimited entry ++ tail)))
        (close_region sub (length tail)) [fv].
Proof.
  intros Hentry.
  pose proof (tag_bytes_length PB_WT_STRING 1 eq_refl eq_refl) as L1.
  rewrite DecodeObject_loop_step by (try assumption; rewrite !length_app; lia).
  replace (length (tag_bytes PB_WT_STRING 1 ++ length_delimited entry ++ tail)
           - length (tag_bytes PB_WT_STRING 1 ++ length_delimited entry))%nat
    with (length tail) by (rewrite !length_app; lia).
  destruct (DecodeFieldsEntry dec _) as [[fv sub]| |]; reflexivity.
Qed.

(** X6.  Inside a map, bytes that follow a value in the region of that
    value abort the process: [ReadNestedMessage] asserts that the function
    it called has read its region to the end.  (At the top level such
    bytes are ignored.) *)
Theorem nested_trailing_bytes_abort (k : list byte) (v : FieldValue)
  (junk tail extra : list byte) :
  FieldValue_valid MIN_SECONDS MAX_SECONDS v = true ->
  junk <> [] ->
  (N.of_nat (length (FieldsEntry_wire k (FieldValue_wire v ++ junk) ++ tail))
   < 2 ^ 32)%N ->
  Serializer_DecodeFieldValue MIN_SECONDS MAX_SECONDS
    (tag_bytes PB_WT_STRING 6
     ++ length_delimited (FieldsEntry_wire k (FieldValue_wire v ++ junk) ++ tail)
     ++ extra)
  = Abort.
Proof.
  intros Hvalid Hjunk Hlen.
  rewrite Serializer_DecodeFieldValue_map by exact Hlen.
  unfold FieldsEntry_wire in *. rewrite <- !app_assoc in *.
  set (fuel := length (tag_bytes PB_WT_STRING 6 ++ _)).
  assert (Hfuel : (length (FieldValue_wire v) < fuel)%nat).
  { subst fuel. clear Hlen.
    pose proof (tag_bytes_length PB_WT_STRING 6 eq_refl eq_refl). tag_side. }
  repeat (progress (rewrite ?length_app, ?length_delimited_length in Hlen)).
  rewrite DecodeObject_loop_first by tag_side.
  rewrite <- !app_assoc.
  rewrite DecodeFieldsEntry_key_value by tag_side.
  assert (Hv : parses (DecodeFieldValueImpl MIN_SECONDS MAX_SECONDS fuel)
                 (FieldValue_wire v) v).
  { apply parses_DecodeFieldValueImpl; [exact Hvalid | lia | exact Hfuel]. }
  rewrite <- !app_assoc, length_app.
  rewrite (parses_eq _ _ _ _ _ Hv) by lia.
  cbn [bind]. rewrite bytes_left_reader_at.
  destruct junk as [|c junk]; [contradiction|].
  replace (length (FieldValue_wire v) + length (c :: junk)
           - length (FieldValue_wire v))%nat
    with (S (length junk)) by (cbn [length]; lia).
  reflexivity.
Qed.

(** ** Fields that a map does not expect *)

Lemma varint_bytes_length_nat (x : nat) :
  (N.of_nat x < 2 ^ 32)%N ->
  (1 <= length (varint_bytes (N.of_nat x)) <= 10)%nat.
Proof.
  intros Hx. apply varint_bytes_length.
  eapply N.lt_trans; [exact Hx | reflexivity].
Qed.

Ltac below_2_32 :=
  change (2 ^ 32)%N with 4294967296%N; rewrite ?length_app; lia.

Lemma length_delimited_bound (payload : list byte) :
  (N.of_nat (length payload) < 2 ^ 32)%N ->
  (length payload < length (length_delimited payload) <= length payload + 10)%nat.
Proof.
  intros H. rewrite length_delimited_length.
  pose proof (varint_bytes_length_nat _ H). lia.
Qed.

(** X7.  The decoder of a map takes exactly the fields that the encoder
    writes, in their order, and aborts on any other: a field of the map
    that is not [fields] (1, length-delimited), a first field of an entry
    that is not [key] (1, length-delimited), and a field after the key
    that is not [value] (2, length-delimited).  So unknown fields are not
    skipped, and an entry with the value before the key aborts. *)
Theorem unexpected_field_in_map_aborts (wt number : N)
  (k stuff tail extra : list byte) :
  (wt < 8)%N -> (number < 2 ^ 29)%N -> (0 < wt + number)%N ->
  (N.of_nat (length k + length stuff + length tail) < 2 ^ 31)%N ->
  ((number, wt) <> (1%N, PB_WT_STRING) ->
   Serializer_DecodeFieldValue MIN_SECONDS MAX_SECONDS
     (tag_bytes PB_WT_STRING 6
      ++ length_delimited (tag_bytes wt number ++ stuff) ++ extra)
   = Abort
   /\ Serializer_DecodeFieldValue MIN_SECONDS MAX_SECONDS
        (tag_bytes PB_WT_STRING 6
         ++ length_delimited
              (tag_bytes PB_WT_STRING 1
               ++ length_delimited (tag_bytes wt number ++ stuff) ++ tail)
         ++ extra)
      = Abort)
  /\ ((number, wt) <> (2%N, PB_WT_STRING) ->
      Serializer_DecodeFieldValue MIN_SECONDS MAX_SECONDS
        (tag_bytes PB_WT_STRING 6
         ++ length_delimited
              (tag_bytes PB_WT_STRING 1
               ++ length_delimited
                    (tag_bytes PB_WT_STRING 1 ++ length_delimited k
                     ++ tag_bytes wt number ++ stuff)
               ++ tail)
         ++ extra)
      = Abort).
Proof.
  intros Hwt Hnumber Hpos Hsize.
  change (2 ^ 31)%N with 2147483648%N in Hsize.
  pose proof (tag_bytes_length wt number Hwt Hnumber) as Lt.
  pose proof (tag_bytes_length PB_WT_STRING 1 eq_refl eq_refl) as L1.
  assert (Hk : (N.of_nat (length k) < 2 ^ 32)%N) by below_2_32.
  pose proof (length_delimited_bound k Hk) as Lk.
  assert (Ha : (N.of_nat (length (tag_bytes wt number ++ stuff)) < 2 ^ 32)%N)
    by below_2_32.
  pose proof (length_delimited_bound _ Ha) as La. rewrite length_app in La.
  assert (Hc : (N.of_nat (length (tag_bytes PB_WT_STRING 1 ++ length_delimited k
                                  ++ tag_bytes wt number ++ stuff)) < 2 ^ 32)%N)
    by below_2_32.
  pose proof (length_delimited_bound _ Hc) as Lc. rewrite !length_app in Lc.
  split; [intros Hne; split | intros Hne].
  - (* the region of the map begins with the field *)
    rewrite Serializer_DecodeFieldValue_map by exact Ha.
    destruct (length (tag_bytes wt number ++ stuff)) as [|n] eqn:E;
      [rewrite length_app in E; lia|].
    cbn [DecodeObject_loop]. rewrite bytes_left_reader_at. cbn [Nat.eqb].
    rewrite <- app_assoc, ReadTag_eq by (try assumption; rewrite length_app in E; lia).
    reader_step. cbn [field_number wire_type].
    change google_firestore_v1beta1_MapValue_fields_tag with 1%N.
    destruct (N.eqb_spec number 1) as [->|]; [|reflexivity].
    destruct (N.eqb_spec wt PB_WT_STRING) as [->|]; [|reflexivity].
    now contradiction Hne.
  - (* the region of the entry begins with the field *)
    rewrite Serializer_DecodeFieldValue_map by below_2_32.
    rewrite <- !app_assoc, DecodeObject_loop_first by exact Ha.
    unfold DecodeFieldsEntry.
    rewrite <- app_assoc, ReadTag_eq by (try assumption; rewrite length_app; lia).
    reader_step. cbn [field_number wire_type].
    change google_firestore_v1beta1_MapValue_FieldsEntry_key_tag with 1%N.
    destruct (N.eqb_spec number 1) as [->|]; [|reflexivity].
    destruct (N.eqb_spec wt PB_WT_STRING) as [->|]; [|reflexivity].
    now contradiction Hne.
  - (* the field comes where the value of the entry is expected *)
    rewrite Serializer_DecodeFieldValue_map by below_2_32.
    rewrite <- !app_assoc, DecodeObject_loop_first by exact Hc.
    unfold DecodeFieldsEntry. rewrite <- !app_assoc.
    rewrite ReadTag_eq by (try reflexivity; rewrite !length_app; lia).
    reader_step. cbn [field_number wire_type].
    change (1 =? google_firestore_v1beta1_MapValue_FieldsEntry_key_tag)%N with true.
    change (PB_WT_STRING =? PB_WT_STRING)%N with true. reader_step.
    rewrite ReadString_eq by (try assumption; rewrite !length_app; lia).
    reader_step.
    rewrite ReadTag_eq by (try assumption; rewrite !length_app; lia).
    reader_step. cbn [field_number wire_type].
    change google_firestore_v1beta1_MapValue_FieldsEntry_value_tag with 2%N.
    destruct (N.eqb_spec number 2) as [->|]; [|reflexivity].
    destruct (N.eqb_spec wt PB_WT_STRING) as [->|]; [|reflexivity].
    now contradiction Hne.
Qed.

(** ** A failure inside a map *)

(** A Boolean whose varint is neither 0 nor 1 is read to its end and
    leaves the status DATA_LOSS. *)
Lemma DecodeFieldValueImpl_bad_boolean (fuel : nat) (u : N) (rest : list byte) :
  (0 < fuel)%nat -> (2 <= u < 2 ^ 64)%N ->
  DecodeFieldValueImpl MIN_SECONDS MAX_SECONDS fuel
    (reader_at ((tag_bytes PB_WT_VARINT 1 ++ varint_bytes u) ++ rest)
       (length (tag_bytes PB_WT_VARINT 1 ++ varint_bytes u)))
  = Ret (BooleanValue false, Reader.set_status DataLoss (reader_at rest 0)).
Proof.
  intros Hfuel [Hu2 Hu]. destruct fuel as [|fuel]; [lia|].
  cbn [DecodeFieldValueImpl]. rewrite <- app_assoc, length_app.
  rewrite ReadTag_eq by tag_side. reader_step.
  change (check_wire_type (mkTag PB_WT_VARINT 1) ?r) with (Ret r).
  reader_step. cbn [field_number].
  change (1 =? google_firestore_v1beta1_Value_null_value_tag)%N with false.
  change (1 =? google_firestore_v1beta1_Value_boolean_value_tag)%N with true.
  cbn iota. unfold Reader.ReadBool.
  rewrite (ReadVarint_eq _ _ _ Hu) by tag_side. reader_step.
  destruct (N.eqb_spec u 0); [lia|]. destruct (N.eqb_spec u 1); [lia|].
  cbn [bind]. do 4 f_equal. lia.
Qed.

(** X8.  A map of valid entries followed by an entry whose Boolean
    value is neither 0 nor 1: when that entry ends the map the answer is
    a DATA_LOSS status; when anything follows it in the map the process
    aborts, because the loop of [DecodeObject] returns at once and
    [ReadNestedMessage] then finds bytes left in the region of the map. *)
Theorem data_loss_inside_a_map (m : ObjectValue_Map) (k : list byte) (u : N)
  (tail extra : list byte) :
  FieldValue_valid MIN_SECONDS MAX_SECONDS (ObjectValueFromMap m) = true ->
  (2 <= u < 2 ^ 64)%N ->
  (N.of_nat (length (MapValue_wire m
                     ++ FieldsEntry_wire k (tag_bytes PB_WT_VARINT 1 ++ varint_bytes u)
                     ++ tail)) < 2 ^ 32)%N ->
  Serializer_DecodeFieldValue MIN_SECONDS MAX_SECONDS
    (tag_bytes PB_WT_STRING 6
     ++ length_delimited
          (MapValue_wire m
           ++ FieldsEntry_wire k (tag_bytes PB_WT_VARINT 1 ++ varint_bytes u)
           ++ tail)
     ++ extra)
  = match tail with
    | [] => Ret (StatusOf DataLoss)
    | _ :: _ => Abort
    end.
Proof.
  intros Hvalid Hu Hlen.
  destruct (FieldValue_valid_object _ _ _ Hvalid) as [Hsorted Hall].
  rewrite Serializer_DecodeFieldValue_map by exact Hlen.
  set (fuel := length (tag_bytes PB_WT_STRING 6 ++ _)).
  pose proof (tag_bytes_length PB_WT_STRING 6 eq_refl eq_refl) as L6.
  pose proof (tag_bytes_length PB_WT_STRING 1 eq_refl eq_refl) as L1.
  pose proof (tag_bytes_length PB_WT_STRING 2 eq_refl eq_refl) as L2.
  pose proof (tag_bytes_length PB_WT_VARINT 1 eq_refl eq_refl) as L0.
  pose proof (varint_bytes_length u (proj2 Hu)) as Lu.
  assert (Hfuel : (length (MapValue_wire m) < fuel)%nat)
    by (subst fuel; clear Hlen; tag_side).
  assert (Hent : Forall
            (fun kv => parses_region
                         (DecodeFieldValueImpl MIN_SECONDS MAX_SECONDS fuel)
                         (FieldValue_wire (snd kv)) (snd kv)) m).
  { rewrite Forall_forall. intros [k0 v0] Hin. cbn [snd].
    pose proof (In_MapValue_wire_length _ _ _ Hin) as Hshort.
    apply parses_parses_region, parses_DecodeFieldValueImpl;
      [exact (Hall _ _ Hin) | rewrite length_app in Hlen; lia | lia]. }
  rewrite <- !app_assoc. rewrite (length_app (MapValue_wire m)).
  rewrite (DecodeObject_loop_entries _ m [])
    by (try assumption; rewrite ?length_app in *; lia).
  cbn [app].
  pose proof (MapValue_wire_entries m) as Hcount.
  unfold FieldsEntry_wire in *. rewrite <- !app_assoc in *.
  repeat (progress (rewrite ?length_app, ?length_delimited_length in Hlen)).
  rewrite DecodeObject_loop_step by tag_side.
  rewrite <- !app_assoc.
  rewrite DecodeFieldsEntry_key_value by tag_side.
  rewrite DecodeFieldValueImpl_bad_boolean by (try assumption; lia).
  cbn [bind Reader.bytes_left Reader.set_status Reader.stream_ reader_at
         bytes_left Nat.eqb FIREBASE_ASSERT].
  rewrite Nat.sub_diag. unfold close_region, Reader.bytes_left.
  cbn [Nat.eqb FIREBASE_ASSERT bind Reader.status Reader.set_status
         Reader.status_ Reader.stream_ reader_at istate bytes_left ok negb].
  match goal with |- context [(?x =? 0)%nat] =>
    replace x with (length tail) by (rewrite !length_app; lia) end.
  destruct tail as [|c tail]; reflexivity.
Qed.

(** ** Entries in any order *)

Lemma to_N_inj (x y : byte) : Byte.to_N x = Byte.to_N y -> x = y.
Proof.
  intros E. apply (f_equal Byte.of_N) in E.
  rewrite !Byte.of_to_N in E. now injection E.
Qed.

Lemma string_lt_total (a : list byte) : forall b,
  string_lt a b = false -> string_lt b a = false -> a = b.
Proof.
  induction a as [|x a IH]; intros [|y b]; cbn [string_lt]; try easy.
  destruct (N.ltb_spec (Byte.to_N x) (Byte.to_N y)); [discriminate|].
  destruct (N.ltb_spec (Byte.to_N y) (Byte.to_N x)); [discriminate|].
  intros Hab Hba. f_equal; [apply to_N_inj; lia | now apply IH].
Qed.

Lemma Map_contains_emplace (key : list byte) (kv : list byte * FieldValue)
  (p : ObjectValue_Map) :
  Map_contains key (Map_emplace kv p) = true ->
  key = fst kv \/ Map_contains key p = true.
Proof.
  induction p as [|[k0 v0] p IH]; cbn [Map_emplace Map_contains].
  - destruct kv as [k v]. cbn [fst].
    destruct (string_lt key k) eqn:E1; [discriminate|].
    destruct (string_lt k key) eqn:E2; [discriminate|].
    intros _. left. now apply string_lt_total.
  - destruct (string_lt (fst kv) k0) eqn:E0.
    + destruct kv as [k v]. cbn [fst Map_contains] in *.
      destruct (string_lt key k) eqn:E1; [discriminate|].
      destruct (string_lt k key) eqn:E2; [now right|].
      intros _. left. now apply string_lt_total.
    + destruct (string_lt k0 (fst kv)) eqn:E3; [|now right].
      cbn [Map_contains].
      destruct (string_lt key k0); [discriminate|].
      destruct (string_lt k0 key); [exact IH | now right].
Qed.

Lemma In_Map_emplace_old (kv x : list byte * FieldValue) (p : ObjectValue_Map) :
  In x p -> In x (Map_emplace kv p).
Proof.
  induction p as [|[k0 v0] p IH]; [contradiction|].
  cbn [Map_emplace].
  destruct (string_lt (fst kv) k0); [now right|].
  destruct (string_lt k0 (fst kv)); [|easy].
  intros [E|Hin]; [now left | right; now apply IH].
Qed.

Lemma In_Map_emplace_new (kv : list byte * FieldValue) (p : ObjectValue_Map) :
  Map_contains (fst kv) p = false -> In kv (Map_emplace kv p).
Proof.
  induction p as [|[k0 v0] p IH]; cbn [Map_emplace Map_contains]; [now left|].
  destruct (string_lt (fst kv) k0); [now left|].
  destruct (string_lt k0 (fst kv)); [|discriminate].
  intros H. right. now apply IH.
Qed.

(** The map that the loop of [DecodeObject] builds from the entries
    [es], taken in their order, on top of [p]. *)
Lemma emplace_all_In (es : list (list byte * FieldValue)) :
  forall (p : ObjectValue_Map) (x : list byte * FieldValue),
  In x (fold_left (fun acc kv => Map_emplace kv acc) es p) -> In x es \/ In x p.
Proof.
  induction es as [|kv es IH]; intros p x; cbn [fold_left]; [now right|].
  intros Hin. destruct (IH _ _ Hin) as [H|H]; [left; now right|].
  destruct (In_Map_emplace _ _ _ H) as [->|H']; [left; now left | now right].
Qed.

Lemma emplace_all_old (es : list (list byte * FieldValue)) :
  forall (p : ObjectValue_Map) (x : list byte * FieldValue),
  In x p -> In x (fold_left (fun acc kv => Map_emplace kv acc) es p).
Proof.
  induction es as [|kv es IH]; intros p x Hin; cbn [fold_left]; [exact Hin|].
  now apply IH, In_Map_emplace_old.
Qed.

Lemma emplace_all_sorted (es : list (list byte * FieldValue)) :
  forall p : ObjectValue_Map,
  sorted_keys p = true ->
  sorted_keys (fold_left (fun acc kv => Map_emplace kv acc) es p) = true.
Proof.
  induction es as [|kv es IH]; intros p Hp; cbn [fold_left]; [exact Hp|].
  now apply IH, Map_emplace_sorted.
Qed.

Lemma emplace_all_new (es : list (list byte * FieldValue)) :
  forall p : ObjectValue_Map,
  NoDup (map fst es) ->
  (forall kv, In kv es -> Map_contains (fst kv) p = false) ->
  forall x, In x es -> In x (fold_left (fun acc kv => Map_emplace kv acc) es p).
Proof.
  induction es as [|kv es IH]; intros p Hnodup Hfresh x; [contradiction|].
  cbn [fold_left map] in *. inversion Hnodup as [|? ? Hnotin Hnodup']; subst.
  intros [->|Hin].
  - apply emplace_all_old, In_Map_emplace_new, Hfresh. now left.
  - apply IH; [exact Hnodup' | | exact Hin].
    intros kv' Hin'.
    destruct (Map_contains (fst kv') (Map_emplace kv p)) eqn:E; [|reflexivity].
    destruct (Map_contains_emplace _ _ _ E) as [Heq|Hold].
    + exfalso. apply Hnotin. rewrite <- Heq. now apply in_map.
    + rewrite Hfresh in Hold by (now right). discriminate.
Qed.

Lemma DecodeObject_loop_any_order
  (dec : Reader.t -> Run (FieldValue * Reader.t))
  (es : list (list byte * FieldValue)) :
  forall (p : ObjectValue_Map) (n : nat) (rest : list byte) (more : nat),
  NoDup (map fst es) ->
  (forall kv, In kv es -> Map_contains (fst kv) p = false) ->
  Forall (fun kv => parses_region dec (FieldValue_wire (snd kv)) (snd kv)) es ->
  (N.of_nat (length (MapValue_wire es)) < 2 ^ 32)%N ->
  (length (MapValue_wire es) + more <= n)%nat ->
  DecodeObject_loop dec n
    (reader_at (MapValue_wire es ++ rest) (length (MapValue_wire es) + more)) p
  = DecodeObject_loop dec (n - length es) (reader_at rest more)
      (fold_left (fun acc kv => Map_emplace kv acc) es p).
Proof.
  induction es as [|[k v] es IH]; intros p n rest more Hnodup Hfresh Hes Hlen Hn.
  - cbn [fold_left length]. now rewrite Nat.sub_0_r.
  - rewrite MapValue_wire_cons in *. cbn [fst snd map fold_left] in *.
    pose proof (tag_bytes_length PB_WT_STRING 1 eq_refl eq_refl) as L1.
    pose proof (tag_bytes_length PB_WT_STRING 2 eq_refl eq_refl) as L2.
    inversion Hnodup as [|? ? Hnotin Hnodup']; subst.
    inversion Hes as [|? ? Hv Hes']; subst. cbn [snd] in Hv.
    unfold FieldsEntry_wire in *. rewrite <- !app_assoc in *.
    repeat (progress (rewrite ?length_app, ?length_delimited_length in Hlen, Hn)).
    rewrite DecodeObject_loop_step by tag_side.
    rewrite <- !app_assoc.
    rewrite DecodeFieldsEntry_key_value by tag_side.
    rewrite Hv. cbn [bind]. rewrite bytes_left_reader_at.
    cbn [Nat.eqb FIREBASE_ASSERT bind]. rewrite !close_region_reader_at.
    rewrite bytes_left_reader_at, Nat.sub_diag.
    cbn [Nat.eqb FIREBASE_ASSERT bind].
    cbv zeta. rewrite ?close_region_reader_at, status_reader_at. cbn [ok negb fst].
    pose proof (Hfresh (k, v) (or_introl eq_refl)) as Hk. cbn [fst] in Hk.
    rewrite Hk. cbn [negb FIREBASE_ASSERT bind].
    match goal with |- DecodeObject_loop _ _ (reader_at _ ?bl) _ = _ =>
      replace bl with (length (MapValue_wire es) + more)%nat by tag_side end.
    rewrite IH; try assumption; [| | lia | lia].
    + f_equal. cbn [length]. lia.
    + intros kv' Hin'.
      destruct (Map_contains (fst kv') (Map_emplace (k, v) p)) eqn:E;
        [|reflexivity].
      destruct (Map_contains_emplace _ _ _ E) as [Heq|Hold].
      * exfalso. apply Hnotin. cbn [fst] in Heq. rewrite <- Heq. now apply in_map.
      * rewrite Hfresh in Hold by (now right). discriminate.
Qed.

(** X9.  The entries of a map may come in any order on the wire: with
    keys that differ from one another and valid values, the map is decoded
    to the [std::map] in key order that has exactly these entries. *)
Theorem map_entries_in_any_order (es : list (list byte * FieldValue))
  (extra : list byte) :
  NoDup (map fst es) ->
  (forall k v, In (k, v) es -> FieldValue_valid MIN_SECONDS MAX_SECONDS v = true) ->
  (N.of_nat (length (MapValue_wire es)) < 2 ^ 32)%N ->
  exists m : ObjectValue_Map,
    Serializer_DecodeFieldValue MIN_SECONDS MAX_SECONDS
      (tag_bytes PB_WT_STRING 6 ++ length_delimited (MapValue_wire es) ++ extra)
    = Ret (ValueOf (ObjectValueFromMap m))
    /\ sorted_keys m = true
    /\ forall kv, In kv m <-> In kv es.
Proof.
  intros Hnodup Hvalid Hlen.
  exists (fold_left (fun acc kv => Map_emplace kv acc) es []).
  split; [|split].
  - rewrite Serializer_DecodeFieldValue_map by exact Hlen.
    set (fuel := length (tag_bytes PB_WT_STRING 6 ++ _)).
    pose proof (tag_bytes_length PB_WT_STRING 6 eq_refl eq_refl) as L6.
    assert (Hfuel : (length (MapValue_wire es) < fuel)%nat)
      by (subst fuel; clear Hlen; tag_side).
    assert (Hent : Forall
              (fun kv => parses_region
                           (DecodeFieldValueImpl MIN_SECONDS MAX_SECONDS fuel)
                           (FieldValue_wire (snd kv)) (snd kv)) es).
    { rewrite Forall_forall. intros [k0 v0] Hin. cbn [snd].
      pose proof (In_MapValue_wire_length _ _ _ Hin) as Hshort.
      apply parses_parses_region, parses_DecodeFieldValueImpl;
        [exact (Hvalid _ _ Hin) | lia | lia]. }
    rewrite <- (Nat.add_0_r (length (MapValue_wire es))) at 2.
    rewrite DecodeObject_loop_any_order by (try assumption; try reflexivity; lia).
    rewrite DecodeObject_loop_done. reflexivity.
  - now apply emplace_all_sorted.
  - intros kv. split.
    + intros Hin. destruct (emplace_all_In _ _ _ Hin) as [H|[]]. exact H.
    + now apply emplace_all_new.
Qed.

(** ** A key that comes twice *)

(** The map that the loop has built from entries with keys that differ
    has each of their keys. *)
Lemma emplace_all_contains (es : list (list byte * FieldValue)) (k : list byte)
  (v0 : FieldValue) :
  NoDup (map fst es) -> In (k, v0) es ->
  Map_contains k (fold_left (fun acc kv => Map_emplace kv acc) es []) = true.
Proof.
  intros Hnodup Hin.
  apply (Map_contains_In _ k v0); [now apply emplace_all_sorted|].
  now apply emplace_all_new.
Qed.

(** The decoder at the entry that follows the entries [es] in the region
    of a map: the loop has built the map of [es] and reads the entry with
    the key [k] and the region [value]. *)
Lemma Serializer_DecodeFieldValue_after_entries
  (es : list (list byte * FieldValue)) (k value tail extra : list byte) :
  NoDup (map fst es) ->
  (forall k' v', In (k', v') es ->
                 FieldValue_valid MIN_SECONDS MAX_SECONDS v' = true) ->
  (N.of_nat (length (MapValue_wire es ++ FieldsEntry_wire k value ++ tail))
   < 2 ^ 32)%N ->
  forall fuel : nat,
    fuel = length (tag_bytes PB_WT_STRING 6
                   ++ length_delimited
                        (MapValue_wire es ++ FieldsEntry_wire k value ++ tail)
                   ++ extra) ->
    Serializer_DecodeFieldValue MIN_SECONDS MAX_SECONDS
         (tag_bytes PB_WT_STRING 6
          ++ length_delimited
               (MapValue_wire es ++ FieldsEntry_wire k value ++ tail)
          ++ extra)
       = '(m, sub) <-
            ('(v, sub) <-
               DecodeFieldValueImpl MIN_SECONDS MAX_SECONDS fuel
                 (reader_at (value ++ tail ++ extra) (length value)) ;;
             _ <- FIREBASE_ASSERT (Reader.bytes_left sub =? 0)%nat ;;
             let result := fold_left (fun acc kv => Map_emplace kv acc) es [] in
             if negb (ok (Reader.status sub))
             then Ret (result, close_region sub (length tail))
             else
               _ <- FIREBASE_ASSERT (negb (Map_contains k result)) ;;
               DecodeObject_loop
                 (DecodeFieldValueImpl MIN_SECONDS MAX_SECONDS fuel)
                 (pred (length (MapValue_wire es ++ FieldsEntry_wire k value ++ tail)
                        - length es))
                 (close_region sub (length tail))
                 (Map_emplace (k, v) result)) ;;
         _ <- FIREBASE_ASSERT (Reader.bytes_left sub =? 0)%nat ;;
         if ok (Reader.status sub) then Ret (ValueOf (ObjectValueFromMap m))
         else Ret (StatusOf (Reader.status sub)).
Proof.
  intros Hnodup Hvalid Hlen fuel Efuel.
  rewrite Serializer_DecodeFieldValue_map by exact Hlen. rewrite <- Efuel.
  pose proof (tag_bytes_length PB_WT_STRING 6 eq_refl eq_refl) as L6.
  pose proof (tag_bytes_length PB_WT_STRING 1 eq_refl eq_refl) as L1.
  pose proof (tag_bytes_length PB_WT_STRING 2 eq_refl eq_refl) as L2.
  assert (Hfuel : (length (MapValue_wire es) < fuel)%nat)
    by (rewrite Efuel; clear Hlen Efuel; tag_side).
  clear Efuel.
  assert (Hent : Forall
            (fun kv => parses_region
                         (DecodeFieldValueImpl MIN_SECONDS MAX_SECONDS fuel)
                         (FieldValue_wire (snd kv)) (snd kv)) es).
  { rewrite Forall_forall. intros [k0 v0] Hin. cbn [snd].
    pose proof (In_MapValue_wire_length _ _ _ Hin) as Hshort.
    apply parses_parses_region, parses_DecodeFieldValueImpl;
      [exact (Hvalid _ _ Hin) | rewrite length_app in Hlen; lia | lia]. }
  rewrite <- !app_assoc. rewrite (length_app (MapValue_wire es)).
  rewrite (DecodeObject_loop_any_order _ es [])
    by (try assumption; try reflexivity; rewrite ?length_app in *; lia).
  pose proof (MapValue_wire_entries es) as Hcount.
  unfold FieldsEntry_wire in *. rewrite <- !app_assoc in *.
  repeat (progress (rewrite ?length_app, ?length_delimited_length in Hlen)).
  rewrite DecodeObject_loop_step by tag_side.
  rewrite <- !app_assoc.
  rewrite DecodeFieldsEntry_key_value by tag_side.
  rewrite Nat.sub_diag.
  match goal with |- context [close_region _ (?a - ?b)] =>
    replace (a - b)%nat with (length tail) by (rewrite !length_app; lia) end.
  destruct (DecodeFieldValueImpl _ _ fuel _) as [[v sub]| |]; cbn [bind];
    try reflexivity.
  destruct (FIREBASE_ASSERT (Reader.bytes_left sub =? 0)%nat); reflexivity.
Qed.

(** C5, as amended.  In the loop of [DecodeObject], at any reader and
    with any map built so far: when the entry that is read has a key that
    the map already has, the loop aborts on the assertion if the entry was
    read with an OK status, and returns the map built so far, without
    looking at the key, if it was not.  At [Serializer::DecodeFieldValue]:
    after entries with keys that differ, in any order, one more entry for
    one of these keys aborts when its value is a valid encoded value,
    whatever follows it in the map; when its value is a Boolean that is
    neither 0 nor 1, the key is not looked at: the answer is a DATA_LOSS
    status if the entry ends the map, and the process aborts on the
    assertion of [ReadNestedMessage] if bytes of the map follow it. *)
Theorem duplicate_key_aborts :
  (forall (dec : Reader.t -> Run (FieldValue * Reader.t)) (n : nat)
          (reader r1 r2 : Reader.t) (tag : Tag) (fv : list byte * FieldValue)
          (result : ObjectValue_Map),
     Reader.bytes_left reader <> 0%nat ->
     Reader.ReadTag reader = Ret (tag, r1) ->
     ok (Reader.status r1) = true ->
     field_number tag = google_firestore_v1beta1_MapValue_fields_tag ->
     wire_type tag = PB_WT_STRING ->
     Reader.ReadNestedMessage value_type_default (DecodeFieldsEntry dec) r1
     = Ret (fv, r2) ->
     Map_contains (fst fv) result = true ->
     DecodeObject_loop dec (S n) reader result
     = if ok (Reader.status r2) then Abort else Ret (result, r2))
  /\ (forall (es : list (list byte * FieldValue)) (k : list byte)
             (v0 v : FieldValue) (tail extra : list byte),
        NoDup (map fst es) ->
        (forall k' v', In (k', v') es ->
                       FieldValue_valid MIN_SECONDS MAX_SECONDS v' = true) ->
        In (k, v0) es ->
        FieldValue_valid MIN_SECONDS MAX_SECONDS v = true ->
        (N.of_nat (length (MapValue_wire es
                           ++ FieldsEntry_wire k (FieldValue_wire v) ++ tail))
         < 2 ^ 32)%N ->
        Serializer_DecodeFieldValue MIN_SECONDS MAX_SECONDS
          (tag_bytes PB_WT_STRING 6
           ++ length_delimited
                (MapValue_wire es
                 ++ FieldsEntry_wire k (FieldValue_wire v) ++ tail)
           ++ extra)
        = Abort)
  /\ (forall (es : list (list byte * FieldValue)) (k : list byte)
             (v0 : FieldValue) (u : N) (tail extra : list byte),
        NoDup (map fst es) ->
        (forall k' v', In (k', v') es ->
                       FieldValue_valid MIN_SECONDS MAX_SECONDS v' = true) ->
        In (k, v0) es ->
        (2 <= u < 2 ^ 64)%N ->
        (N.of_nat (length (MapValue_wire es
                           ++ FieldsEntry_wire k
                                (tag_bytes PB_WT_VARINT 1 ++ varint_bytes u)
                           ++ tail))
         < 2 ^ 32)%N ->
        Serializer_DecodeFieldValue MIN_SECONDS MAX_SECONDS
          (tag_bytes PB_WT_STRING 6
           ++ length_delimited
                (MapValue_wire es
                 ++ FieldsEntry_wire k
                      (tag_bytes PB_WT_VARINT 1 ++ varint_bytes u)
                 ++ tail)
           ++ extra)
        = match tail with
          | [] => Ret (StatusOf DataLoss)
          | _ :: _ => Abort
          end).
Proof.
  split; [|split].
  - (* the loop, at any reader and any map built so far *)
    intros dec n reader r1 r2 tag fv result Hleft Htag Hok1 Hnumber Hwire
      Hentry Hdup.
    cbn [DecodeObject_loop].
    destruct (Nat.eqb_spec (Reader.bytes_left reader) 0) as [E|_];
      [contradiction|].
    rewrite Htag. cbn [bind]. rewrite Hok1, Hnumber, Hwire.
    cbn [negb]. change (_ =? _)%N with true at 1.
    change (PB_WT_STRING =? PB_WT_STRING)%N with true.
    cbn [FIREBASE_ASSERT bind]. rewrite Hentry. cbn [bind].
    destruct (ok (Reader.status r2)); cbn [negb]; [|reflexivity].
    now rewrite Hdup.
  - (* a second entry for a key, with a value that is read *)
    intros es k v0 v tail extra Hnodup Hvalid Hin Hv Hlen.
    rewrite (Serializer_DecodeFieldValue_after_entries es k _ tail extra
               Hnodup Hvalid Hlen _ eq_refl).
    set (fuel := length (tag_bytes PB_WT_STRING 6 ++ _)).
    pose proof (tag_bytes_length PB_WT_STRING 6 eq_refl eq_refl) as L6.
    assert (Hfuel : (length (FieldValue_wire v) < fuel)%nat).
    { subst fuel. clear Hlen. unfold FieldsEntry_wire. tag_side. }
    assert (Hsmall : (N.of_nat (length (FieldValue_wire v)) < 2 ^ 32)%N).
    { unfold FieldsEntry_wire in Hlen.
      repeat (progress (rewrite ?length_app, ?length_delimited_length in Hlen)).
      lia. }
    rewrite (parses_parses_region _ _ _
               (parses_DecodeFieldValueImpl _ _ v Hv Hsmall fuel Hfuel)).
    cbn [bind]. rewrite bytes_left_reader_at, status_reader_at.
    cbn [Nat.eqb FIREBASE_ASSERT bind ok negb].
    now rewrite (emplace_all_contains es k v0 Hnodup Hin).
  - (* a second entry for a key, with a value that is refused *)
    intros es k v0 u tail extra Hnodup Hvalid Hin Hu Hlen.
    rewrite (Serializer_DecodeFieldValue_after_entries es k _ tail extra
               Hnodup Hvalid Hlen _ eq_refl).
    set (fuel := length (tag_bytes PB_WT_STRING 6 ++ _)).
    pose proof (tag_bytes_length PB_WT_STRING 6 eq_refl eq_refl) as L6.
    assert (Hfuel : (0 < fuel)%nat).
    { subst fuel. clear Hlen. rewrite length_app. lia. }
    rewrite DecodeFieldValueImpl_bad_boolean by assumption.
    destruct tail as [|c tail]; reflexivity.
Qed.

(** ** Encoding and decoding together *)

Lemma Serializer_DecodeFieldValue_valid (bytes : list byte) (v : FieldValue) :
  Serializer_DecodeFieldValue MIN_SECONDS MAX_SECONDS bytes = Ret (ValueOf v) ->
  FieldValue_valid MIN_SECONDS MAX_SECONDS v = true.
Proof.
  unfold Serializer_DecodeFieldValue. intros H.
  destruct (DecodeFieldValueImpl _ _ _ _) as [[fv reader]| |] eqn:E;
    cbn [bind] in H; try discriminate.
  destruct (ok (Reader.status reader)) eqn:Hok; [|discriminate].
  injection H as <-.
  exact (DecodeFieldValueImpl_valid _ _ _ _ _ _ E Hok).
Qed.

(** X10.  What the decoder returns can be encoded again, and the bytes
    of that encoding decode to the same value, whatever form the value had
    in the input. *)
Theorem reencoding_is_stable (bytes bytes' : list byte) (v : FieldValue)
  (st : Status) :
  Serializer_DecodeFieldValue MIN_SECONDS MAX_SECONDS bytes = Ret (ValueOf v) ->
  Serializer_EncodeFieldValue v [] = Ret (st, bytes') ->
  st = OK
  /\ Serializer_DecodeFieldValue MIN_SECONDS MAX_SECONDS bytes' = Ret (ValueOf v).
Proof.
  intros Hdec Henc.
  pose proof (Serializer_DecodeFieldValue_valid _ _ Hdec) as Hvalid.
  destruct (Serializer_EncodeFieldValue_inv _ _ _ _ Henc) as (_ & Hfit & -> & ->).
  split; [reflexivity|]. cbn [app].
  rewrite <- (app_nil_r (FieldValue_wire v)).
  apply Serializer_DecodeFieldValue_wire; [exact Hvalid|].
  eapply N.le_lt_trans; [exact Hfit | reflexivity].
Qed.

(** X11.  The encodings of valid values are prefix-free: when the
    encodings of two valid values, each followed by any bytes, are the same
    byte string, then the values, the encodings and the bytes that follow
    are the same. *)
Theorem encoding_is_prefix_free (v1 v2 : FieldValue) (st1 st2 : Status)
  (b1 b2 e1 e2 : list byte) :
  FieldValue_valid MIN_SECONDS MAX_SECONDS v1 = true ->
  FieldValue_valid MIN_SECONDS MAX_SECONDS v2 = true ->
  Serializer_EncodeFieldValue v1 [] = Ret (st1, b1) ->
  Serializer_EncodeFieldValue v2 [] = Ret (st2, b2) ->
  b1 ++ e1 = b2 ++ e2 ->
  v1 = v2 /\ b1 = b2 /\ e1 = e2.
Proof.
  intros Hv1 Hv2 Henc1 Henc2 Heq.
  destruct (Serializer_EncodeFieldValue_inv _ _ _ _ Henc1) as (_ & Hfit1 & _ & ->).
  destruct (Serializer_EncodeFieldValue_inv _ _ _ _ Henc2) as (_ & Hfit2 & _ & ->).
  cbn [app] in *.
  assert (Hsame : v1 = v2).
  { assert (H1 : Serializer_DecodeFieldValue MIN_SECONDS MAX_SECONDS
                   (FieldValue_wire v1 ++ e1) = Ret (ValueOf v1)).
    { apply Serializer_DecodeFieldValue_wire; [exact Hv1|].
      eapply N.le_lt_trans; [exact Hfit1 | reflexivity]. }
    assert (H2 : Serializer_DecodeFieldValue MIN_SECONDS MAX_SECONDS
                   (FieldValue_wire v2 ++ e2) = Ret (ValueOf v2)).
    { apply Serializer_DecodeFieldValue_wire; [exact Hv2|].
      eapply N.le_lt_trans; [exact Hfit2 | reflexivity]. }
    rewrite Heq, H2 in H1. now injection H1. }
  subst v2. split; [reflexivity|]. split; [reflexivity|].
  now apply app_inv_head in Heq.
Qed.

(** ** Where the decoder can abort *)

Lemma ReadVarint_returns (r : Reader.t) :
  exists v r', Reader.ReadVarint r = Ret (v, r').
Proof.
  unfold Reader.ReadVarint. destruct (negb _); [now eexists _, _|].
  destruct (pb_decode_varint _) as [[v|] s]; now eexists _, _.
Qed.

(** The assertion of [ReadString] holds whenever it is reached: a read
    of [bytes_left] bytes that succeeds leaves none. *)
Lemma ReadString_returns (r : Reader.t) :
  exists s r', Reader.ReadString r = Ret (s, r').
Proof.
  unfold Reader.ReadString. destruct (negb _); [now eexists _, _|].
  destruct (pb_make_string_substream _) as [[sub|] s']; [|now eexists _, _].
  unfold pb_read.
  destruct (_ <? _)%nat; [now eexists _, _|].
  destruct (_ <? _)%nat; [now eexists _, _|].
  cbn [bytes_left]. rewrite Nat.sub_diag. cbn [Nat.eqb FIREBASE_ASSERT bind].
  now eexists _, _.
Qed.

(** [H] says that a computation which returns on every path aborts. *)
Ltac returned H :=
  cbn [bind Reader.status Reader.set_status Reader.status_ ok negb] in H;
  repeat match type of H with
         | context [if ?c then _ else _] =>
             destruct c;
             cbn [bind Reader.status Reader.set_status Reader.status_ ok negb] in H
         end;
  discriminate H.

(** X12.  The decoder can only abort behind a tag that it has read and
    whose field number is not that of a Null, Boolean, Integer or String:
    on these four fields every path returns, and the assertion of
    [ReadString] holds whenever it is reached. *)
Theorem abort_needs_unknown_timestamp_or_map (bytes : list byte) :
  Serializer_DecodeFieldValue MIN_SECONDS MAX_SECONDS bytes = Abort ->
  exists tag reader,
    Reader.ReadTag (Reader.Wrap bytes) = Ret (tag, reader)
    /\ ok (Reader.status reader) = true
    /\ ~ In (field_number tag)
         [google_firestore_v1beta1_Value_null_value_tag;
          google_firestore_v1beta1_Value_boolean_value_tag;
          google_firestore_v1beta1_Value_integer_value_tag;
          google_firestore_v1beta1_Value_string_value_tag].
Proof.
  unfold Serializer_DecodeFieldValue. cbn [DecodeFieldValueImpl].
  destruct (ReadTag_left (Reader.Wrap bytes)) as (tag & reader & E & _).
  rewrite E. cbn [bind]. intros Habort. exists tag, reader.
  split; [reflexivity|].
  destruct (ok (Reader.status reader)) eqn:Hok; cbn [negb] in Habort;
    [|cbn [bind] in Habort; now destruct (ok _)].
  split; [reflexivity|].
  intros Hin. unfold check_wire_type, is_varint_field, is_string_field in Habort.
  cbn [In] in Hin.
  unfold google_firestore_v1beta1_Value_null_value_tag,
    google_firestore_v1beta1_Value_boolean_value_tag,
    google_firestore_v1beta1_Value_integer_value_tag,
    google_firestore_v1beta1_Value_string_value_tag,
    google_firestore_v1beta1_Value_timestamp_value_tag,
    google_firestore_v1beta1_Value_map_value_tag in *.
  destruct Hin as [H|[H|[H|[H|[]]]]]; rewrite <- H in Habort;
    cbn [N.eqb Pos.eqb orb] in Habort.
  - (* Null *)
    destruct (negb (wire_type tag =? PB_WT_VARINT)%N); [returned Habort|].
    cbn [bind] in Habort. rewrite Hok in Habort. cbn [negb] in Habort.
    unfold Reader.ReadNull in Habort.
    destruct (ReadVarint_returns reader) as (v & r' & Ev). rewrite Ev in Habort.
    returned Habort.
  - (* Boolean *)
    destruct (negb (wire_type tag =? PB_WT_VARINT)%N); [returned Habort|].
    cbn [bind] in Habort. rewrite Hok in Habort. cbn [negb] in Habort.
    unfold Reader.ReadBool in Habort.
    destruct (ReadVarint_returns reader) as (v & r' & Ev). rewrite Ev in Habort.
    returned Habort.
  - (* Integer *)
    destruct (negb (wire_type tag =? PB_WT_VARINT)%N); [returned Habort|].
    cbn [bind] in Habort. rewrite Hok in Habort. cbn [negb] in Habort.
    unfold Reader.ReadInteger in Habort.
    destruct (ReadVarint_returns reader) as (v & r' & Ev). rewrite Ev in Habort.
    returned Habort.
  - (* String *)
    destruct (negb (wire_type tag =? PB_WT_STRING)%N); [returned Habort|].
    cbn [bind] in Habort. rewrite Hok in Habort. cbn [negb] in Habort.
    destruct (ReadString_returns reader) as (s & r' & Es). rewrite Es in Habort.
    returned Habort.
Qed.

End Behaviour.

(** ** The size of an integer *)

(** X13.  [WriteInteger] hands the [int64_t] to [WriteVarint] as a
    [uint64_t]: an Integer is encoded in 2 to 11 bytes, and a negative one
    always in 11 (its tag and a varint of ten bytes). *)
Theorem negative_integer_takes_eleven_bytes (i : Z) (out_bytes : list byte) :
  in_int64b i = true ->
  exists wire : list byte,
    Serializer_EncodeFieldValue (IntegerValue i) out_bytes
    = Ret (OK, out_bytes ++ wire)
    /\ (2 <= length wire <= 11)%nat
    /\ ((i < 0)%Z -> length wire = 11%nat).
Proof.
  intros Hi. apply in_int64b_spec in Hi.
  exists (FieldValue_wire (IntegerValue i)).
  pose proof (varint_bytes_length _ (to_uint64_lt i)) as Lv.
  assert (L2 : length (tag_bytes PB_WT_VARINT 2) = 1%nat) by reflexivity.
  cbn [FieldValue_wire]. rewrite length_app, L2.
  split; [|split; [lia|]].
  - rewrite (Serializer_EncodeFieldValue_wire (IntegerValue i)) by reflexivity.
    cbn [FieldValue_wire]. rewrite length_app, L2.
    destruct (N.leb_spec (N.of_nat (1 + length (varint_bytes (to_uint64 i))))
                Writer.kMaxDocumentSize) as [_|Hbig]; [reflexivity|].
    unfold Writer.kMaxDocumentSize in Hbig. lia.
  - intros Hneg.
    rewrite (varint_bytes_leb128 _ (to_uint64_lt i)) in *.
    pose proof (leb128_long 10 (to_uint64 i) 9) as Hlong.
    assert (Hu : (2 ^ (7 * N.of_nat 9) <= to_uint64 i)%N).
    { unfold to_uint64. change (2 ^ (7 * N.of_nat 9))%N with 9223372036854775808%N.
      replace (i mod 18446744073709551616)%Z with (i + 18446744073709551616)%Z
        by (apply Z.mod_unique with (q := (-1)%Z); lia).
      lia. }
    specialize (Hlong Hu ltac:(lia)). lia.
Qed.
(** ** The names that [DecodeKey] takes *)

Ltac key_step :=
  cbn [length Nat.leb Nat.ltb andb FIREBASE_ASSERT bind nth app skipn path].

(** X14.  The names that [Serializer::DecodeKey] takes are exactly
    those whose path is [projects], the project of the serializer,
    [databases], its database, [documents], and then the path of the key
    that is returned; on every other name the process aborts. *)
Theorem DecodeKey_accepts_exactly (database_id_ : DatabaseId) (name : list byte) :
  match Serializer_DecodeKey database_id_ name with
  | Ret key =>
      FromString name
      = EncodeDatabaseId database_id_ ++ str "documents" :: path key
  | Abort =>
      forall local : ResourcePath,
        FromString name
        <> EncodeDatabaseId database_id_ ++ str "documents" :: local
  | OutOfFuel => False
  end.
Proof.
  unfold Serializer_DecodeKey, DecodeResourceName, IsValidResourceName,
    ExtractLocalPathFromResourceName, EncodeDatabaseId, PopFirst, segment_at.
  destruct (FromString name) as [|s0 [|s1 [|s2 [|s3 [|s4 p]]]]]; key_step;
    try (intros local; discriminate).
  - (* four segments: a database, and no local path *)
    destruct (string_eqb s0 (str "projects") && string_eqb s2 (str "databases"));
      key_step; [|intros local; discriminate].
    destruct (string_eqb s1 (project_id database_id_));
      key_step; [|intros local; discriminate].
    destruct (string_eqb s3 (database_id database_id_));
      key_step; intros local; discriminate.
  - destruct (string_eqb s0 (str "projects")) eqn:E0; key_step;
      [|intros local E; injection E as -> _; now rewrite string_eqb_refl in E0].
    destruct (string_eqb s2 (str "databases")) eqn:E2; key_step;
      [|intros local E; injection E as _ _ -> _;
        now rewrite string_eqb_refl in E2].
    destruct (string_eqb s1 (project_id database_id_)) eqn:E1; key_step;
      [|intros local E; injection E as _ -> _;
        now rewrite string_eqb_refl in E1].
    destruct (string_eqb s3 (database_id database_id_)) eqn:E3; key_step;
      [|intros local E; injection E as _ _ _ -> _;
        now rewrite string_eqb_refl in E3].
    destruct (string_eqb s4 (str "documents")) eqn:E4; key_step;
      [|intros local E; injection E as _ _ _ _ -> _;
        now rewrite string_eqb_refl in E4].
    apply string_eqb_eq in E0, E1, E2, E3, E4. now subst.
Qed.

(** * The further properties at concrete inputs *)

Lemma encoder_status_stays_OK_witness :
  Serializer_EncodeFieldValue example_nested [x2a]
  = Ret (OK, x2a :: FieldValue_wire example_nested)
  /\ OK = OK.
Proof.
  split; [vm_compute; reflexivity|].
  apply (proj2 (encoder_status_stays_OK example_nested)
           [x2a] (x2a :: FieldValue_wire example_nested) OK).
  vm_compute. reflexivity.
Defined.

Lemma unsupported_value_aborts_witness :
  FieldValue_supported
    (ObjectValueFromMap [(str "a", BooleanValue true); (str "z", UnimplementedValue)])
  = false
  /\ EncodeFieldValueImpl
       (ObjectValueFromMap
          [(str "a", BooleanValue true); (str "z", UnimplementedValue)])
       Writer.Sizing
     = Abort
  /\ Serializer_EncodeFieldValue
       (ObjectValueFromMap
          [(str "a", BooleanValue true); (str "z", UnimplementedValue)])
       []
     = Abort.
Proof.
  split; [reflexivity|].
  apply (unsupported_value_aborts
           (ObjectValueFromMap
              [(str "a", BooleanValue true); (str "z", UnimplementedValue)])
           []).
  reflexivity.
Defined.

Lemma truncated_encoding_is_data_loss_witness :
  Serializer_EncodeFieldValue example_object []
  = Ret (OK, [x32; x09; x0a; x07; x0a; x01; x61; x12; x02; x08; x01])
  /\ (10 < length [x32; x09; x0a; x07; x0a; x01; x61; x12; x02; x08; x01])%nat
  /\ example_decode
       (firstn 10 [x32; x09; x0a; x07; x0a; x01; x61; x12; x02; x08; x01])
     = Ret (StatusOf DataLoss).
Proof.
  split; [vm_compute; reflexivity|]. split; [cbn [length]; lia|].
  apply (truncated_encoding_is_data_loss example_MIN_SECONDS example_MAX_SECONDS
           example_object OK
           [x32; x09; x0a; x07; x0a; x01; x61; x12; x02; x08; x01] 10);
    [vm_compute; reflexivity | cbn [length]; lia].
Defined.

Lemma null_and_boolean_payload_witness :
  (2 < 2 ^ 64)%N
  /\ example_decode (tag_bytes PB_WT_VARINT 11 ++ varint_bytes 2 ++ [])
     = Ret (StatusOf DataLoss)
  /\ example_decode (tag_bytes PB_WT_VARINT 1 ++ varint_bytes 2 ++ [])
     = Ret (StatusOf DataLoss).
Proof.
  split; [reflexivity|].
  apply (null_and_boolean_payload example_MIN_SECONDS example_MAX_SECONDS 2 []).
  reflexivity.
Defined.

Lemma timestamp_range_check_witness :
  in_int64b 253402300800 = true
  /\ (- 2147483648 <= 0 < 2147483648)%Z
  /\ example_decode
       (tag_bytes PB_WT_STRING 10
        ++ length_delimited
             (Timestamp_wire {| seconds := 253402300800; nanoseconds := 0 |})
        ++ [])
     = Ret (StatusOf DataLoss).
Proof.
  split; [reflexivity|]. split; [lia|].
  apply (timestamp_range_check example_MIN_SECONDS example_MAX_SECONDS
           {| seconds := 253402300800; nanoseconds := 0 |} []);
    [reflexivity | cbn [nanoseconds]; lia].
Defined.

Lemma nested_trailing_bytes_abort_witness :
  FieldValue_valid example_MIN_SECONDS example_MAX_SECONDS (BooleanValue true) = true
  /\ [x00] <> []
  /\ example_decode
       (tag_bytes PB_WT_STRING 6
        ++ length_delimited
             (FieldsEntry_wire (str "a")
                (FieldValue_wire (BooleanValue true) ++ [x00]) ++ [])
        ++ [])
     = Abort.
Proof.
  split; [reflexivity|]. split; [discriminate|].
  apply (nested_trailing_bytes_abort example_MIN_SECONDS example_MAX_SECONDS
           (str "a") (BooleanValue true) [x00] [] []);
    [reflexivity | discriminate | vm_compute; reflexivity].
Defined.

Lemma unexpected_field_in_map_aborts_witness :
  (PB_WT_STRING < 8)%N /\ (2 < 2 ^ 29)%N /\ (0 < PB_WT_STRING + 2)%N
  /\ (2%N, PB_WT_STRING) <> (1%N, PB_WT_STRING)
  /\ example_decode
       (tag_bytes PB_WT_STRING 6
        ++ length_delimited
             (tag_bytes PB_WT_STRING 1
              ++ length_delimited
                   (tag_bytes PB_WT_STRING 2 ++ [x02; x08; x01; x0a; x01; x61])
              ++ [])
        ++ [])
     = Abort.
Proof.
  split; [reflexivity|]. split; [reflexivity|]. split; [reflexivity|].
  split; [discriminate|].
  apply (proj1 (unexpected_field_in_map_aborts
                  example_MIN_SECONDS example_MAX_SECONDS PB_WT_STRING 2
                  [] [x02; x08; x01; x0a; x01; x61] [] []
                  eq_refl eq_refl eq_refl eq_refl)).
  discriminate.
Defined.

Lemma data_loss_inside_a_map_witness :
  FieldValue_valid example_MIN_SECONDS example_MAX_SECONDS example_object = true
  /\ (2 <= 2 < 2 ^ 64)%N
  /\ example_decode
       (tag_bytes PB_WT_STRING 6
        ++ length_delimited
             (MapValue_wire [(str "a", BooleanValue true)]
              ++ FieldsEntry_wire (str "b")
                   (tag_bytes PB_WT_VARINT 1 ++ varint_bytes 2)
              ++ [])
        ++ [])
     = Ret (StatusOf DataLoss)
  /\ example_decode
       (tag_bytes PB_WT_STRING 6
        ++ length_delimited
             (MapValue_wire []
              ++ FieldsEntry_wire (str "b")
                   (tag_bytes PB_WT_VARINT 1 ++ varint_bytes 2)
              ++ MapValue_wire [(str "a", BooleanValue true)])
        ++ [])
     = Abort.
Proof.
  split; [reflexivity|]. split; [split; [discriminate | reflexivity]|].
  split.
  - apply (data_loss_inside_a_map example_MIN_SECONDS example_MAX_SECONDS
             [(str "a", BooleanValue true)] (str "b") 2 [] []);
      [reflexivity | split; [discriminate | reflexivity] | vm_compute; reflexivity].
  - apply (data_loss_inside_a_map example_MIN_SECONDS example_MAX_SECONDS
             [] (str "b") 2 (MapValue_wire [(str "a", BooleanValue true)]) []);
      [reflexivity | split; [discriminate | reflexivity] | vm_compute; reflexivity].
Defined.

Lemma map_entries_in_any_order_witness :
  NoDup (map fst example_unordered)
  /\ exists m : ObjectValue_Map,
       example_decode
         (tag_bytes PB_WT_STRING 6
          ++ length_delimited (MapValue_wire example_unordered) ++ [])
       = Ret (ValueOf (ObjectValueFromMap m))
       /\ sorted_keys m = true
       /\ forall kv, In kv m <-> In kv example_unordered.
Proof.
  assert (Hnodup : NoDup (map fst example_unordered)).
  { repeat constructor; cbn [In map fst example_unordered].
    - intros [E|[]]. discriminate E.
    - intros []. }
  split; [exact Hnodup|].
  apply (map_entries_in_any_order example_MIN_SECONDS example_MAX_SECONDS
           example_unordered [] Hnodup).
  - intros k v [E|[E|[]]]; injection E as _ <-; reflexivity.
  - vm_compute. reflexivity.
Defined.

Lemma reencoding_is_stable_witness :
  example_decode [x08; x81; x00] = Ret (ValueOf (BooleanValue true))
  /\ Serializer_EncodeFieldValue (BooleanValue true) [] = Ret (OK, [x08; x01])
  /\ OK = OK
  /\ example_decode [x08; x01] = Ret (ValueOf (BooleanValue true)).
Proof.
  split; [vm_compute; reflexivity|]. split; [vm_compute; reflexivity|].
  apply (reencoding_is_stable example_MIN_SECONDS example_MAX_SECONDS
           [x08; x81; x00] [x08; x01] (BooleanValue true) OK);
    vm_compute; reflexivity.
Defined.

Lemma encoding_is_prefix_free_witness :
  FieldValue_valid example_MIN_SECONDS example_MAX_SECONDS example_object = true
  /\ Serializer_EncodeFieldValue example_object []
     = Ret (OK, [x32; x09; x0a; x07; x0a; x01; x61; x12; x02; x08; x01])
  /\ example_object = example_object
  /\ [x32; x09; x0a; x07; x0a; x01; x61; x12; x02; x08; x01]
     = [x32; x09; x0a; x07; x0a; x01; x61; x12; x02; x08; x01]
  /\ [x58; x00] = [x58; x00].
Proof.
  split; [reflexivity|]. split; [vm_compute; reflexivity|].
  apply (encoding_is_prefix_free example_MIN_SECONDS example_MAX_SECONDS
           example_object example_object OK OK
           [x32; x09; x0a; x07; x0a; x01; x61; x12; x02; x08; x01]
           [x32; x09; x0a; x07; x0a; x01; x61; x12; x02; x08; x01]
           [x58; x00] [x58; x00]);
    first [reflexivity | vm_compute; reflexivity].
Defined.

Lemma abort_needs_unknown_timestamp_or_map_witness :
  example_decode [x60; x00] = Abort
  /\ exists tag reader,
       Reader.ReadTag (Reader.Wrap [x60; x00]) = Ret (tag, reader)
       /\ ok (Reader.status reader) = true
       /\ ~ In (field_number tag)
            [google_firestore_v1beta1_Value_null_value_tag;
             google_firestore_v1beta1_Value_boolean_value_tag;
             google_firestore_v1beta1_Value_integer_value_tag;
             google_firestore_v1beta1_Value_string_value_tag].
Proof.
  split; [vm_compute; reflexivity|].
  apply (abort_needs_unknown_timestamp_or_map
           example_MIN_SECONDS example_MAX_SECONDS [x60; x00]).
  vm_compute. reflexivity.
Defined.

Lemma negative_integer_takes_eleven_bytes_witness :
  in_int64b (-1) = true
  /\ exists wire : list byte,
       Serializer_EncodeFieldValue (IntegerValue (-1)) [] = Ret (OK, [] ++ wire)
       /\ (2 <= length wire <= 11)%nat
       /\ ((-1 < 0)%Z -> length wire = 11%nat).
Proof.
  split; [reflexivity|].
  apply (negative_integer_takes_eleven_bytes (-1) []). reflexivity.
Defined.

Lemma duplicate_key_aborts_witness :
  Reader.ReadTag
    (reader_at [x0a; x07; x0a; x01; x61; x12; x02; x08; x00] 9)
  = Ret (mkTag PB_WT_STRING 1,
         reader_at [x07; x0a; x01; x61; x12; x02; x08; x00] 8)
  /\ Reader.ReadNestedMessage value_type_default
       (DecodeFieldsEntry
          (DecodeFieldValueImpl example_MIN_SECONDS example_MAX_SECONDS 9))
       (reader_at [x07; x0a; x01; x61; x12; x02; x08; x00] 8)
     = Ret ((str "a", BooleanValue false), reader_at [] 0)
  /\ Map_contains (str "a") [(str "a", BooleanValue true)] = true
  /\ DecodeObject_loop
       (DecodeFieldValueImpl example_MIN_SECONDS example_MAX_SECONDS 9) 1
       (reader_at [x0a; x07; x0a; x01; x61; x12; x02; x08; x00] 9)
       [(str "a", BooleanValue true)]
     = Abort
  /\ NoDup (map fst [(str "b", NullValue); (str "a", BooleanValue true)])
  /\ In (str "a", BooleanValue true)
        [(str "b", NullValue); (str "a", BooleanValue true)]
  /\ example_decode
       (tag_bytes PB_WT_STRING 6
        ++ length_delimited
             (MapValue_wire [(str "b", NullValue); (str "a", BooleanValue true)]
              ++ FieldsEntry_wire (str "a") (FieldValue_wire (BooleanValue false))
              ++ MapValue_wire [(str "c", NullValue)])
        ++ [])
     = Abort
  /\ (2 <= 2 < 2 ^ 64)%N
  /\ example_decode
       [x32; x12; x0a; x07; x0a; x01; x61; x12; x02; x08; x01;
                  x0a; x07; x0a; x01; x61; x12; x02; x08; x02]
     = Ret (StatusOf DataLoss)
  /\ example_decode
       [x32; x14; x0a; x07; x0a; x01; x61; x12; x02; x08; x01;
                  x0a; x07; x0a; x01; x61; x12; x02; x08; x02; x0a; x00]
     = Abort.
Proof.
  pose proof (duplicate_key_aborts example_MIN_SECONDS example_MAX_SECONDS)
    as [Hloop [Hread Hrefused]].
  assert (Htag : Reader.ReadTag
                   (reader_at [x0a; x07; x0a; x01; x61; x12; x02; x08; x00] 9)
                 = Ret (mkTag PB_WT_STRING 1,
                        reader_at [x07; x0a; x01; x61; x12; x02; x08; x00] 8))
    by (vm_compute; reflexivity).
  assert (Hentry : Reader.ReadNestedMessage value_type_default
                     (DecodeFieldsEntry
                        (DecodeFieldValueImpl
                           example_MIN_SECONDS example_MAX_SECONDS 9))
                     (reader_at [x07; x0a; x01; x61; x12; x02; x08; x00] 8)
                   = Ret ((str "a", BooleanValue false), reader_at [] 0))
    by (vm_compute; reflexivity).
  assert (Hnodup : NoDup (map fst [(str "b", NullValue);
                                   (str "a", BooleanValue true)])).
  { apply NoDup_cons; [intros [E|[]]; discriminate E|].
    apply NoDup_cons; [intros [] | apply NoDup_nil]. }
  assert (Hvalid : forall k' v',
             In (k', v') [(str "b", NullValue); (str "a", BooleanValue true)] ->
             FieldValue_valid example_MIN_SECONDS example_MAX_SECONDS v' = true).
  { intros k' v' [E|[E|[]]]; injection E as _ <-; reflexivity. }
  assert (Hnodup1 : NoDup (map fst [(str "a", BooleanValue true)])).
  { apply NoDup_cons; [intros [] | apply NoDup_nil]. }
  assert (Hvalid1 : forall k' v',
             In (k', v') [(str "a", BooleanValue true)] ->
             FieldValue_valid example_MIN_SECONDS example_MAX_SECONDS v' = true).
  { intros k' v' [E|[]]; injection E as _ <-; reflexivity. }
  split; [exact Htag|]. split; [exact Hentry|]. split; [reflexivity|].
  split.
  { refine (Hloop _ 0%nat _ _ _ _ _ [(str "a", BooleanValue true)]
              _ Htag eq_refl eq_refl eq_refl Hentry eq_refl).
    discriminate. }
  split; [exact Hnodup|]. split; [right; left; reflexivity|].
  split.
  { apply (Hread [(str "b", NullValue); (str "a", BooleanValue true)] (str "a")
             (BooleanValue true) (BooleanValue false)
             (MapValue_wire [(str "c", NullValue)]) [] Hnodup Hvalid);
      [right; left; reflexivity | reflexivity | vm_compute; reflexivity]. }
  split; [split; [discriminate | reflexivity]|].
  split.
  { apply (Hrefused [(str "a", BooleanValue true)] (str "a") (BooleanValue true)
             2%N [] [] Hnodup1 Hvalid1);
      [left; reflexivity | split; [discriminate | reflexivity]
       | vm_compute; reflexivity]. }
  apply (Hrefused [(str "a", BooleanValue true)] (str "a") (BooleanValue true)
           2%N [x0a; x00] [] Hnodup1 Hvalid1);
    [left; reflexivity | split; [discriminate | reflexivity]
     | vm_compute; reflexivity].
Defined.
